(** * TeraByeBye: boundary search, batch deletion and backup over POP3

    A shallow embedding of the Yahoo POP3 engine of the repository
    ([src/yahoo/terabyebye.py], with the older [src/pop3_cleanup_fast.py]):

    - [Datetime]: naive datetimes and their comparison;
    - [BoundaryResolver]: [binary_search_date] and [binary_search_cutoff];
    - [Pop3]: the mailbox, a session's commands and what a transport may do;
    - [BackupPipeline]: [backup_emails_to_zip];
    - [DeleteEngine]: [delete_messages_robust];
    - [DeletionRange]: [parse_delete_years] and [get_deletion_range];
    - [CleanupFast], [CleanupFastMain]: the engine and [main] of the older
      script;
    - [MailboxChange]: what a run may do to the mailbox;
    - [Main]: [main].

    The loops of the source have no bound of their own.  The binary search
    takes a fuel; the two batch engines consume one transport behaviour
    ([Pop3.session_env]) per loop iteration and return [None] when the list
    of behaviours is exhausted before the loop has left. *)

From Stdlib Require Import ZArith List Bool Lia Permutation Finite.
Import ListNotations.

Local Open Scope Z_scope.

(* ================================================================== *)
(** ** Naive datetimes *)

Module Datetime.

(** What [parsedate_to_datetime(...).replace(tzinfo=None)] yields: a naive
    datetime.  [micros] is the time of day in microseconds. *)
Record datetime : Type := mk_datetime
  { year : Z; month : Z; day : Z; micros : Z }.

(** Python compares naive datetimes field by field, most significant
    first. *)
Definition ltb (a b : datetime) : bool :=
  (year a <? year b) ||
  ((year a =? year b) &&
   ((month a <? month b) ||
    ((month a =? month b) &&
     ((day a <? day b) ||
      ((day a =? day b) && (micros a <? micros b)))))).

(** [a >= b] *)
Definition geb (a b : datetime) : bool := negb (ltb a b).

Definition lt (a b : datetime) : Prop :=
  year a < year b \/
  (year a = year b /\
   (month a < month b \/
    (month a = month b /\
     (day a < day b \/ (day a = day b /\ micros a < micros b))))).

Definition le (a b : datetime) : Prop := ~ lt b a.

End Datetime.

(* ================================================================== *)
(** ** BoundaryResolver: [binary_search_date] *)

Module BoundaryResolver.
Import Datetime.

(** [get_message_date(pop, msg_num)] as seen by the search: the parsed
    [Date:] header of the message at that position, or [None] when the
    TOP command fails, no header is there, or it does not parse. *)
Definition session : Type := Z -> option datetime.

(** [for offset in [1, -1, 2, -2, 5, -5]] *)
Definition offsets : list Z := [1; -1; 2; -2; 5; -5].

(** [1 <= test_msg <= num_messages] *)
Definition in_mailbox (num_messages test_msg : Z) : bool :=
  (1 <=? test_msg) && (test_msg <=? num_messages).

(** The neighbour loop.  Returns the positions on which
    [get_message_date] was called, in order, and the adopted candidate
    with its date when one is found ([found = True], [mid = test_msg]). *)
Fixpoint probe_neighbors (pop : session) (num_messages mid : Z)
    (offs : list Z) : list Z * option (Z * datetime) :=
  match offs with
  | [] => ([], None)
  | offset :: rest =>
      let test_msg := mid + offset in
      if in_mailbox num_messages test_msg then
        match pop test_msg with
        | Some msg_date => ([test_msg], Some (test_msg, msg_date))
        | None =>
            let (calls, r) := probe_neighbors pop num_messages mid rest in
            (test_msg :: calls, r)
        end
      else probe_neighbors pop num_messages mid rest
  end.

(** The variables of the [while] loop, with the positions probed so far. *)
Record search_state : Type := mk_search
  { left : Z; right : Z; result : Z; probed : list Z }.

(** One pass through the body of [while left <= right]. *)
Definition step (pop : session) (num_messages : Z) (target_date : datetime)
    (find_first_gte : bool) (s : search_state) : search_state :=
  let mid := (left s + right s) / 2 in
  let (calls, candidate) :=
    match pop mid with
    | Some msg_date => ([mid], Some (mid, msg_date))
    | None =>
        let (calls, r) := probe_neighbors pop num_messages mid offsets in
        (mid :: calls, r)
    end in
  let log := probed s ++ calls in
  match candidate with
  | None => mk_search (mid + 10) (right s) (result s) log
  | Some (mid, msg_date) =>
      if find_first_gte then
        if geb msg_date target_date
        then mk_search (left s) (mid - 1) mid log
        else mk_search (mid + 1) (right s) (result s) log
      else
        if ltb msg_date target_date
        then mk_search (mid + 1) (right s) mid log
        else mk_search (left s) (mid - 1) (result s) log
  end.

Fixpoint loop (fuel : nat) (pop : session) (num_messages : Z)
    (target_date : datetime) (find_first_gte : bool) (s : search_state)
    : option search_state :=
  if left s <=? right s then
    match fuel with
    | O => None
    | S fuel' =>
        loop fuel' pop num_messages target_date find_first_gte
          (step pop num_messages target_date find_first_gte s)
    end
  else Some s.

Definition initial (num_messages : Z) (find_first_gte : bool)
    : search_state :=
  mk_search 1 num_messages
    (if find_first_gte then num_messages + 1 else 0) [].

Definition binary_search_date (fuel : nat) (pop : session)
    (num_messages : Z) (target_date : datetime) (find_first_gte : bool)
    : option Z :=
  option_map result
    (loop fuel pop num_messages target_date find_first_gte
       (initial num_messages find_first_gte)).

(** [binary_search_cutoff] of [pop3_cleanup_fast.py]: the same loop with
    the first-at-or-after comparison only. *)
Definition cutoff_step (pop : session) (num_messages : Z)
    (cutoff_date : datetime) (s : search_state) : search_state :=
  let mid := (left s + right s) / 2 in
  let (calls, candidate) :=
    match pop mid with
    | Some msg_date => ([mid], Some (mid, msg_date))
    | None =>
        let (calls, r) := probe_neighbors pop num_messages mid offsets in
        (mid :: calls, r)
    end in
  let log := probed s ++ calls in
  match candidate with
  | None => mk_search (mid + 10) (right s) (result s) log
  | Some (mid, msg_date) =>
      if geb msg_date cutoff_date
      then mk_search (left s) (mid - 1) mid log
      else mk_search (mid + 1) (right s) (result s) log
  end.

Fixpoint cutoff_loop (fuel : nat) (pop : session) (num_messages : Z)
    (cutoff_date : datetime) (s : search_state) : option search_state :=
  if left s <=? right s then
    match fuel with
    | O => None
    | S fuel' =>
        cutoff_loop fuel' pop num_messages cutoff_date
          (cutoff_step pop num_messages cutoff_date s)
    end
  else Some s.

Definition binary_search_cutoff (fuel : nat) (pop : session)
    (num_messages : Z) (cutoff_date : datetime) : option Z :=
  option_map result
    (cutoff_loop fuel pop num_messages cutoff_date
       (mk_search 1 num_messages (num_messages + 1) [])).

(** *** Mailboxes the search is specified on *)

(** Every position of 1..N has a parseable date. *)
Definition all_dated (pop : session) (N : Z) : Prop :=
  forall i, 1 <= i <= N -> exists d, pop i = Some d.

(** Date is non-decreasing in position. *)
Definition non_decreasing (pop : session) (N : Z) : Prop :=
  forall i j di dj, 1 <= i -> i <= j -> j <= N ->
    pop i = Some di -> pop j = Some dj -> le di dj.

(** Position [i] holds a message dated before [T] / at or after [T]. *)
Definition dated_before (pop : session) (T : datetime) (i : Z) : Prop :=
  exists d, pop i = Some d /\ lt d T.

Definition dated_from (pop : session) (T : datetime) (i : Z) : Prop :=
  exists d, pop i = Some d /\ le T d.

(** The search window lies in the mailbox and is at most just closed. *)
Definition window (N : Z) (s : search_state) : Prop :=
  1 <= left s /\ right s <= N /\ left s <= right s + 1.

(** What the first-at-or-after search knows about the positions outside
    its window. *)
Definition gte_invariant (pop : session) (N : Z) (T : datetime)
    (s : search_state) : Prop :=
  result s = right s + 1 /\
  (forall i, 1 <= i < left s -> dated_before pop T i) /\
  (forall i, right s < i <= N -> dated_from pop T i).

End BoundaryResolver.

(* ================================================================== *)
(** ** The POP3 mailbox and what a session can do *)

Module Pop3.
Import Datetime.

(** A stored message: its raw content (identified by [msg_id]) and the
    date its [Date:] header parses to, if any.  The protocol itself
    addresses messages by position only. *)
Record message : Type := mk_message
  { msg_id : nat; msg_date : option datetime }.

(** The server-side store, position 1 first. *)
Definition mailbox : Type := list message.

(** What the transport does to the commands of one session: which calls
    return and which raise.  A fresh one is drawn for every
    [connect_pop3]. *)
Record session_env : Type := mk_env
  { connect_ok : bool;
    stat_ok : bool;
    retr_ok : Z -> bool;
    top_ok : Z -> bool;
    dele_ok : Z -> bool;
    quit_ok : bool }.

Definition message_at (mb : mailbox) (pos : Z) : option message :=
  if 1 <=? pos then nth_error mb (Z.to_nat (pos - 1)) else None.

(** [num_messages, _ = pop.stat()] *)
Definition stat (mb : mailbox) : Z := Z.of_nat (length mb).

(** [pop.retr(msg_num)]: the message, or [None] for an exception. *)
Definition retr (env : session_env) (mb : mailbox) (msg_num : Z)
    : option message :=
  if retr_ok env msg_num then message_at mb msg_num else None.

(** [get_message_date(pop, msg_num)]: never raises. *)
Definition get_message_date (env : session_env) (mb : mailbox)
    (msg_num : Z) : option datetime :=
  if top_ok env msg_num then
    match message_at mb msg_num with
    | Some m => msg_date m
    | None => None
    end
  else None.

(** [pop.dele(msg_num)]: [true] when the message is marked. *)
Definition dele (env : session_env) (mb : mailbox) (msg_num : Z) : bool :=
  dele_ok env msg_num && (1 <=? msg_num) && (msg_num <=? stat mb).

Definition is_marked (marks : list Z) (pos : Z) : bool :=
  existsb (Z.eqb pos) marks.

(** A successful [quit] applies the marks: the messages that stay, and
    the ones that go, [pos] being the position of the head of [mb]. *)
Fixpoint kept_from (marks : list Z) (pos : Z) (mb : mailbox) : mailbox :=
  match mb with
  | [] => []
  | m :: mb' =>
      if is_marked marks pos then kept_from marks (pos + 1) mb'
      else m :: kept_from marks (pos + 1) mb'
  end.

Fixpoint removed_from (marks : list Z) (pos : Z) (mb : mailbox) : mailbox :=
  match mb with
  | [] => []
  | m :: mb' =>
      if is_marked marks pos then m :: removed_from marks (pos + 1) mb'
      else removed_from marks (pos + 1) mb'
  end.

Definition commit (mb : mailbox) (marks : list Z) : mailbox :=
  kept_from marks 1 mb.

Definition removed (mb : mailbox) (marks : list Z) : mailbox :=
  removed_from marks 1 mb.

(** [range(lo, hi)] *)
Definition range (lo hi : Z) : list Z :=
  map (fun i => lo + Z.of_nat i) (seq 0 (Z.to_nat (hi - lo))).

Inductive control (exit : Type) : Type :=
| Continue
| Break (reason : exit)
| Raise.
Arguments Continue {exit}.
Arguments Break {exit} reason.
Arguments Raise {exit}.

End Pop3.

(* ================================================================== *)
(** ** BackupPipeline: [backup_emails_to_zip] *)

Module BackupPipeline.
Import Datetime Pop3.

(** [emails_<year:04d>-<month:02d>.zip], kept as the pair the name is
    printed from. *)
Definition zip_name : Type := (Z * Z)%type.

(** [msg_<file_index:06d>_<date_str>.eml]: the running index and the
    [%Y%m%d] digits, [None] standing for ["unknown"]. *)
Definition eml_name : Type := (Z * option (Z * Z * Z))%type.

Record archive_entry : Type := mk_entry
  { zip_filename : zip_name; eml_filename : eml_name; content : message }.

Definition zip_eqb (a b : zip_name) : bool :=
  (fst a =? fst b) && (snd a =? snd b).

(** The bucket of a message: [(msg_date.year, msg_date.month)], and
    [(1970, 1)] for unknown dates. *)
Definition bucket (msg_date : option datetime) : zip_name :=
  match msg_date with
  | Some d => (year d, month d)
  | None => (1970, 1)
  end.

Definition date_str (msg_date : option datetime) : option (Z * Z * Z) :=
  match msg_date with
  | Some d => Some (year d, month d, day d)
  | None => None
  end.

Inductive event : Type :=
| Downloading (current_start batch_end backed_up : Z)
| Retr (msg_num : Z) (ok : bool)
| ZipWrite (e : archive_entry)
| Dele (msg_num : Z) (ok : bool)
| Quit (ok : bool) (gone : list message)
| Sleep (seconds : Z).

Definition max_failures : Z := 5.

(** [batch_size = 50  # Download in batches to handle reconnection] *)
Definition batch_size : Z := 50.

(** The locals of the function, the mailbox on the server, the entries in
    the ZIP files of [output_dir], and what has happened so far. *)
Record state : Type := mk_state
  { backed_up : Z;
    deleted : Z;
    consecutive_failures : Z;
    remaining : Z;
    server : mailbox;
    archive : list archive_entry;
    trace : list event }.

(** [for msg_num in range(current_start, batch_end + 1)]: the pairs of
    [batch_msg_nums] and [batch_emails] (appended together in the source),
    the failure counter and the RETR commands issued.  [n] is
    [len(batch_emails)] on entry. *)
Fixpoint read_batch (env : session_env) (mb : mailbox) (backed_up : Z)
    (msg_nums : list Z) (n : Z) (consecutive_failures : Z)
    : list (Z * archive_entry) * Z * list event :=
  match msg_nums with
  | [] => ([], consecutive_failures, [])
  | msg_num :: rest =>
      match retr env mb msg_num with
      | Some m =>
          let msg_date := get_message_date env mb msg_num in
          let file_index := backed_up + n + 1 in
          let e := mk_entry (bucket msg_date)
                            (file_index, date_str msg_date) m in
          let '(batch, cf, evs) :=
            read_batch env mb backed_up rest (n + 1) consecutive_failures in
          ((msg_num, e) :: batch, cf, Retr msg_num true :: evs)
      | None =>
          let cf1 := consecutive_failures + 1 in
          if cf1 >=? max_failures then ([], cf1, [Retr msg_num false])
          else
            let '(batch, cf, evs) :=
              read_batch env mb backed_up rest n cf1 in
            (batch, cf, Retr msg_num false :: evs)
      end
  end.

(** [batch_by_zip[zip_filename].append((eml_filename, content))] on a
    dictionary that keeps its keys in order of first insertion. *)
Fixpoint add_to_zip (e : archive_entry)
    (groups : list (zip_name * list archive_entry))
    : list (zip_name * list archive_entry) :=
  match groups with
  | [] => [(zip_filename e, [e])]
  | (z, es) :: groups' =>
      if zip_eqb (zip_filename e) z then (z, es ++ [e]) :: groups'
      else (z, es) :: add_to_zip e groups'
  end.

Definition batch_by_zip (batch_emails : list archive_entry)
    : list (zip_name * list archive_entry) :=
  fold_left (fun groups e => add_to_zip e groups) batch_emails [].

(** The entries in the order [zf.writestr] receives them. *)
Definition zip_writes (batch_emails : list archive_entry)
    : list archive_entry :=
  concat (map snd (batch_by_zip batch_emails)).

(** [for msg_num in batch_msg_nums: pop.dele(msg_num)], errors printed and
    skipped. *)
Definition mark_batch (env : session_env) (mb : mailbox)
    (batch_msg_nums : list Z) : list Z * list event :=
  (filter (dele env mb) batch_msg_nums,
   map (fun msg_num => Dele msg_num (dele env mb msg_num)) batch_msg_nums).

Definition current_start_of (delete_after : bool) (start_pos : Z)
    (s : state) : Z :=
  if delete_after then start_pos else start_pos + backed_up s.

(** [min(batch_size, remaining, num_messages - current_start + 1)] *)
Definition batch_count_of (delete_after : bool) (start_pos : Z)
    (s : state) : Z :=
  Z.min (Z.min batch_size (remaining s))
        (stat (server s) - current_start_of delete_after start_pos s + 1).

Definition log (s : state) (evs : list event) : state :=
  mk_state (backed_up s) (deleted s) (consecutive_failures s) (remaining s)
           (server s) (archive s) (trace s ++ evs).

Definition with_failures (s : state) (cf : Z) : state :=
  mk_state (backed_up s) (deleted s) cf (remaining s)
           (server s) (archive s) (trace s).

(** One pass through the body of [while remaining > 0]. *)
Definition iteration (delete_after : bool) (start_pos : Z)
    (env : session_env) (s : state) : control unit * state :=
  if negb (connect_ok env) then
    let cf := consecutive_failures s + 1 in
    if cf >=? max_failures then (Break tt, with_failures s cf)
    else (Continue, log (with_failures s cf) [Sleep (30 * cf)])
  else if negb (stat_ok env) then
    (Continue,
     log (with_failures s (consecutive_failures s + 1))
         [Quit (quit_ok env) []])
  else
    let num_messages := stat (server s) in
    let current_start := current_start_of delete_after start_pos s in
    if current_start >? num_messages then
      (Break tt, log s [Quit (quit_ok env) []])
    else
      let batch_count := batch_count_of delete_after start_pos s in
      let batch_end := current_start + batch_count - 1 in
      let '(batch, cf, reads) :=
        read_batch env (server s) (backed_up s)
          (range current_start (batch_end + 1)) 0 (consecutive_failures s) in
      let head := Downloading current_start batch_end (backed_up s) :: reads in
      if cf >=? max_failures then
        (Break tt, log (with_failures s cf) (head ++ [Quit (quit_ok env) []]))
      else
        let batch_emails := map snd batch in
        let batch_msg_nums := map fst batch in
        let written := zip_writes batch_emails in
        let n := Z.of_nat (length batch_emails) in
        let backed_up1 := backed_up s + n in
        let remaining1 := remaining s - n in
        let pause := if remaining1 >? 0 then [Sleep 2] else [] in
        match delete_after, batch_msg_nums with
        | true, _ :: _ =>
            let (marks, deles) := mark_batch env (server s) batch_msg_nums in
            if quit_ok env then
              (Continue,
               mk_state backed_up1
                 (deleted s + Z.of_nat (length batch_msg_nums))
                 0 remaining1
                 (commit (server s) marks)
                 (archive s ++ written)
                 (trace s ++ head ++ map ZipWrite written ++ deles
                    ++ [Quit true (removed (server s) marks)] ++ pause))
            else
              let cf1 := cf + 1 in
              (Continue,
               mk_state (backed_up1 - n) (deleted s) cf1 (remaining1 + n)
                 (server s)
                 (archive s ++ written)
                 (trace s ++ head ++ map ZipWrite written ++ deles
                    ++ [Quit false []; Sleep (30 * cf1)]))
        | _, _ =>
            (Continue,
             mk_state backed_up1 (deleted s) 0 remaining1
               (server s)
               (archive s ++ written)
               (trace s ++ head ++ map ZipWrite written
                  ++ [Quit (quit_ok env) []] ++ pause))
        end.

(** [while remaining > 0], one [session_env] per pass; [None] when the
    passes outnumber [envs]. *)
Fixpoint run (delete_after : bool) (start_pos : Z)
    (envs : list session_env) (s : state) : option state :=
  if remaining s >? 0 then
    match envs with
    | [] => None
    | env :: envs' =>
        match iteration delete_after start_pos env s with
        | (Continue, s') => run delete_after start_pos envs' s'
        | (_, s') => Some s'
        end
    end
  else Some s.

Definition initial (start_pos end_pos : Z) (mb : mailbox)
    (disk : list archive_entry) : state :=
  let total_to_process := end_pos - start_pos + 1 in
  mk_state 0 0 0 total_to_process mb disk [].

(** The run of the function, as the final state. *)
Definition backup_run (start_pos end_pos : Z) (delete_after : bool)
    (envs : list session_env) (mb : mailbox) (disk : list archive_entry)
    : option state :=
  run delete_after start_pos envs (initial start_pos end_pos mb disk).

(** [return backed_up, deleted] *)
Definition backup_emails_to_zip (start_pos end_pos : Z)
    (delete_after : bool) (envs : list session_env) (mb : mailbox)
    (disk : list archive_entry) : option (Z * Z) :=
  option_map (fun s => (backed_up s, deleted s))
    (backup_run start_pos end_pos delete_after envs mb disk).

(** The messages written to the archive, in order, and their ids. *)
Definition written (t : list event) : list message :=
  flat_map (fun ev => match ev with ZipWrite e => [content e] | _ => [] end) t.

Definition written_ids (t : list event) : list nat :=
  map msg_id (written t).

(** The number of archive entries written for message [m]. *)
Definition entries_for (m : message) (t : list event) : nat :=
  count_occ Nat.eq_dec (written_ids t) (msg_id m).

(** Every commit in [t] removes only messages that were written to the
    archive earlier in [t], or are in [seen]. *)
Fixpoint archived_before_commit (seen : list message) (t : list event)
    : Prop :=
  match t with
  | [] => True
  | ZipWrite e :: t' => archived_before_commit (content e :: seen) t'
  | Quit true gone :: t' =>
      incl gone seen /\ archived_before_commit seen t'
  | _ :: t' => archived_before_commit seen t'
  end.

(** The mailbox holds each message once, no message was written twice,
    nothing still in the mailbox has been written, and everything a commit
    removed has been. *)
Definition archive_matches_mailbox (s : state) : Prop :=
  NoDup (map msg_id (server s)) /\
  NoDup (written_ids (trace s)) /\
  (forall m, In m (server s) -> ~ In (msg_id m) (written_ids (trace s))) /\
  (forall gone m, In (Quit true gone) (trace s) -> In m gone ->
                  In (msg_id m) (written_ids (trace s))).

(** Events that neither write to the archive nor end a session. *)
Definition quiet (t : list event) : Prop :=
  Forall (fun ev => match ev with
                    | ZipWrite _ | Quit _ _ => False
                    | _ => True
                    end) t.

Definition retr_positions (t : list event) : list Z :=
  flat_map (fun ev => match ev with Retr p _ => [p] | _ => [] end) t.

Definition dele_positions (t : list event) : list Z :=
  flat_map (fun ev => match ev with Dele p _ => [p] | _ => [] end) t.

(** What closes a pass: session ends and sleeps, the one successful
    commit, if any, removing [gone]. *)
Definition closes (gone : list message) (t : list event) : Prop :=
  Forall (fun ev => match ev with
                    | Quit true g => g = gone
                    | Quit false g => g = []
                    | Sleep _ => True
                    | _ => False
                    end) t.

(** The anatomy of one pass from [s] to [s']: downloads, then the ZIP
    writes of the batch, then the DELE commands, then the end of the
    session. *)
Definition pass_shape (delete_after : bool) (start_pos : Z)
    (env : session_env) (s s' : state) : Prop :=
  let cs := current_start_of delete_after start_pos s in
  let bc := batch_count_of delete_after start_pos s in
  exists batch head deles closing gone,
    trace s' = trace s ++ head ++ map ZipWrite (zip_writes (map snd batch))
                 ++ deles ++ closing /\
    archive s' = archive s ++ zip_writes (map snd batch) /\
    quiet head /\ dele_positions head = [] /\
    (exists k, retr_positions head = firstn k (range cs (cs + bc))) /\
    (forall a b u, In (Downloading a b u) head ->
                   a = cs /\ u = backed_up s) /\
    NoDup (map fst batch) /\ (length batch <= 50)%nat /\
    Forall (fun pe => message_at (server s) (fst pe)
                      = Some (content (snd pe))) batch /\
    (deles = [] \/
     deles = map (fun p => Dele p (dele env (server s) p)) (map fst batch)) /\
    closes gone closing /\
    ((server s' = server s /\ gone = [] /\
      (batch = [] \/ delete_after = false \/ quit_ok env = false)) \/
     (server s' = commit (server s)
                    (filter (dele env (server s)) (map fst batch)) /\
      gone = removed (server s)
               (filter (dele env (server s)) (map fst batch)))).

End BackupPipeline.

(* ================================================================== *)
(** ** BatchDeleteEngine: [delete_messages_robust] *)

Module DeleteEngine.
Import Pop3.

(** The part of the configuration dictionary the engine reads. *)
Record config : Type := mk_config { BATCH_SIZE : option Z }.

(** [config.get("BATCH_SIZE", 50)] *)
Definition get_BATCH_SIZE (c : config) : Z :=
  match BATCH_SIZE c with
  | Some v => v
  | None => 50
  end.

(** [batch_size = min(config.get("BATCH_SIZE", 50), 50)] *)
Definition batch_size (c : config) : Z := Z.min (get_BATCH_SIZE c) 50.

Definition max_failures : Z := 5.

(** [wait_time = min(30 * consecutive_failures, 120)], after a failed
    connection or STAT. *)
Definition connect_wait_time (consecutive_failures : Z) : Z :=
  Z.min (30 * consecutive_failures) 120.

(** [wait_time = min(60 * consecutive_failures, 300)], after a failed
    commit. *)
Definition commit_wait_time (consecutive_failures : Z) : Z :=
  Z.min (60 * consecutive_failures) 300.

Inductive event : Type :=
| Observed (num_messages : Z)
| Dele (msg_num : Z) (ok : bool)
| Committing (marked_count : Z)
| Quit (ok : bool) (gone : list message)
| Sleep (seconds : Z).

(** Why the [while True] loop was left. *)
Inductive exit : Type :=
| MailboxEmpty          (* "Mailbox empty!" *)
| TargetReached         (* "Target reached!" *)
| StartBeyondMailbox    (* "Start position beyond mailbox, done!" *)
| EmptyBatch            (* [batch_count <= 0] *)
| TooManyFailures.      (* "Too many consecutive failures" *)

Definition failed (x : exit) : bool :=
  match x with
  | TooManyFailures => true
  | _ => false
  end.

(** The locals that outlive a pass ([initial_count] and [num_messages]
    are [None] until first assigned), the mailbox on the server and what
    has happened so far. *)
Record state : Type := mk_state
  { consecutive_failures : Z;
    initial_count : option Z;
    num_messages : option Z;
    server : mailbox;
    trace : list event }.

(** [for i in range(current_start, current_start + batch_count)]: the
    positions marked, [marked_count] and the DELE commands issued. *)
Fixpoint mark_batch (env : session_env) (mb : mailbox) (msg_nums : list Z)
    (marked_count errors_this_batch : Z) : list Z * Z * list event :=
  match msg_nums with
  | [] => ([], marked_count, [])
  | i :: rest =>
      if dele env mb i then
        let '(marks, mc, evs) :=
          mark_batch env mb rest (marked_count + 1) errors_this_batch in
        (i :: marks, mc, Dele i true :: evs)
      else
        let errors := errors_this_batch + 1 in
        if errors >? 10 then ([], marked_count, [Dele i false])
        else
          let '(marks, mc, evs) :=
            mark_batch env mb rest marked_count errors in
          (marks, mc, Dele i false :: evs)
  end.

(** A [pop.quit()] outside any [try], followed by [break]. *)
Definition quit_and_break (env : session_env) (x : exit) (s : state)
    : control exit * state :=
  let s' := mk_state (consecutive_failures s) (initial_count s)
              (num_messages s) (server s)
              (trace s ++ [Quit (quit_ok env) []]) in
  if quit_ok env then (Break x, s') else (Raise, s').

(** The failure branch shared by a failed connection and a failed STAT. *)
Definition connection_failure (s : state) (evs : list event)
    : control exit * state :=
  let cf := consecutive_failures s + 1 in
  if cf >=? max_failures then
    (Break TooManyFailures,
     mk_state cf (initial_count s) (num_messages s) (server s)
       (trace s ++ evs))
  else
    (Continue,
     mk_state cf (initial_count s) (num_messages s) (server s)
       (trace s ++ evs ++ [Sleep (connect_wait_time cf)])).

(** One pass through the body of [while True]. *)
Definition iteration (c : config) (messages_to_delete start_position : Z)
    (env : session_env) (s : state) : control exit * state :=
  if negb (connect_ok env) then connection_failure s []
  else if negb (stat_ok env) then
    connection_failure s [Quit (quit_ok env) []]
  else
    let n := stat (server s) in
    let initial := match initial_count s with
                   | None => n
                   | Some i => i
                   end in
    let s1 := mk_state (consecutive_failures s) (Some initial) (Some n)
                (server s) (trace s ++ [Observed n]) in
    let actual_deleted := initial - n in
    if n =? 0 then quit_and_break env MailboxEmpty s1
    else if actual_deleted >=? messages_to_delete then
      quit_and_break env TargetReached s1
    else
      let current_start := start_position in
      if current_start >? n then quit_and_break env StartBeyondMailbox s1
      else
        let remaining := messages_to_delete - actual_deleted in
        let batch_count :=
          Z.min (Z.min (batch_size c) remaining) (n - current_start + 1) in
        if batch_count <=? 0 then quit_and_break env EmptyBatch s1
        else
          let '(marks, marked_count, deles) :=
            mark_batch env (server s)
              (range current_start (current_start + batch_count)) 0 0 in
          let evs := trace s1 ++ deles ++ [Committing marked_count] in
          if quit_ok env then
            (Continue,
             mk_state 0 (Some initial) (Some n) (commit (server s) marks)
               (evs ++ [Quit true (removed (server s) marks); Sleep 3]))
          else
            let cf := consecutive_failures s + 1 in
            if cf >=? max_failures then
              (Break TooManyFailures,
               mk_state cf (Some initial) (Some n) (server s)
                 (evs ++ [Quit false []]))
            else
              (Continue,
               mk_state cf (Some initial) (Some n) (server s)
                 (evs ++ [Quit false []; Sleep (commit_wait_time cf)])).

(** [while True], one [session_env] per pass; [None] when the passes
    outnumber [envs].  A result [(None, s)] is an exception leaving the
    function. *)
Fixpoint run (c : config) (messages_to_delete start_position : Z)
    (envs : list session_env) (s : state) : option (option exit * state) :=
  match envs with
  | [] => None
  | env :: envs' =>
      match iteration c messages_to_delete start_position env s with
      | (Continue, s') => run c messages_to_delete start_position envs' s'
      | (Break x, s') => Some (Some x, s')
      | (Raise, s') => Some (None, s')
      end
  end.

(** Python's [a - b if a else 0] on an [initial_count] that may be unset. *)
Definition shrinkage (initial_count : option Z) (count : option Z) : Z :=
  match initial_count, count with
  | Some i, Some k => if i =? 0 then 0 else i - k
  | _, _ => 0
  end.

(** The "Final count" block: a fresh session counts again; when any of its
    three calls raises, the last count of the loop is used. *)
Definition final_count (final : session_env) (s : state) : Z :=
  if connect_ok final && stat_ok final && quit_ok final
  then shrinkage (initial_count s) (Some (stat (server s)))
  else shrinkage (initial_count s) (num_messages s).

Definition initial (mb : mailbox) : state := mk_state 0 None None mb [].

(** The run of the loop, as exit reason and final state. *)
Definition delete_run (c : config) (messages_to_delete start_position : Z)
    (envs : list session_env) (mb : mailbox)
    : option (option exit * state) :=
  run c messages_to_delete start_position envs (initial mb).

(** The function: [Some (Some total_deleted)] when it returns,
    [Some None] when an exception leaves it, [None] when the loop is still
    running after [envs]. *)
Definition delete_messages_robust (c : config)
    (messages_to_delete start_position : Z)
    (envs : list session_env) (final : session_env) (mb : mailbox)
    : option (option Z) :=
  match delete_run c messages_to_delete start_position envs mb with
  | None => None
  | Some (None, _) => Some None
  | Some (Some _, s) => Some (Some (final_count final s))
  end.

Definition dele_positions (t : list event) : list Z :=
  flat_map (fun ev => match ev with Dele p _ => [p] | _ => [] end) t.

Definition observations (t : list event) : list Z :=
  flat_map (fun ev => match ev with Observed k => [k] | _ => [] end) t.

Definition sleeps (t : list event) : list Z :=
  flat_map (fun ev => match ev with Sleep k => [k] | _ => [] end) t.

(** The first observed count minus a later one, with Python's [else 0]
    for a first count that is unset or zero. *)
Definition observed_shrinkage (obs : list Z) (later : Z) : Z :=
  match obs with
  | [] => 0
  | first :: _ => if first =? 0 then 0 else first - later
  end.

(** [initial_count] and [num_messages] hold the first and the last count
    observed so far. *)
Definition tracks_observations (s : state) : Prop :=
  initial_count s = hd_error (observations (trace s)) /\
  num_messages s = last (map Some (observations (trace s))) None.

End DeleteEngine.

(* ================================================================== *)
(** ** The deletion range: [parse_delete_years], [get_deletion_range] *)

Module DeletionRange.
Import Datetime BoundaryResolver.

(** What the last-before search knows about the positions outside its
    window. *)
Definition lt_invariant (pop : session) (N : Z) (T : datetime)
    (s : search_state) : Prop :=
  result s = left s - 1 /\
  (forall i, 1 <= i < left s -> dated_before pop T i) /\
  (forall i, right s < i <= N -> dated_from pop T i).

(** The result is the sentinel of the mode or a position of the mailbox
    whose date compares the way the mode looks for. *)
Definition result_ok (pop : session) (N : Z) (T : datetime)
    (find_first_gte : bool) (R : Z) : Prop :=
  R = (if find_first_gte then N + 1 else 0) \/
  (1 <= R <= N /\
   if find_first_gte then dated_from pop T R else dated_before pop T R).

(** A datetime as [datetime(...)] accepts it, as far as the order needs
    it: months and days count from 1, the time of day from 0. *)
Definition well_formed (d : datetime) : Prop :=
  1 <= month d /\ 1 <= day d /\ 0 <= micros d.

(** [datetime(year, 1, 1)]; [None] for the [ValueError] of a year outside
    1..9999. *)
Definition first_of_year (y : Z) : option datetime :=
  if (1 <=? y) && (y <=? 9999) then Some (mk_datetime y 1 1 0) else None.

(** [parse_delete_years] once the string is split and its one or two
    numbers are read: the start of [start_year] and the first day of the
    year after [end_year]. *)
Definition parse_delete_years (start_year end_year : Z)
    : option (Z * Z * datetime * datetime) :=
  match first_of_year start_year, first_of_year (end_year + 1) with
  | Some start_date, Some end_date =>
      Some (start_year, end_year, start_date, end_date)
  | _, _ => None
  end.

(** What the configuration asks for: [DELETE_YEARS] as its two years, or
    the cutoff date that [CUTOFF_DATE] or [YEARS_OLD] and the clock give. *)
Inductive request : Type :=
| DeleteYears (start_year end_year : Z)
| Before (cutoff_date : datetime).

(** The first three components of the result; [(None, None, 0)] says
    there is nothing to delete. *)
Record deletion_range : Type := mk_range
  { start_pos : option Z; end_pos : option Z; count : Z }.

Definition nothing : deletion_range := mk_range None None 0.

(** The outcome of a call: it returns, it raises, or a search is still
    running when the fuel is spent. *)
Inductive outcome : Type :=
| Returns (r : deletion_range)
| Raises
| OutOfFuel.

Definition get_deletion_range (fuel : nat) (pop : session)
    (num_messages : Z) (req : request)
    (oldest_date newest_date : option datetime) : outcome :=
  match req with
  | DeleteYears sy ey =>
      match parse_delete_years sy ey with
      | None => Raises
      | Some (start_year, end_year, start_date, end_date) =>
          let start_search :=
            match oldest_date with
            | Some od =>
                if start_year <=? year od then Some 1
                else binary_search_date fuel pop num_messages start_date true
            | None =>
                binary_search_date fuel pop num_messages start_date true
            end in
          match start_search with
          | None => OutOfFuel
          | Some start_pos =>
              let end_search :=
                match newest_date with
                | Some nd =>
                    if end_year >=? year nd then Some num_messages
                    else option_map (fun e => e - 1)
                           (binary_search_date fuel pop num_messages
                              end_date true)
                | None =>
                    option_map (fun e => e - 1)
                      (binary_search_date fuel pop num_messages
                         end_date true)
                end in
              match end_search with
              | None => OutOfFuel
              | Some end_pos =>
                  if (start_pos >? end_pos) || (start_pos >? num_messages)
                  then Returns nothing
                  else Returns (mk_range (Some start_pos) (Some end_pos)
                                  (end_pos - start_pos + 1))
              end
          end
      end
  | Before cutoff_date =>
      let before_oldest :=
        match oldest_date with
        | Some od => negb (ltb od cutoff_date)      (* cutoff <= oldest *)
        | None => false
        end in
      if before_oldest then Returns nothing
      else
        let after_newest :=
          match newest_date with
          | Some nd => ltb nd cutoff_date           (* cutoff > newest *)
          | None => false
          end in
        if after_newest then
          Returns (mk_range (Some 1) (Some num_messages) num_messages)
        else
          match binary_search_date fuel pop num_messages cutoff_date true with
          | None => OutOfFuel
          | Some cutoff_msg =>
              if cutoff_msg <=? 1 then Returns nothing
              else Returns (mk_range (Some 1) (Some (cutoff_msg - 1))
                              (cutoff_msg - 1))
          end
  end.

(** The call in [main]: the dates of the first and the last message are
    looked up first and passed along. *)
Definition main_deletion_range (fuel : nat) (pop : session)
    (num_messages : Z) (req : request) : outcome :=
  get_deletion_range fuel pop num_messages req (pop 1) (pop num_messages).

(** Position [i] is one the range [r] deletes. *)
Definition in_range (r : deletion_range) (i : Z) : Prop :=
  match start_pos r, end_pos r with
  | Some s, Some e => s <= i <= e
  | _, _ => False
  end.

End DeletionRange.

(* ================================================================== *)
(** ** The older script: [delete_messages_robust] of [pop3_cleanup_fast.py] *)

Module CleanupFast.
Import Pop3 DeleteEngine.

(** One pass through the body of [while True]: the loop of the older
    script, which always deletes from position 1 and has no start
    position to check. *)
Definition iteration (c : config) (messages_to_delete : Z)
    (env : session_env) (s : state) : control exit * state :=
  if negb (connect_ok env) then connection_failure s []
  else if negb (stat_ok env) then
    connection_failure s [Quit (quit_ok env) []]
  else
    let n := stat (server s) in
    let initial := match initial_count s with
                   | None => n
                   | Some i => i
                   end in
    let s1 := mk_state (consecutive_failures s) (Some initial) (Some n)
                (server s) (trace s ++ [Observed n]) in
    let actual_deleted := initial - n in
    if n =? 0 then quit_and_break env MailboxEmpty s1
    else if actual_deleted >=? messages_to_delete then
      quit_and_break env TargetReached s1
    else
      let remaining := messages_to_delete - actual_deleted in
      let batch_count := Z.min (Z.min (batch_size c) remaining) n in
      if batch_count <=? 0 then quit_and_break env EmptyBatch s1
      else
        let '(marks, marked_count, deles) :=
          mark_batch env (server s) (range 1 (batch_count + 1)) 0 0 in
        let evs := trace s1 ++ deles ++ [Committing marked_count] in
        if quit_ok env then
          (Continue,
           mk_state 0 (Some initial) (Some n) (commit (server s) marks)
             (evs ++ [Quit true (removed (server s) marks); Sleep 3]))
        else
          let cf := consecutive_failures s + 1 in
          if cf >=? max_failures then
            (Break TooManyFailures,
             mk_state cf (Some initial) (Some n) (server s)
               (evs ++ [Quit false []]))
          else
            (Continue,
             mk_state cf (Some initial) (Some n) (server s)
               (evs ++ [Quit false []; Sleep (commit_wait_time cf)])).

Fixpoint run (c : config) (messages_to_delete : Z)
    (envs : list session_env) (s : state) : option (option exit * state) :=
  match envs with
  | [] => None
  | env :: envs' =>
      match iteration c messages_to_delete env s with
      | (Continue, s') => run c messages_to_delete envs' s'
      | (Break x, s') => Some (Some x, s')
      | (Raise, s') => Some (None, s')
      end
  end.

Definition delete_messages_robust (c : config) (messages_to_delete : Z)
    (envs : list session_env) (final : session_env) (mb : mailbox)
    : option (option Z) :=
  match run c messages_to_delete envs (initial mb) with
  | None => None
  | Some (None, _) => Some None
  | Some (Some _, s) => Some (Some (final_count final s))
  end.

End CleanupFast.

(* ================================================================== *)
(** ** What a run may do to the mailbox *)

Module MailboxChange.
Import Datetime Pop3.

(** [l'] is [l] with some of its elements left out. *)
Inductive subseq {A : Type} : list A -> list A -> Prop :=
| subseq_nil : subseq [] []
| subseq_keep (x : A) (l' l : list A) : subseq l' l -> subseq (x :: l') (x :: l)
| subseq_drop (x : A) (l' l : list A) : subseq l' l -> subseq l' (x :: l).

(** The three parts of the mailbox a deletion of [count] messages from
    position [start_position] refers to: the messages before the range,
    the range itself (cut at the end of the mailbox) and what follows. *)
Definition before_range (start_position : Z) (mb : mailbox) : mailbox :=
  firstn (Z.to_nat (start_position - 1)) mb.

Definition the_range (start_position count : Z) (mb : mailbox) : mailbox :=
  firstn (Z.to_nat count) (skipn (Z.to_nat (start_position - 1)) mb).

Definition after_range (start_position count : Z) (mb : mailbox) : mailbox :=
  skipn (Z.to_nat count) (skipn (Z.to_nat (start_position - 1)) mb).

(** A transport on which no command fails. *)
Definition reliable (env : session_env) : Prop :=
  connect_ok env = true /\ stat_ok env = true /\ quit_ok env = true /\
  (forall p, retr_ok env p = true) /\ (forall p, top_ok env p = true) /\
  (forall p, dele_ok env p = true).

(** The mailbox as the searches see it through a session. *)
Definition session_of (env : session_env) (mb : mailbox)
    : BoundaryResolver.session :=
  fun msg_num => get_message_date env mb msg_num.

(** What the delete loop keeps true of its counters, [mb] being the
    mailbox it started on: the mailbox never grows; [initial_count], once
    set, is the size of [mb]; and the last count seen is between the
    present size and that. *)
Definition counts_tracked (mb : mailbox) (s : DeleteEngine.state) : Prop :=
  stat (DeleteEngine.server s) <= stat mb /\
  (DeleteEngine.initial_count s = None ->
   DeleteEngine.server s = mb /\ DeleteEngine.num_messages s = None) /\
  (forall i, DeleteEngine.initial_count s = Some i ->
     i = stat mb /\
     exists n, DeleteEngine.num_messages s = Some n /\
               stat (DeleteEngine.server s) <= n <= stat mb).

(** The mailbox is [mb] with some messages of the range left out. *)
Definition only_range_touched (start_position count : Z) (mb : mailbox)
    (s : DeleteEngine.state) : Prop :=
  exists mid,
    subseq mid (the_range start_position count mb) /\
    DeleteEngine.server s
    = before_range start_position mb ++ mid
        ++ after_range start_position count mb.

End MailboxChange.

(* ================================================================== *)
(** ** The program: [main] *)

Module Main.
Import Datetime Pop3 DeletionRange MailboxChange.

(** The command line: [--delete], [--unhinged], and whether [--backup]
    names a directory. *)
Record args : Type := mk_args
  { delete : bool; unhinged : bool; backup : bool }.

(** How a run of [main] ends. *)
Inductive report : Type :=
| NoCredentials                            (* [sys.exit(1)] *)
| Exception                                (* an exception leaves [main] *)
| NoMessages                               (* "No messages to process!" *)
| NothingToDelete                          (* "Nothing to delete!" *)
| Cancelled                                (* "Cancelled." or "Aborted." *)
| DryRun (messages_to_delete : Z)
| BackupComplete (backed_up deleted : Z)
| DeleteComplete (total_deleted : Z).

(** [main] after the configuration is loaded.  [credentials] says that
    e-mail and password are set, [req] is what the configuration asks
    for, [confirmed] that the answer typed at the one prompt of the run is
    the expected one.  [first] is the transport of the session that looks
    at the mailbox, [envs] and [final] those of the sessions of the backup
    or the deletion.  The result is the report, the mailbox and the
    archive afterwards; [None] when a loop is still running after [fuel]
    or [envs]. *)
Definition main (a : args) (credentials : bool) (c : DeleteEngine.config)
    (req : request) (confirmed : bool) (fuel : nat)
    (first : session_env) (envs : list session_env) (final : session_env)
    (mb : mailbox) (disk : list BackupPipeline.archive_entry)
    : option (report * mailbox * list BackupPipeline.archive_entry) :=
  if negb credentials then Some (NoCredentials, mb, disk)
  else
    let args_delete := unhinged a || delete a in
    if negb (connect_ok first) then Some (Exception, mb, disk)
    else if negb (stat_ok first) then Some (Exception, mb, disk)
    else
      let num_messages := stat mb in
      if num_messages =? 0 then
        Some (if quit_ok first then NoMessages else Exception, mb, disk)
      else
        match main_deletion_range fuel (session_of first mb)
                num_messages req with
        | OutOfFuel => None
        | Raises => Some (Exception, mb, disk)
        | Returns r =>
            let messages_to_delete := count r in
            if negb (quit_ok first) then Some (Exception, mb, disk)
            else if messages_to_delete =? 0 then
              Some (NothingToDelete, mb, disk)
            else
              match start_pos r, end_pos r with
              | Some start_pos, Some end_pos =>
                  if backup a then
                    if negb (unhinged a) && negb confirmed then
                      Some (Cancelled, mb, disk)
                    else
                      match BackupPipeline.backup_run start_pos end_pos
                              args_delete envs mb disk with
                      | None => None
                      | Some s =>
                          Some (BackupComplete (BackupPipeline.backed_up s)
                                  (BackupPipeline.deleted s),
                                BackupPipeline.server s,
                                BackupPipeline.archive s)
                      end
                  else if negb args_delete then
                    Some (DryRun messages_to_delete, mb, disk)
                  else if negb (unhinged a) && negb confirmed then
                    Some (Cancelled, mb, disk)
                  else
                    match DeleteEngine.delete_run c messages_to_delete
                            start_pos envs mb with
                    | None => None
                    | Some (None, s) =>
                        Some (Exception, DeleteEngine.server s, disk)
                    | Some (Some _, s) =>
                        Some (DeleteComplete
                                (DeleteEngine.final_count final s),
                              DeleteEngine.server s, disk)
                    end
              | _, _ => Some (Exception, mb, disk)
              end
        end.



End Main.

(* ================================================================== *)
(** ** The older program: [main] of [pop3_cleanup_fast.py] *)

Module CleanupFastMain.
Import Datetime Pop3 BoundaryResolver MailboxChange.

(** The command line: [--execute] and [--unhinged]. *)
Record args : Type := mk_args { execute : bool; unhinged : bool }.

(** [main] after the configuration is loaded and the cutoff date is
    computed from it; the parameters are those of [Main.main].  The
    result is the report and the mailbox afterwards. *)
Definition main (a : args) (credentials : bool) (c : DeleteEngine.config)
    (cutoff_date : datetime) (confirmed : bool) (fuel : nat)
    (first : session_env) (envs : list session_env) (final : session_env)
    (mb : mailbox) : option (Main.report * mailbox) :=
  if negb credentials then Some (Main.NoCredentials, mb)
  else
    let args_execute := unhinged a || execute a in
    if negb (connect_ok first) then Some (Main.Exception, mb)
    else if negb (stat_ok first) then Some (Main.Exception, mb)
    else
      let num_messages := stat mb in
      if num_messages =? 0 then
        Some (if quit_ok first then Main.NoMessages else Main.Exception, mb)
      else
        match binary_search_cutoff fuel (session_of first mb) num_messages
                cutoff_date with
        | None => None
        | Some cutoff_msg =>
            let messages_to_delete := cutoff_msg - 1 in
            if negb (quit_ok first) then Some (Main.Exception, mb)
            else if messages_to_delete =? 0 then
              Some (Main.NothingToDelete, mb)
            else if negb args_execute then
              Some (Main.DryRun messages_to_delete, mb)
            else if negb (unhinged a) && negb confirmed then
              Some (Main.Cancelled, mb)
            else
              match CleanupFast.run c messages_to_delete envs
                      (DeleteEngine.initial mb) with
              | None => None
              | Some (None, s) =>
                  Some (Main.Exception, DeleteEngine.server s)
              | Some (Some _, s) =>
                  Some (Main.DeleteComplete
                          (DeleteEngine.final_count final s),
                        DeleteEngine.server s)
              end
        end.

End CleanupFastMain.

(* ================================================================== *)
(** ** The passes of the boundary search *)

Module SearchPasses.
Import Datetime BoundaryResolver.

(** [after_passes pop N T gte n s]: the loop of [binary_search_date] goes
    through its body at least [n] times, and [s] holds its variables after
    the [n]-th pass. *)
Inductive after_passes (pop : session) (N : Z) (T : datetime) (gte : bool)
    : nat -> search_state -> Prop :=
| no_pass : after_passes pop N T gte 0 (initial N gte)
| one_more_pass (n : nat) (s : search_state) :
    after_passes pop N T gte n s ->
    left s <= right s ->
    after_passes pop N T gte (S n) (step pop N T gte s).

(** Every midpoint the loop comes to has a parseable date.  The midpoint
    is the first position a pass asks for, and the neighbours are asked
    for only when it has none: so this says that every date the search
    asks for is parseable. *)
Definition probed_dates_parse (pop : session) (N : Z) (T : datetime)
    (gte : bool) : Prop :=
  forall n s,
    after_passes pop N T gte n s -> left s <= right s ->
    exists d, pop ((left s + right s) / 2) = Some d.

End SearchPasses.

(* ================================================================== *)
(** ** Concrete mailboxes and transports used in the examples *)

Module Scenarios.
Import Datetime Pop3.

(** Ten messages dated 2020-01-01 to 2020-01-10, one per position. *)
Definition ten_days : BoundaryResolver.session :=
  fun i => if (1 <=? i) && (i <=? 10)
           then Some (mk_datetime 2020 1 i 0) else None.

(** The same with positions 5 and 6 undated. *)
Definition two_undated : BoundaryResolver.session :=
  fun i => if (i =? 5) || (i =? 6) then None else ten_days i.

(** Seven messages dated 2020-01-01 to 2020-01-07, the third one
    undated. *)
Definition third_of_seven_undated : BoundaryResolver.session :=
  fun i => if i =? 3 then None
           else if (1 <=? i) && (i <=? 7)
                then Some (mk_datetime 2020 1 i 0) else None.

(** No position has a date. *)
Definition none_dated : BoundaryResolver.session := fun _ => None.

(** Two messages, the second one undated. *)
Definition last_undated : BoundaryResolver.session :=
  fun i => if i =? 1 then Some (mk_datetime 2020 1 1 0) else None.

(** Six messages, one per year from 2011 to 2016, each dated 15 June. *)
Definition six_years : BoundaryResolver.session :=
  fun i => if (1 <=? i) && (i <=? 6)
           then Some (mk_datetime (i + 2010) 6 15 0) else None.

(** Transports: one that never fails, one that cannot connect, one whose
    commit is rejected, one whose STAT fails. *)
Definition all_ok : session_env :=
  mk_env true true (fun _ => true) (fun _ => true) (fun _ => true) true.

Definition no_connection : session_env :=
  mk_env false true (fun _ => true) (fun _ => true) (fun _ => true) true.

Definition commit_rejected : session_env :=
  mk_env true true (fun _ => true) (fun _ => true) (fun _ => true) false.

Definition no_stat : session_env :=
  mk_env true false (fun _ => true) (fun _ => true) (fun _ => true) true.

(** A server that rejects every DELE, and one that rejects every RETR. *)
Definition dele_rejected : session_env :=
  mk_env true true (fun _ => true) (fun _ => true) (fun _ => false) true.

Definition retr_rejected : session_env :=
  mk_env true true (fun _ => false) (fun _ => true) (fun _ => true) true.

(** A server on which the RETR of position 2 fails. *)
Definition second_unretrievable : session_env :=
  mk_env true true (fun p => negb (p =? 2)) (fun _ => true) (fun _ => true)
    true.

Definition msg (i : nat) : message :=
  mk_message i (Some (mk_datetime 2020 1 (Z.of_nat i) 0)).

Definition three_messages : mailbox := [msg 1; msg 2; msg 3].

End Scenarios.

(* ================================================================== *)
(** * Properties *)

(** ** Datetime order *)

Section DatetimeOrder.
Import Datetime.

Lemma ltb_lt (a b : datetime) : ltb a b = true <-> lt a b.
Proof.
  unfold ltb, lt.
  rewrite !orb_true_iff, !andb_true_iff, !orb_true_iff, !andb_true_iff,
    !orb_true_iff, !andb_true_iff, !Z.ltb_lt, !Z.eqb_eq.
  tauto.
Qed.

Lemma ltb_nlt (a b : datetime) : ltb a b = false <-> le b a.
Proof.
  unfold le. rewrite <- ltb_lt. destruct (ltb a b); split; congruence.
Qed.

Lemma geb_le (a b : datetime) : geb a b = true <-> le b a.
Proof. unfold geb. rewrite negb_true_iff. apply ltb_nlt. Qed.

Lemma geb_lt (a b : datetime) : geb a b = false <-> lt a b.
Proof. unfold geb. rewrite negb_false_iff. apply ltb_lt. Qed.

Lemma le_lt_trans (a b c : datetime) : le a b -> lt b c -> lt a c.
Proof. unfold le, lt. lia. Qed.

Lemma le_trans (a b c : datetime) : le a b -> le b c -> le a c.
Proof. unfold le, lt. lia. Qed.

Lemma le_refl (a : datetime) : le a a.
Proof. unfold le, lt. lia. Qed.

Lemma lt_irrefl (a : datetime) : ~ lt a a.
Proof. unfold lt. lia. Qed.

End DatetimeOrder.

(** ** The boundary search *)

Section Search.
Import Datetime BoundaryResolver.

Variable pop : session.
Variable N : Z.
Variable T : datetime.

Lemma midpoint_between (l r : Z) : l <= r -> l <= (l + r) / 2 <= r.
Proof.
  intros H. split.
  - apply Z.div_le_lower_bound; lia.
  - apply Z.div_le_upper_bound; lia.
Qed.

(** [binary_search_cutoff] is [binary_search_date] in its default mode. *)
Lemma cutoff_step_eq (s : search_state) :
  cutoff_step pop N T s = step pop N T true s.
Proof. reflexivity. Qed.

Lemma cutoff_loop_eq (fuel : nat) (s : search_state) :
  cutoff_loop fuel pop N T s = loop fuel pop N T true s.
Proof.
  revert s. induction fuel as [|fuel IH]; intros s; simpl.
  - reflexivity.
  - destruct (left s <=? right s); [apply IH | reflexivity].
Qed.

Lemma binary_search_cutoff_eq (fuel : nat) :
  binary_search_cutoff fuel pop N T = binary_search_date fuel pop N T true.
Proof.
  unfold binary_search_cutoff, binary_search_date, initial.
  now rewrite cutoff_loop_eq.
Qed.

(** On a window of dated positions the body compares at the midpoint. *)
Lemma step_dated (gte : bool) (s : search_state) (d : datetime) :
  pop ((left s + right s) / 2) = Some d ->
  step pop N T gte s =
    let mid := (left s + right s) / 2 in
    let log := probed s ++ [mid] in
    if gte then
      if geb d T then mk_search (left s) (mid - 1) mid log
      else mk_search (mid + 1) (right s) (result s) log
    else
      if ltb d T then mk_search (mid + 1) (right s) mid log
      else mk_search (left s) (mid - 1) (result s) log.
Proof. intros H. unfold step. rewrite H. reflexivity. Qed.

Hypothesis dated : all_dated pop N.

Lemma step_window (gte : bool) (s : search_state) :
  window N s -> left s <= right s ->
  window N (step pop N T gte s) /\
  right (step pop N T gte s) - left (step pop N T gte s)
    < right s - left s.
Proof.
  intros (Hl & Hr & _) Hle.
  pose proof (midpoint_between _ _ Hle) as Hm.
  destruct (dated ((left s + right s) / 2)) as [d Hd]; [lia|].
  rewrite (step_dated gte s d Hd). unfold window. cbv zeta.
  destruct gte; [destruct (geb d T) | destruct (ltb d T)]; simpl; lia.
Qed.

(** Any property the body keeps on a window holds when the loop leaves,
    and the loop does leave. *)
Lemma loop_leaves (gte : bool) (P : search_state -> Prop) :
  (forall s, window N s -> left s <= right s -> P s ->
             P (step pop N T gte s)) ->
  forall fuel s,
    window N s -> P s ->
    (Z.to_nat (right s - left s + 1) <= fuel)%nat ->
    exists s', loop fuel pop N T gte s = Some s' /\
               window N s' /\ P s' /\ right s' < left s'.
Proof.
  intros Hstep. induction fuel as [|fuel IH]; intros s Hw HP Hfuel.
  - exists s. simpl. destruct (Z.leb_spec (left s) (right s)); [lia|].
    repeat split; try assumption; try apply Hw; lia.
  - simpl. destruct (Z.leb_spec (left s) (right s)) as [Hle|Hgt].
    + destruct (step_window gte s Hw Hle) as [Hw' Hdec].
      apply IH; [assumption | now apply Hstep | lia].
    + exists s. repeat split; try assumption; try apply Hw; lia.
Qed.

Lemma gte_invariant_step (s : search_state) :
  non_decreasing pop N ->
  window N s -> left s <= right s -> gte_invariant pop N T s ->
  gte_invariant pop N T (step pop N T true s).
Proof.
  intros Hmono (Hl & Hr & _) Hle (Hres & Hbefore & Hfrom).
  pose proof (midpoint_between _ _ Hle) as Hm.
  destruct (dated ((left s + right s) / 2)) as [d Hd]; [lia|].
  rewrite (step_dated true s d Hd). cbv zeta.
  destruct (geb d T) eqn:Hcmp; unfold gte_invariant; simpl.
  - apply geb_le in Hcmp. repeat split; [lia | assumption |].
    intros i Hi. destruct (dated i) as [di Hdi]; [lia|].
    exists di. split; [assumption|].
    apply le_trans with d; [assumption|].
    apply (Hmono ((left s + right s) / 2) i); auto; lia.
  - apply geb_lt in Hcmp. repeat split; [assumption | | assumption].
    intros i Hi. destruct (dated i) as [di Hdi]; [lia|].
    exists di. split; [assumption|].
    apply le_lt_trans with d; [|assumption].
    apply (Hmono i ((left s + right s) / 2)); auto; lia.
Qed.

(** The sentinel survives as long as no probed date compares the way the
    mode looks for. *)
Lemma sentinel_step (gte : bool) (v : Z) (s : search_state) :
  (forall i d, 1 <= i <= N -> pop i = Some d ->
               (if gte then geb d T else ltb d T) = false) ->
  window N s -> left s <= right s -> result s = v ->
  result (step pop N T gte s) = v.
Proof.
  intros Hnone (Hl & Hr & _) Hle Hres.
  pose proof (midpoint_between _ _ Hle) as Hm.
  destruct (dated ((left s + right s) / 2)) as [d Hd]; [lia|].
  rewrite (step_dated gte s d Hd). cbv zeta.
  specialize (Hnone _ d (conj (Z.le_trans _ _ _ Hl (proj1 Hm))
                              (Z.le_trans _ _ _ (proj2 Hm) Hr)) Hd).
  destruct gte; rewrite Hnone; assumption.
Qed.

End Search.

Section SearchResults.
Import Datetime BoundaryResolver Scenarios.

(** C1. On a mailbox of N >= 1 messages, all dated and with dates
    non-decreasing in position, the first-at-or-after search returns a
    position R of 1..N+1 such that position R-1, when it is at least 1,
    is dated before the target and position R, when it is at most N, is
    dated at or after it.  N passes of the loop are enough, and
    [binary_search_cutoff] returns the same R. *)
Theorem binary_search_first_gte_boundary
    (pop : session) (N : Z) (T : datetime) (fuel : nat) :
  1 <= N ->
  all_dated pop N ->
  non_decreasing pop N ->
  (Z.to_nat N <= fuel)%nat ->
  exists R,
    binary_search_date fuel pop N T true = Some R /\
    binary_search_cutoff fuel pop N T = Some R /\
    1 <= R <= N + 1 /\
    (1 <= R - 1 -> dated_before pop T (R - 1)) /\
    (R <= N -> dated_from pop T R).
Proof.
  intros HN Hdated Hmono Hfuel.
  destruct (loop_leaves pop N T Hdated true (gte_invariant pop N T)
              (fun s Hw Hle => gte_invariant_step pop N T Hdated s Hmono Hw Hle)
              fuel (initial N true))
    as (s' & Hloop & (Hl & Hr & Hclosed) & (Hres & Hbefore & Hfrom) & Hout).
  - unfold window, initial; simpl; lia.
  - unfold gte_invariant, initial; simpl.
    repeat split; intros; lia.
  - unfold initial; simpl. lia.
  - exists (result s').
    rewrite binary_search_cutoff_eq. unfold binary_search_date.
    rewrite Hloop. simpl.
    repeat split; try lia.
    + intros H. apply Hbefore. lia.
    + intros H. apply Hfrom. lia.
Qed.

Lemma binary_search_first_gte_boundary_witness :
  exists R,
    binary_search_date 10 ten_days 10 (mk_datetime 2020 1 5 0) true = Some R /\
    binary_search_cutoff 10 ten_days 10 (mk_datetime 2020 1 5 0) = Some R /\
    1 <= R <= 10 + 1 /\
    (1 <= R - 1 -> dated_before ten_days (mk_datetime 2020 1 5 0) (R - 1)) /\
    (R <= 10 -> dated_from ten_days (mk_datetime 2020 1 5 0) R).
Proof.
  apply (binary_search_first_gte_boundary ten_days 10
           (mk_datetime 2020 1 5 0) 10).
  - lia.
  - intros i Hi. unfold ten_days.
    destruct (Z.leb_spec 1 i); [|lia].
    destruct (Z.leb_spec i 10); [|lia].
    simpl. eauto.
  - intros i j di dj Hi Hij Hj. unfold ten_days.
    destruct (Z.leb_spec 1 i); [|lia].
    destruct (Z.leb_spec i 10); [|lia].
    destruct (Z.leb_spec 1 j); [|lia].
    destruct (Z.leb_spec j 10); [|lia].
    simpl. intros [= <-] [= <-]. unfold le, lt. simpl. lia.
  - simpl. lia.
Defined.

(** The scenario of the specification: ten messages dated 2020-01-01 to
    2020-01-10, cutoff 2020-01-05; the boundary is position 5. *)
Example binary_search_ten_days :
  binary_search_date 10 ten_days 10 (mk_datetime 2020 1 5 0) true = Some 5.
Proof. reflexivity. Qed.

End SearchResults.

Section NeighbourProbing.
Import Datetime BoundaryResolver.

Lemma probe_neighbors_spec (pop : session) (N mid : Z) (offs : list Z) :
  let cands := filter (in_mailbox N) (map (fun offset => mid + offset) offs) in
  match probe_neighbors pop N mid offs with
  | (calls, Some (p, d)) =>
      exists before after,
        cands = before ++ p :: after /\
        Forall (fun q => pop q = None) before /\
        calls = before ++ [p] /\ pop p = Some d
  | (calls, None) => calls = cands /\ Forall (fun q => pop q = None) cands
  end.
Proof.
  induction offs as [|offset rest IH]; simpl.
  - split; [reflexivity | constructor].
  - destruct (in_mailbox N (mid + offset)) eqn:Hin; [|exact IH].
    destruct (pop (mid + offset)) as [d|] eqn:Hpop.
    + exists [], (filter (in_mailbox N) (map (fun o => mid + o) rest)).
      repeat split; [constructor | assumption].
    + simpl in IH.
      destruct (probe_neighbors pop N mid rest) as [calls [[p d]|]].
      * destruct IH as (before & after & Hc & Hnone & Hcalls & Hp).
        exists ((mid + offset) :: before), after.
        rewrite Hc, Hcalls. repeat split; [|assumption].
        constructor; assumption.
      * destruct IH as [Hcalls Hnone]. rewrite Hcalls.
        split; [reflexivity | constructor; assumption].
Qed.

(** C9. When the midpoint has no parseable date, the search asks for the
    dates of mid+1, mid-1, mid+2, mid-2, mid+5, mid-5, in that order and
    only those within 1..N, stopping at the first that has a date; that
    position becomes the candidate the comparison is made at.  When none
    has a date, the left bound becomes mid+10, right and result are kept,
    and the loop goes on with a left bound that has grown. *)
Theorem undated_midpoint_probes_neighbours
    (pop : session) (N : Z) (T : datetime) (gte : bool) (s : search_state) :
  let mid := (left s + right s) / 2 in
  let cands := filter (in_mailbox N)
                 [mid + 1; mid - 1; mid + 2; mid - 2; mid + 5; mid - 5] in
  pop mid = None ->
  match probe_neighbors pop N mid offsets with
  | (calls, Some (p, d)) =>
      (exists before after,
         cands = before ++ p :: after /\
         Forall (fun q => pop q = None) before /\
         calls = before ++ [p]) /\
      pop p = Some d /\
      step pop N T gte s =
        (let log := probed s ++ mid :: calls in
         if gte then
           if geb d T then mk_search (left s) (p - 1) p log
           else mk_search (p + 1) (right s) (result s) log
         else
           if ltb d T then mk_search (p + 1) (right s) p log
           else mk_search (left s) (p - 1) (result s) log)
  | (calls, None) =>
      calls = cands /\
      Forall (fun q => pop q = None) cands /\
      step pop N T gte s =
        mk_search (mid + 10) (right s) (result s) (probed s ++ mid :: calls) /\
      (left s <= right s ->
       left s < left (step pop N T gte s) /\
       forall fuel,
         loop (S fuel) pop N T gte s
           = loop fuel pop N T gte (step pop N T gte s))
  end.
Proof.
  intros mid cands Hmid.
  pose proof (probe_neighbors_spec pop N mid offsets) as Hspec.
  change (filter (in_mailbox N) (map (fun offset => mid + offset) offsets))
    with cands in Hspec.
  cbv zeta in Hspec.
  assert (Hstep : step pop N T gte s =
    let (calls, candidate) := probe_neighbors pop N mid offsets in
    let log := probed s ++ mid :: calls in
    match candidate with
    | None => mk_search (mid + 10) (right s) (result s) log
    | Some (p, d) =>
        if gte then
          if geb d T then mk_search (left s) (p - 1) p log
          else mk_search (p + 1) (right s) (result s) log
        else
          if ltb d T then mk_search (p + 1) (right s) p log
          else mk_search (left s) (p - 1) (result s) log
    end).
  { unfold step. fold mid. rewrite Hmid.
    destruct (probe_neighbors pop N mid offsets) as [calls r]; reflexivity. }
  destruct (probe_neighbors pop N mid offsets) as [calls [[p d]|]].
  - destruct Hspec as (before & after & Hc & Hnone & Hcalls & Hp).
    split; [exists before, after; auto|]. split; [assumption|].
    exact Hstep.
  - destruct Hspec as [Hcalls Hnone].
    repeat split; try assumption.
    + rewrite Hstep. simpl.
      pose proof (midpoint_between _ _ H). fold mid in H0. lia.
    + intros fuel. simpl. destruct (Z.leb_spec (left s) (right s)); [|lia].
      reflexivity.
Qed.

End NeighbourProbing.

Section NeighbourProbingExamples.
Import Datetime BoundaryResolver Scenarios.

(** Midpoint 5 undated: 6 is asked first and has no date, 4 has one and
    is adopted; with nothing dated around, the left bound jumps to 15. *)
Lemma undated_midpoint_probes_neighbours_witness :
  two_undated ((1 + 10) / 2) = None /\
  step two_undated 10 (mk_datetime 2020 1 5 0) true (initial 10 true)
    = mk_search 5 10 11 [5; 6; 4] /\
  step none_dated 10 (mk_datetime 2020 1 5 0) true (initial 10 true)
    = mk_search 15 10 11 [5; 6; 4; 7; 3; 10].
Proof.
  split; [reflexivity|]. split.
  - pose proof (undated_midpoint_probes_neighbours two_undated 10
                  (mk_datetime 2020 1 5 0) true (initial 10 true) eq_refl)
      as H.
    cbv zeta in H.
    change (probe_neighbors two_undated 10
              ((left (initial 10 true) + right (initial 10 true)) / 2)
              offsets)
      with ([6; 4], Some (4, mk_datetime 2020 1 4 0)) in H.
    cbv beta iota in H. destruct H as (_ & _ & H). exact H.
  - pose proof (undated_midpoint_probes_neighbours none_dated 10
                  (mk_datetime 2020 1 5 0) true (initial 10 true) eq_refl)
      as H.
    cbv zeta in H.
    change (probe_neighbors none_dated 10
              ((left (initial 10 true) + right (initial 10 true)) / 2)
              offsets)
      with ([6; 4; 7; 3; 10], @None (Z * datetime)) in H.
    cbv beta iota in H. destruct H as (_ & _ & H & _). exact H.
Defined.

(** Why the search carries a fuel: adopting a neighbour below the
    midpoint can hand back the window the pass started from.  Here
    position 2 is undated, position 1 is adopted and sets left to 2 again;
    no number of passes ends the loop. *)
Remark adopted_neighbour_can_repeat_window (fuel : nat) :
  binary_search_date fuel last_undated 2 (mk_datetime 2020 1 5 0) true = None.
Proof.
  unfold binary_search_date.
  assert (H : forall n log,
    loop n last_undated 2 (mk_datetime 2020 1 5 0) true
      (mk_search 2 2 3 log) = None).
  { induction n as [|n IH]; intros log; [reflexivity|].
    simpl loop. unfold step. simpl. apply IH. }
  destruct fuel as [|fuel]; [reflexivity|].
  simpl loop. unfold step. simpl. rewrite H. reflexivity.
Qed.

End NeighbourProbingExamples.

(** ** The batch delete engine *)

Section DeleteEngineFacts.
Import Pop3 DeleteEngine.

Lemma range_length (lo hi : Z) : length (range lo hi) = Z.to_nat (hi - lo).
Proof. unfold range. now rewrite length_map, length_seq. Qed.

Lemma dele_positions_app (t u : list event) :
  dele_positions (t ++ u) = dele_positions t ++ dele_positions u.
Proof. apply flat_map_app. Qed.

Lemma observations_app (t u : list event) :
  observations (t ++ u) = observations t ++ observations u.
Proof. apply flat_map_app. Qed.

Lemma sleeps_app (t u : list event) :
  sleeps (t ++ u) = sleeps t ++ sleeps u.
Proof. apply flat_map_app. Qed.

(** The marking loop issues at most one DELE per position of the batch and
    nothing else. *)
Lemma mark_batch_events (env : session_env) (mb : mailbox)
    (msg_nums : list Z) (mc errs : Z) :
  (length (dele_positions (snd (mark_batch env mb msg_nums mc errs)))
     <= length msg_nums)%nat /\
  observations (snd (mark_batch env mb msg_nums mc errs)) = [] /\
  sleeps (snd (mark_batch env mb msg_nums mc errs)) = [].
Proof.
  revert mc errs. induction msg_nums as [|i rest IH]; intros mc errs; simpl.
  - auto.
  - destruct (dele env mb i).
    + specialize (IH (mc + 1) errs).
      destruct (mark_batch env mb rest (mc + 1) errs) as [[marks mc'] evs].
      simpl in *. destruct IH as (H1 & H2 & H3). repeat split; auto; lia.
    + destruct (errs + 1 >? 10).
      * simpl. repeat split; auto; lia.
      * specialize (IH mc (errs + 1)).
        destruct (mark_batch env mb rest mc (errs + 1)) as [[marks mc'] evs].
        simpl in *. destruct IH as (H1 & H2 & H3). repeat split; auto; lia.
Qed.

(** What one pass adds to the log of sleeps: the backoff of the failure
    it met, or the three seconds after a commit. *)
Lemma iteration_sleeps (c : config) (target start : Z)
    (env : session_env) (s s' : state) :
  iteration c target start env s = (Continue, s') ->
  sleeps (trace s') = sleeps (trace s) ++
    [if negb (connect_ok env) || negb (stat_ok env)
     then connect_wait_time (consecutive_failures s + 1)
     else if quit_ok env then 3
     else commit_wait_time (consecutive_failures s + 1)] /\
  consecutive_failures s' =
    (if connect_ok env && stat_ok env && quit_ok env then 0
     else consecutive_failures s + 1) /\
  consecutive_failures s' < max_failures.
Proof.
  unfold iteration, connection_failure, quit_and_break.
  destruct (connect_ok env); simpl.
  2:{ destruct (consecutive_failures s + 1 >=? max_failures) eqn:E;
        [discriminate|].
      intros [= <-]. simpl. rewrite sleeps_app.
      repeat split; try reflexivity. lia. }
  destruct (stat_ok env); simpl.
  2:{ destruct (consecutive_failures s + 1 >=? max_failures) eqn:E;
        [discriminate|].
      intros [= <-]. simpl. rewrite sleeps_app.
      repeat split; try reflexivity. lia. }
  destruct (stat (server s) =? 0);
    [destruct (quit_ok env); discriminate|].
  destruct (_ >=? target);
    [destruct (quit_ok env); discriminate|].
  destruct (start >? stat (server s));
    [destruct (quit_ok env); discriminate|].
  destruct (_ <=? 0);
    [destruct (quit_ok env); discriminate|].
  match goal with
  | |- context [mark_batch ?e ?m ?l ?a ?b] =>
      pose proof (mark_batch_events e m l a b) as (_ & Hobs & Hsl);
      destruct (mark_batch e m l a b) as [[marks mc] deles]
  end.
  simpl in Hsl.
  destruct (quit_ok env).
  - intros [= <-]. simpl.
    rewrite !sleeps_app, Hsl. simpl. rewrite ?app_nil_r.
    repeat split; reflexivity.
  - destruct (consecutive_failures s + 1 >=? max_failures) eqn:E;
      [discriminate|].
    intros [= <-]. simpl.
    rewrite !sleeps_app, Hsl. simpl. rewrite ?app_nil_r.
    repeat split; try reflexivity. lia.
Qed.

End DeleteEngineFacts.

Section DeleteEngineRuns.
Import Pop3 DeleteEngine.

Ltac iteration_cases env s target start :=
  unfold iteration, connection_failure, quit_and_break;
  destruct (connect_ok env) eqn:Hconn; cbn [negb];
  [ destruct (stat_ok env) eqn:Hstat; cbn [negb];
    [ cbv zeta;
      destruct (stat (server s) =? 0) eqn:Hempty;
      [ destruct (quit_ok env) eqn:Hquit
      | destruct (_ >=? target) eqn:Hreached;
        [ destruct (quit_ok env) eqn:Hquit
        | destruct (start >? stat (server s)) eqn:Hbeyond;
          [ destruct (quit_ok env) eqn:Hquit
          | destruct (_ <=? 0) eqn:Hbatch;
            [ destruct (quit_ok env) eqn:Hquit
            | match goal with
              | |- context [mark_batch ?e ?m ?l ?a ?b] =>
                  let Hmb := fresh "Hmb" in
                  pose proof (mark_batch_events e m l a b) as Hmb;
                  destruct (mark_batch e m l a b) as [[marks mc] deles];
                  unfold snd in Hmb;
                  destruct Hmb as (Hdel & Hobs & Hsl)
              end;
              destruct (quit_ok env) eqn:Hquit;
              [ | destruct (consecutive_failures s + 1 >=? max_failures)
                    eqn:Hmax ] ] ] ] ]
    | destruct (consecutive_failures s + 1 >=? max_failures) eqn:Hmax ]
  | destruct (consecutive_failures s + 1 >=? max_failures) eqn:Hmax ].

(** A pass that reaches STAT records the count it observes; the first one
    becomes [initial_count]. *)
Lemma iteration_observes (c : config) (target start : Z)
    (env : session_env) (s : state) :
  let s' := snd (iteration c target start env s) in
  if connect_ok env && stat_ok env then
    observations (trace s') = observations (trace s) ++ [stat (server s)] /\
    num_messages s' = Some (stat (server s)) /\
    initial_count s' = Some (match initial_count s with
                             | Some i => i
                             | None => stat (server s)
                             end)
  else
    observations (trace s') = observations (trace s) /\
    num_messages s' = num_messages s /\
    initial_count s' = initial_count s.
Proof.
  iteration_cases env s target start; cbn [snd trace num_messages initial_count andb];
    rewrite ?observations_app, ?Hobs; cbn [observations flat_map app];
    rewrite ?app_nil_r; repeat split; reflexivity.
Qed.

(** A pass issues at most fifty DELE commands. *)
Lemma iteration_deles (c : config) (target start : Z)
    (env : session_env) (s : state) :
  exists evs,
    trace (snd (iteration c target start env s)) = trace s ++ evs /\
    (length (dele_positions evs) <= 50)%nat.
Proof.
  iteration_cases env s target start; cbn [snd trace];
    try (eexists; split; [rewrite <- ?app_assoc; reflexivity |
                          cbn; lia]);
    try (exists []; split; [now rewrite app_nil_r | cbn; lia]).
  all: rewrite range_length in Hdel.
  all: apply Z.leb_gt in Hbatch.
  all: assert (Hb : batch_size c <= 50) by (unfold batch_size; lia).
  all: eexists; (split; [rewrite <- ?app_assoc; reflexivity|]).
  all: rewrite ?dele_positions_app, ?length_app; cbn; lia.
Qed.

(** How a pass leaves the loop. *)
Lemma iteration_break (c : config) (target start : Z)
    (env : session_env) (s s' : state) (x : exit) :
  iteration c target start env s = (Break x, s') ->
  if failed x then
    consecutive_failures s' = consecutive_failures s + 1 /\
    max_failures <= consecutive_failures s' /\
    connect_ok env && stat_ok env && quit_ok env = false
  else
    consecutive_failures s' = consecutive_failures s /\
    connect_ok env = true /\ stat_ok env = true /\ quit_ok env = true.
Proof.
  iteration_cases env s target start; intros [= <- <-];
    cbn [failed consecutive_failures andb]; repeat split; try reflexivity; lia.
Qed.

(** The exits that are not failures are decided by the observed count. *)
Lemma iteration_done (c : config) (target start : Z)
    (env : session_env) (s : state) (x : exit) :
  let n := stat (server s) in
  let initial := match initial_count s with Some i => i | None => n end in
  let actual_deleted := initial - n in
  let batch_count :=
    Z.min (Z.min (batch_size c) (target - actual_deleted)) (n - start + 1) in
  (fst (iteration c target start env s) = Break x /\ failed x = false) <->
  (connect_ok env = true /\ stat_ok env = true /\ quit_ok env = true /\
   (n = 0 \/ actual_deleted >= target \/ start > n \/ batch_count <= 0) /\
   x = (if n =? 0 then MailboxEmpty
        else if actual_deleted >=? target then TargetReached
        else if start >? n then StartBeyondMailbox
        else EmptyBatch)).
Proof.
  cbv zeta.
  iteration_cases env s target start; cbn [fst];
    rewrite ?Hempty, ?Hreached, ?Hbeyond;
    (split;
     [ intros [[= <-] Hf]; try discriminate Hf;
       repeat split; try reflexivity; lia
     | intros (H1 & H2 & H3 & H4 & ->); try discriminate;
       try (split; reflexivity); exfalso; lia ]).
Qed.

Lemma last_map_some (l : list Z) (d : Z) :
  l <> [] -> last (map Some l) None = Some (last l d).
Proof.
  induction l as [|a [|b l] IH]; intros H; [congruence | reflexivity |].
  change (last (map Some (b :: l)) None = Some (last (b :: l) d)).
  apply IH. discriminate.
Qed.

Lemma iteration_tracks (c : config) (target start : Z)
    (env : session_env) (s : state) :
  tracks_observations s ->
  tracks_observations (snd (iteration c target start env s)).
Proof.
  unfold tracks_observations. intros [Hi Hn].
  pose proof (iteration_observes c target start env s) as H. cbv zeta in H.
  destruct (connect_ok env && stat_ok env).
  - destruct H as (Ho & Hn' & Hi'). rewrite Ho, Hn', Hi', Hi. split.
    + destruct (observations (trace s)); reflexivity.
    + rewrite map_app. simpl. now rewrite last_last.
  - destruct H as (Ho & Hn' & Hi'). now rewrite Ho, Hn', Hi'.
Qed.

(** The loop keeps the failure counter below the ceiling while it goes
    on, and leaves as a failure exactly when the counter gets there. *)
Lemma run_invariant (c : config) (target start : Z)
    (envs : list session_env) :
  forall s r s',
    run c target start envs s = Some (r, s') ->
    tracks_observations s ->
    0 <= consecutive_failures s < max_failures ->
    tracks_observations s' /\
    match r with
    | Some x =>
        0 <= consecutive_failures s' <= max_failures /\
        (failed x = true <-> consecutive_failures s' = max_failures)
    | None => True
    end.
Proof.
  induction envs as [|env envs IH]; intros s r s' Hrun Ht Hcf;
    [discriminate|].
  simpl in Hrun.
  pose proof (iteration_tracks c target start env s Ht) as Ht'.
  destruct (iteration c target start env s) as [[| x |] s1] eqn:Hit;
    simpl in Ht'.
  - destruct (iteration_sleeps c target start env s s1 Hit)
      as (_ & Hcf1 & Hlt).
    apply (IH s1 r s' Hrun Ht').
    destruct (connect_ok env && stat_ok env && quit_ok env); lia.
  - injection Hrun as <- <-. split; [assumption|].
    pose proof (iteration_break c target start env s s1 x Hit) as Hb.
    destruct (failed x).
    + destruct Hb as (H1 & H2 & _). split; [lia|]. split; [lia|reflexivity].
    + destruct Hb as (H1 & _). split; [lia|].
      split; [discriminate | lia].
  - injection Hrun as <- <-. split; [assumption | exact I].
Qed.

(** What the "Final count" block returns, in terms of the counts
    observed. *)
Lemma final_count_observed (final : session_env) (s : state) :
  tracks_observations s ->
  final_count final s =
    observed_shrinkage (observations (trace s))
      (if connect_ok final && stat_ok final && quit_ok final
       then stat (server s)
       else last (observations (trace s)) 0).
Proof.
  intros [Hi Hn]. unfold final_count, shrinkage, observed_shrinkage.
  rewrite Hi, Hn.
  destruct (connect_ok final && stat_ok final && quit_ok final).
  - destruct (observations (trace s)); reflexivity.
  - destruct (observations (trace s)) as [|i rest] eqn:Ho; [reflexivity|].
    rewrite (last_map_some (i :: rest) 0) by discriminate. reflexivity.
Qed.

Lemma initial_tracks (mb : mailbox) : tracks_observations (initial mb).
Proof. split; reflexivity. Qed.

Lemma delete_messages_robust_returns (c : config) (target start : Z)
    (envs : list session_env) (final : session_env) (mb : mailbox)
    (x : exit) (s : state) :
  delete_run c target start envs mb = Some (Some x, s) ->
  delete_messages_robust c target start envs final mb =
    Some (Some (observed_shrinkage (observations (trace s))
                  (if connect_ok final && stat_ok final && quit_ok final
                   then stat (server s)
                   else last (observations (trace s)) 0))).
Proof.
  intros Hrun. unfold delete_messages_robust. rewrite Hrun.
  unfold delete_run in Hrun.
  destruct (run_invariant c target start envs _ _ _ Hrun (initial_tracks mb))
    as [Ht _]; [simpl; unfold max_failures; lia|].
  now rewrite (final_count_observed final s Ht).
Qed.

End DeleteEngineRuns.

Section DeleteEngineResults.
Import Pop3 DeleteEngine Scenarios.

(** C3, as the code has it.  A pass measures progress as the first
    observed count minus the count it has just observed.  It leaves the
    loop without failure exactly when its three session calls succeed and
    that difference has reached the target, or the count is 0, or the
    start position lies beyond the count, or the batch it computes is
    empty; the last two cannot happen when the range fits the first count
    and the batch size is positive.  The value returned is 0 when the first
    count is unset or 0, and otherwise the first count minus a later
    observed one: the count of the closing session, or the last count
    of the loop when that session fails. *)
Theorem done_is_decided_by_observed_counts
    (c : config) (target start : Z) :
  (forall env s x,
     let n := stat (server s) in
     let initial := match initial_count s with Some i => i | None => n end in
     let actual_deleted := initial - n in
     let batch_count :=
       Z.min (Z.min (batch_size c) (target - actual_deleted))
             (n - start + 1) in
     ((fst (iteration c target start env s) = Break x /\ failed x = false) <->
      (connect_ok env = true /\ stat_ok env = true /\ quit_ok env = true /\
       (n = 0 \/ actual_deleted >= target \/ start > n \/ batch_count <= 0) /\
       x = (if n =? 0 then MailboxEmpty
            else if actual_deleted >=? target then TargetReached
            else if start >? n then StartBeyondMailbox
            else EmptyBatch))) /\
     (fst (iteration c target start env s) = Break x -> failed x = false ->
      1 <= batch_size c -> start + target - 1 <= initial ->
      x = MailboxEmpty \/ x = TargetReached)) /\
  (forall envs final mb x s,
     delete_run c target start envs mb = Some (Some x, s) ->
     delete_messages_robust c target start envs final mb =
       Some (Some (observed_shrinkage (observations (trace s))
                     (if connect_ok final && stat_ok final && quit_ok final
                      then stat (server s)
                      else last (observations (trace s)) 0)))).
Proof.
  split.
  - intros env s x. cbv zeta. split.
    + apply (iteration_done c target start env s x).
    + intros Hbreak Hf Hbs Hfit.
      destruct (proj1 (iteration_done c target start env s x)
                  (conj Hbreak Hf)) as (_ & _ & _ & _ & ->).
      destruct (Z.eqb_spec (stat (server s)) 0); [now left|].
      destruct (Z.geb_spec
                  (match initial_count s with
                   | Some i => i
                   | None => stat (server s)
                   end - stat (server s)) target); [now right|].
      exfalso.
      pose proof (proj1 (iteration_done c target start env s _)
                    (conj Hbreak Hf)) as (_ & _ & _ & Hwhy & _).
      lia.
  - intros envs final mb x s. apply delete_messages_robust_returns.
Qed.

(** Two passes that end the loop without failure although fewer than
    [target] messages are gone and the mailbox is not empty: the start
    position lies beyond the mailbox, or BATCH_SIZE is 0. *)
Lemma done_without_target_or_empty_mailbox :
  (exists s,
     delete_run (mk_config None) 2 5 [all_ok] three_messages
       = Some (Some StartBeyondMailbox, s) /\
     failed StartBeyondMailbox = false /\
     observations (trace s) = [3] /\
     ~ (3 - 3 >= 2 \/ 3 = 0)) /\
  (exists s,
     delete_run (mk_config (Some 0)) 2 1 [all_ok] three_messages
       = Some (Some EmptyBatch, s) /\
     failed EmptyBatch = false /\
     observations (trace s) = [3] /\
     ~ (3 - 3 >= 2 \/ 3 = 0)).
Proof.
  split; eexists; (split; [reflexivity|]);
    (split; [reflexivity|]); (split; [reflexivity|]); lia.
Qed.

(** Two batches of a three-message mailbox, target 2, batch size 1: the
    third pass sees 3 - 1 = 2 and stops; the function returns 2. *)
Lemma done_is_decided_by_observed_counts_witness :
  delete_run (mk_config (Some 1)) 2 1 [all_ok; all_ok; all_ok] three_messages
    = Some (Some TargetReached,
            mk_state 0 (Some 3) (Some 1) [msg 3]
              [Observed 3; Dele 1 true; Committing 1; Quit true [msg 1];
               Sleep 3;
               Observed 2; Dele 1 true; Committing 1; Quit true [msg 2];
               Sleep 3;
               Observed 1; Quit true []]) /\
  delete_messages_robust (mk_config (Some 1)) 2 1 [all_ok; all_ok; all_ok]
    no_connection three_messages = Some (Some 2).
Proof.
  assert (Hrun :
    delete_run (mk_config (Some 1)) 2 1 [all_ok; all_ok; all_ok] three_messages
      = Some (Some TargetReached,
              mk_state 0 (Some 3) (Some 1) [msg 3]
                [Observed 3; Dele 1 true; Committing 1; Quit true [msg 1];
                 Sleep 3;
                 Observed 2; Dele 1 true; Committing 1; Quit true [msg 2];
                 Sleep 3;
                 Observed 1; Quit true []])) by reflexivity.
  split; [exact Hrun|].
  exact (proj2 (done_is_decided_by_observed_counts (mk_config (Some 1)) 2 1)
           _ no_connection _ _ _ Hrun).
Defined.

(** C4, as the code has it.  [max_failures] is 5.  A pass that goes on
    leaves the failure counter below it; the loop gives up in the pass in
    which the counter reaches it, so it leaves as a failure exactly when
    the counter equals [max_failures], and never with more.  The function
    then returns the shrinkage it has observed: the first count minus the
    count of the closing session or, failing that, the last count of the
    loop (0 when no count was ever taken). *)
Theorem failure_ceiling_is_reached_not_exceeded
    (c : config) (target start : Z) (envs : list session_env)
    (final : session_env) (mb : mailbox) (x : exit) (s : state) :
  delete_run c target start envs mb = Some (Some x, s) ->
  max_failures = 5 /\
  0 <= consecutive_failures s <= max_failures /\
  (failed x = true <-> consecutive_failures s = max_failures) /\
  (forall env s0 s1,
     iteration c target start env s0 = (Continue, s1) ->
     consecutive_failures s1 < max_failures) /\
  delete_messages_robust c target start envs final mb =
    Some (Some (observed_shrinkage (observations (trace s))
                  (if connect_ok final && stat_ok final && quit_ok final
                   then stat (server s)
                   else last (observations (trace s)) 0))).
Proof.
  intros Hrun. split; [reflexivity|].
  pose proof Hrun as Hrun'. unfold delete_run in Hrun'.
  destruct (run_invariant c target start envs _ _ _ Hrun' (initial_tracks mb))
    as (_ & Hcf & Hiff); [simpl; unfold max_failures; lia|].
  split; [exact Hcf|]. split; [exact Hiff|]. split.
  - intros env s0 s1 Hit.
    now destruct (iteration_sleeps c target start env s0 s1 Hit) as (_ & _ & H).
  - exact (delete_messages_robust_returns c target start envs final mb x s Hrun).
Qed.

(** Five connections refused in a row: the loop has given up with the
    counter at 5, which does not exceed [max_failures]. *)
Lemma gives_up_at_the_fifth_failure :
  exists s,
    delete_run (mk_config None) 2 1
      [no_connection; no_connection; no_connection; no_connection;
       no_connection] three_messages
      = Some (Some TooManyFailures, s) /\
    consecutive_failures s = 5 /\
    ~ (max_failures < consecutive_failures s).
Proof.
  eexists. split; [vm_compute; reflexivity|]. split; [reflexivity|].
  cbn [consecutive_failures]. unfold max_failures. lia.
Qed.

(** One batch committed, then the commit rejected five times: the loop
    gives up and the closing session counts what is left. *)
Lemma failure_ceiling_is_reached_not_exceeded_witness :
  exists s,
    delete_run (mk_config (Some 1)) 3 1
      [all_ok; commit_rejected; commit_rejected; commit_rejected;
       commit_rejected; commit_rejected] three_messages
      = Some (Some TooManyFailures, s) /\
    consecutive_failures s = max_failures /\
    delete_messages_robust (mk_config (Some 1)) 3 1
      [all_ok; commit_rejected; commit_rejected; commit_rejected;
       commit_rejected; commit_rejected] all_ok three_messages
      = Some (Some 1).
Proof.
  eexists. split; [vm_compute; reflexivity|].
  match goal with
  | |- consecutive_failures ?s = _ /\
       delete_messages_robust ?c ?t ?st ?envs ?f ?mb = _ =>
      assert (Hrun : delete_run c t st envs mb
                     = Some (Some TooManyFailures, s))
        by (vm_compute; reflexivity);
      destruct (failure_ceiling_is_reached_not_exceeded c t st envs f mb
                  TooManyFailures s Hrun)
        as (_ & _ & Hiff & _ & Hret)
  end.
  split; [apply Hiff; reflexivity | rewrite Hret; vm_compute; reflexivity].
Defined.

End DeleteEngineResults.

(** ** The backup pipeline *)

Section BackupFacts.
Import Pop3 BackupPipeline.

Lemma retr_positions_app (t u : list event) :
  retr_positions (t ++ u) = retr_positions t ++ retr_positions u.
Proof. apply flat_map_app. Qed.

Lemma bk_dele_positions_app (t u : list event) :
  BackupPipeline.dele_positions (t ++ u)
    = BackupPipeline.dele_positions t ++ BackupPipeline.dele_positions u.
Proof. apply flat_map_app. Qed.

Lemma written_app (t u : list event) :
  written (t ++ u) = written t ++ written u.
Proof. apply flat_map_app. Qed.

Lemma quiet_app (t u : list event) : quiet t -> quiet u -> quiet (t ++ u).
Proof. intros Ht Hu. apply Forall_app. now split. Qed.

Lemma quiet_written (t : list event) : quiet t -> written t = [].
Proof.
  induction 1 as [|ev t Hev _ IH]; [reflexivity|].
  destruct ev; simpl; try assumption; contradiction.
Qed.

Lemma written_writes (l : list archive_entry) :
  written (map ZipWrite l) = map content l.
Proof. induction l as [|e l IH]; simpl; [|rewrite IH]; reflexivity. Qed.

Lemma retr_positions_writes (l : list archive_entry) :
  retr_positions (map ZipWrite l) = [].
Proof. induction l as [|e l IH]; simpl; auto. Qed.

Lemma dele_positions_writes (l : list archive_entry) :
  BackupPipeline.dele_positions (map ZipWrite l) = [].
Proof. induction l as [|e l IH]; simpl; auto. Qed.

Lemma message_at_valid (mb : mailbox) (p : Z) (m : message) :
  message_at mb p = Some m ->
  1 <= p <= stat mb /\ nth_error mb (Z.to_nat (p - 1)) = Some m.
Proof.
  unfold message_at, stat. destruct (Z.leb_spec 1 p) as [Hp|Hp];
    [|discriminate].
  intros Hnth. split; [|assumption].
  assert (Hlt : (Z.to_nat (p - 1) < length mb)%nat)
    by (apply nth_error_Some; congruence).
  lia.
Qed.

(** The download loop asks for a prefix of the batch positions, one RETR
    each, and keeps the messages it received with their positions. *)
Lemma read_batch_spec (env : session_env) (mb : mailbox) (bu : Z)
    (msg_nums : list Z) :
  forall n cf batch cf' evs,
    read_batch env mb bu msg_nums n cf = (batch, cf', evs) ->
    (exists k, retr_positions evs = firstn k msg_nums) /\
    quiet evs /\
    BackupPipeline.dele_positions evs = [] /\
    (forall a b u, ~ In (Downloading a b u) evs) /\
    incl (map fst batch) msg_nums /\
    (NoDup msg_nums -> NoDup (map fst batch)) /\
    (length batch <= length msg_nums)%nat /\
    Forall (fun pe => message_at mb (fst pe) = Some (content (snd pe))) batch.
Proof.
  induction msg_nums as [|p rest IH]; intros n cf batch cf' evs; simpl.
  - intros [= <- <- <-]. split; [now exists 0%nat|].
    repeat split; simpl; auto; try constructor; try apply incl_nil_l.
  - assert (Hfail : forall cf0,
      (let cf1 := cf0 + 1 in
       if cf1 >=? BackupPipeline.max_failures
       then ([], cf1, [Retr p false])
       else let '(batch, cf, evs) := read_batch env mb bu rest n cf1 in
            (batch, cf, Retr p false :: evs)) = (batch, cf', evs) ->
      (exists k, retr_positions evs = firstn k (p :: rest)) /\
      quiet evs /\
      BackupPipeline.dele_positions evs = [] /\
      (forall a b u, ~ In (Downloading a b u) evs) /\
      incl (map fst batch) (p :: rest) /\
      (NoDup (p :: rest) -> NoDup (map fst batch)) /\
      (length batch <= length (p :: rest))%nat /\
      Forall (fun pe => message_at mb (fst pe) = Some (content (snd pe)))
        batch).
    { intros cf0. cbv zeta.
      destruct (cf0 + 1 >=? BackupPipeline.max_failures).
      - intros [= <- <- <-]. split; [now exists 1%nat|].
        split; [constructor; [exact I | constructor]|].
        split; [reflexivity|].
        split; [intros a b u [H|[]]; discriminate|].
        split; [apply incl_nil_l|].
        split; [constructor|].
        split; [simpl; lia | constructor].
      - destruct (read_batch env mb bu rest n (cf0 + 1))
          as [[batch0 cf1] evs0] eqn:Hrec.
        intros [= <- <- <-].
        destruct (IH _ _ _ _ _ Hrec)
          as ([k Hk] & Hq & Hd & Hdl & Hincl & Hnd & Hlen & Hall).
        split; [exists (S k); simpl; now rewrite Hk|].
        split; [constructor; [exact I | assumption]|].
        split; [assumption|].
        split; [intros a b u [H|H]; [discriminate | now apply (Hdl a b u)]|].
        split; [now apply incl_tl|].
        split; [intros Hnd'; inversion Hnd'; subst; now apply Hnd|].
        split; [simpl; lia | assumption]. }
    unfold retr.
    destruct (retr_ok env p) eqn:Hok;
      [destruct (message_at mb p) as [m|] eqn:Hm|];
      [ | apply Hfail | apply Hfail ].
    destruct (read_batch env mb bu rest (n + 1) cf)
      as [[batch0 cf0] evs0] eqn:Hrec.
    intros [= <- <- <-].
    destruct (IH _ _ _ _ _ Hrec)
      as ([k Hk] & Hq & Hd & Hdl & Hincl & Hnd & Hlen & Hall).
    split; [exists (S k); simpl; now rewrite Hk|].
    split; [constructor; [exact I | assumption]|].
    split; [assumption|].
    split; [intros a b u [H|H]; [discriminate | now apply (Hdl a b u)]|].
    split; [intros q [<-|Hq']; [now left | right; now apply Hincl]|].
    split.
    { intros Hnd'. inversion Hnd' as [|? ? Hnin Hnd'']; subst.
      simpl. constructor; [|now apply Hnd].
      intros Hin. apply Hnin. now apply Hincl. }
    split; [simpl; lia|].
    constructor; assumption.
Qed.

Lemma range_NoDup (lo hi : Z) : NoDup (range lo hi).
Proof.
  unfold range. apply Injective_map_NoDup; [|apply seq_NoDup].
  intros i j H. lia.
Qed.

(** Grouping the batch by ZIP file reorders it and nothing more. *)
Lemma add_to_zip_perm (e : archive_entry)
    (groups : list (zip_name * list archive_entry)) :
  Permutation (concat (map snd (add_to_zip e groups)))
              (concat (map snd groups) ++ [e]).
Proof.
  induction groups as [|[z es] groups IH]; simpl.
  - apply Permutation_refl.
  - destruct (zip_eqb (zip_filename e) z); simpl.
    + rewrite <- !app_assoc. apply Permutation_app_head.
      apply Permutation_app_comm.
    + rewrite <- app_assoc. now apply Permutation_app_head.
Qed.

Lemma zip_writes_perm (batch_emails : list archive_entry) :
  Permutation (zip_writes batch_emails) batch_emails.
Proof.
  unfold zip_writes, batch_by_zip.
  assert (H : forall l groups,
    Permutation
      (concat (map snd (fold_left (fun g e => add_to_zip e g) l groups)))
      (concat (map snd groups) ++ l)).
  { induction l as [|e l IH]; intros groups; simpl.
    - rewrite app_nil_r. apply Permutation_refl.
    - eapply Permutation_trans; [apply IH|].
      eapply Permutation_trans;
        [apply Permutation_app_tail, add_to_zip_perm|].
      rewrite <- app_assoc. apply Permutation_refl. }
  apply (H batch_emails []).
Qed.

Lemma quiet_shape (delete_after : bool) (start_pos : Z)
    (env : session_env) (s s' : state) (closing : list event) :
  trace s' = trace s ++ closing ->
  archive s' = archive s ->
  server s' = server s ->
  closes [] closing ->
  pass_shape delete_after start_pos env s s'.
Proof.
  intros Ht Ha Hs Hc. exists [], [], [], closing, []. simpl.
  rewrite app_nil_r.
  repeat split; auto; try (now constructor).
  - now exists 0%nat.
  - contradiction.
  - contradiction.
  - lia.
Qed.

Lemma closes_quit (b : bool) (tail : list event) :
  closes [] tail -> closes [] (Quit b [] :: tail).
Proof. intros H. constructor; [destruct b; reflexivity | assumption]. Qed.

Ltac shape_goals :=
  split; [ | split; [ | split; [ | split; [ | split; [ | split; [ | split;
  [ | split; [ | split; [ | split; [ | split ]]]]]]]]]];
  try assumption; try reflexivity.

Lemma iteration_shape (delete_after : bool) (start_pos : Z)
    (env : session_env) (s : state) :
  pass_shape delete_after start_pos env s
    (snd (iteration delete_after start_pos env s)).
Proof.
  unfold iteration.
  destruct (connect_ok env); cbn [negb].
  2:{ cbv zeta.
      destruct (consecutive_failures s + 1 >=? BackupPipeline.max_failures);
        cbn [snd].
      - apply quiet_shape with (closing := []); simpl;
          rewrite ?app_nil_r; auto. constructor.
      - apply quiet_shape
          with (closing := [Sleep (30 * (consecutive_failures s + 1))]);
          simpl; auto. constructor; [exact I | constructor]. }
  destruct (stat_ok env); cbn [negb].
  2:{ cbn [snd].
      apply quiet_shape with (closing := [Quit (quit_ok env) []]);
        simpl; auto. apply closes_quit. constructor. }
  cbv zeta.
  destruct (current_start_of delete_after start_pos s >? stat (server s))
    eqn:Hbeyond.
  { cbn [snd].
    apply quiet_shape with (closing := [Quit (quit_ok env) []]);
      simpl; auto. apply closes_quit. constructor. }
  replace (current_start_of delete_after start_pos s
           + batch_count_of delete_after start_pos s - 1 + 1)
    with (current_start_of delete_after start_pos s
          + batch_count_of delete_after start_pos s) by lia.
  destruct (read_batch env (server s) (backed_up s)
              (range (current_start_of delete_after start_pos s)
                 (current_start_of delete_after start_pos s
                  + batch_count_of delete_after start_pos s))
              0 (consecutive_failures s)) as [[batch cf] reads] eqn:Hread.
  destruct (read_batch_spec _ _ _ _ _ _ _ _ _ Hread)
    as (Hk & Hq & Hd & Hdl & _ & Hnd & Hlen & Hall).
  specialize (Hnd (range_NoDup _ _)).
  rewrite range_length in Hlen.
  assert (Hfifty : (length batch <= 50)%nat).
  { unfold batch_count_of, BackupPipeline.batch_size in Hlen. lia. }
  set (head := Downloading (current_start_of delete_after start_pos s)
                 (current_start_of delete_after start_pos s
                  + batch_count_of delete_after start_pos s - 1)
                 (backed_up s) :: reads).
  assert (Hqh : quiet head) by (constructor; [exact I | assumption]).
  assert (Hdh : BackupPipeline.dele_positions head = []) by assumption.
  assert (Hkh : exists k, retr_positions head
               = firstn k (range (current_start_of delete_after start_pos s)
                             (current_start_of delete_after start_pos s
                              + batch_count_of delete_after start_pos s)))
    by assumption.
  assert (Hdlh : forall a b u, In (Downloading a b u) head ->
       a = current_start_of delete_after start_pos s /\ u = backed_up s).
  { intros a b u [[= <- _ <-]|Hin]; [now split|].
    now destruct (Hdl a b u). }
  assert (Hpause : forall r : Z, closes [] (if r >? 0 then [Sleep 2] else [])).
  { intros r. destruct (r >? 0); repeat constructor. }
  destruct (cf >=? BackupPipeline.max_failures).
  { cbn [snd]. exists [], head, [], [Quit (quit_ok env) []], [].
    unfold log, with_failures. cbn [trace archive server map].
    change (zip_writes []) with (@nil archive_entry). cbn [map app].
    rewrite !app_nil_r. shape_goals.
    - constructor.
    - simpl. lia.
    - constructor.
    - now left.
    - apply closes_quit. constructor.
    - left. repeat split. now left. }
  destruct delete_after.
  - destruct batch as [|[p e] batch'].
    + cbn [snd map]. exists [], head, [],
        (Quit (quit_ok env) [] ::
           (if remaining s - Z.of_nat (length (@nil archive_entry)) >? 0
            then [Sleep 2] else [])), [].
      cbn [trace archive server map].
      change (zip_writes []) with (@nil archive_entry). cbn [map app].
      shape_goals.
      * now left.
      * apply closes_quit. apply Hpause.
      * left. repeat split. now left.
    + cbn [map]. unfold mark_batch.
      destruct (quit_ok env) eqn:Hquit; cbn [snd].
      * exists ((p, e) :: batch'), head,
          (map (fun msg_num => Dele msg_num (dele env (server s) msg_num))
             (map fst ((p, e) :: batch'))),
          (Quit true (removed (server s)
                        (filter (dele env (server s))
                           (map fst ((p, e) :: batch'))))
             :: (if remaining s
                    - Z.of_nat (length (map snd ((p, e) :: batch'))) >? 0
                 then [Sleep 2] else [])),
          (removed (server s)
             (filter (dele env (server s)) (map fst ((p, e) :: batch')))).
        cbn [trace archive server]. shape_goals.
        -- now right.
        -- constructor; [reflexivity|].
           destruct (_ >? 0); repeat constructor.
        -- right. split; reflexivity.
      * exists ((p, e) :: batch'), head,
          (map (fun msg_num => Dele msg_num (dele env (server s) msg_num))
             (map fst ((p, e) :: batch'))),
          [Quit false []; Sleep (30 * (cf + 1))], [].
        cbn [trace archive server]. shape_goals.
        -- now right.
        -- repeat constructor.
        -- left. repeat split. now right; right.
  - cbn [snd]. exists batch, head, [],
      (Quit (quit_ok env) [] ::
         (if remaining s - Z.of_nat (length (map snd batch)) >? 0
          then [Sleep 2] else [])), [].
    cbn [trace archive server app]. shape_goals.
    + now left.
    + apply closes_quit. apply Hpause.
    + left. repeat split. now right; left.
Qed.

End BackupFacts.

Section BackupPasses.
Import Pop3 BackupPipeline.

Lemma firstn_seq_min (k start len : nat) :
  firstn k (seq start len) = seq start (Nat.min k len).
Proof.
  revert start len. induction k as [|k IH]; intros start [|len]; simpl;
    try reflexivity.
  now rewrite IH.
Qed.

Lemma closes_no_reads (gone : list message) (t : list event) :
  closes gone t ->
  retr_positions t = [] /\ BackupPipeline.dele_positions t = [] /\
  written t = [] /\ forall a b u, ~ In (Downloading a b u) t.
Proof.
  induction 1 as [|ev t Hev _ (IH1 & IH2 & IH3 & IH4)]; simpl.
  - repeat split; auto.
  - destruct ev; try contradiction; simpl; repeat split; auto;
      intros a b u [H|H]; try discriminate; now apply (IH4 a b u).
Qed.

Lemma deles_no_reads (env : session_env) (mb : mailbox) (l : list Z) :
  let deles := map (fun p => Dele p (dele env mb p)) l in
  retr_positions deles = [] /\ BackupPipeline.dele_positions deles = l /\
  written deles = [] /\ forall a b u, ~ In (Downloading a b u) deles.
Proof.
  induction l as [|p l (IH1 & IH2 & IH3 & IH4)]; simpl.
  - repeat split; auto.
  - repeat split; auto.
    + now f_equal.
    + intros a b u [H|H]; [discriminate | now apply (IH4 a b u)].
Qed.

Lemma writes_no_downloading (l : list archive_entry) (a b u : Z) :
  ~ In (Downloading a b u) (map ZipWrite l).
Proof. rewrite in_map_iff. intros (e & H & _). discriminate. Qed.

(** One pass, seen from outside: its RETR commands are consecutive from
    the current start, and it issues at most fifty of them and at most
    fifty DELE commands. *)
Lemma iteration_reads (delete_after : bool) (start_pos : Z)
    (env : session_env) (s : state) :
  let cs := if delete_after then start_pos else start_pos + backed_up s in
  exists evs k,
    trace (snd (iteration delete_after start_pos env s)) = trace s ++ evs /\
    retr_positions evs = map (fun i => cs + Z.of_nat i) (seq 0 k) /\
    (forall a b u, In (Downloading a b u) evs -> a = cs /\ u = backed_up s) /\
    (length (retr_positions evs) <= 50)%nat /\
    (length (BackupPipeline.dele_positions evs) <= 50)%nat.
Proof.
  cbv zeta.
  destruct (iteration_shape delete_after start_pos env s)
    as (batch & head & deles & closing & gone & Ht & _ & _ & Hdh & [k Hk]
        & Hdl & _ & Hlen & _ & Hdeles & Hclose & _).
  destruct (closes_no_reads gone closing Hclose) as (Hc1 & Hc2 & _ & Hc4).
  pose proof (deles_no_reads env (server s) (map fst batch)) as Hd.
  cbv zeta in Hd. destruct Hd as (Hd1 & Hd2 & _ & Hd4).
  assert (Hdr : retr_positions deles = [] /\
                (length (BackupPipeline.dele_positions deles) <= 50)%nat /\
                forall a b u, ~ In (Downloading a b u) deles).
  { destruct Hdeles as [-> | ->].
    - repeat split; simpl; auto; lia.
    - rewrite Hd1, Hd2, length_map. repeat split; auto. }
  destruct Hdr as (Hdr1 & Hdr2 & Hdr3).
  unfold current_start_of in Hk, Hdl.
  set (cs := if delete_after then start_pos else start_pos + backed_up s) in *.
  set (bc := batch_count_of delete_after start_pos s) in *.
  assert (Hbc : bc <= 50).
  { unfold bc, batch_count_of, BackupPipeline.batch_size. lia. }
  eexists. exists (Nat.min k (Z.to_nat (cs + bc - cs))).
  split; [exact Ht|].
  rewrite !retr_positions_app, !bk_dele_positions_app, retr_positions_writes,
    dele_positions_writes, Hdr1, Hc1, Hc2, Hdh, Hk, !app_nil_r.
  cbn [app].
  unfold range. rewrite firstn_map, firstn_seq_min.
  split; [reflexivity|]. split.
  - intros a b u Hin. apply in_app_or in Hin. destruct Hin as [Hin|Hin];
      [exact (Hdl a b u Hin)|].
    apply in_app_or in Hin. destruct Hin as [Hin|Hin];
      [now apply writes_no_downloading in Hin|].
    apply in_app_or in Hin. destruct Hin as [Hin|Hin];
      [now destruct (Hdr3 a b u) | now destruct (Hc4 a b u)].
  - rewrite length_map, length_seq. split; lia.
Qed.

(** A property every pass keeps holds when the loop has left. *)
Lemma run_keeps (delete_after : bool) (start_pos : Z)
    (P : state -> Prop) (envs : list session_env) :
  (forall env s, In env envs -> P s ->
                 P (snd (iteration delete_after start_pos env s))) ->
  forall s s', run delete_after start_pos envs s = Some s' -> P s -> P s'.
Proof.
  induction envs as [|env envs IH]; intros Hstep s s'; simpl.
  - destruct (remaining s >? 0); [discriminate|]. now intros [= <-].
  - destruct (remaining s >? 0); [|now intros [= <-]].
    pose proof (Hstep env s (or_introl eq_refl)) as Hs.
    destruct (iteration delete_after start_pos env s) as [[| x |] s1];
      simpl in Hs.
    + intros Hrun HP. apply (IH (fun e t He => Hstep e t (or_intror He))
                               s1 s' Hrun). now apply Hs.
    + intros [= <-]. exact Hs.
    + intros [= <-]. exact Hs.
Qed.

End BackupPasses.

Section BackupResults.
Import Pop3 BackupPipeline Scenarios.

(** C10. The delete engine's batch size is [min(BATCH_SIZE, 50)] and the
    backup's is the constant 50, whatever the configuration says; no pass
    of the delete loop issues more than fifty DELE commands, and no pass
    of the backup loop issues more than fifty RETR or more than fifty DELE
    commands. *)
Theorem batches_never_exceed_fifty (c : DeleteEngine.config) :
  DeleteEngine.batch_size c = Z.min (DeleteEngine.get_BATCH_SIZE c) 50 /\
  DeleteEngine.batch_size c <= 50 /\
  BackupPipeline.batch_size = 50 /\
  (forall target start env s,
     exists evs,
       DeleteEngine.trace (snd (DeleteEngine.iteration c target start env s))
         = DeleteEngine.trace s ++ evs /\
       (length (DeleteEngine.dele_positions evs) <= 50)%nat) /\
  (forall delete_after start_pos env s,
     exists evs,
       trace (snd (iteration delete_after start_pos env s)) = trace s ++ evs /\
       (length (retr_positions evs) <= 50)%nat /\
       (length (dele_positions evs) <= 50)%nat).
Proof.
  split; [reflexivity|]. split; [unfold DeleteEngine.batch_size; lia|].
  split; [reflexivity|]. split.
  - intros target start env s. apply iteration_deles.
  - intros delete_after start_pos env s.
    destruct (iteration_reads delete_after start_pos env s)
      as (evs & k & Ht & _ & _ & Hr & Hd).
    exists evs. auto.
Qed.

End BackupResults.

Section ArchiveBeforeCommit.
Import Pop3 BackupPipeline.

Lemma is_marked_In (marks : list Z) (p : Z) :
  is_marked marks p = true <-> In p marks.
Proof.
  unfold is_marked. rewrite existsb_exists. split.
  - intros (q & Hq & Heq). apply Z.eqb_eq in Heq. now subst.
  - intros H. exists p. split; [assumption | apply Z.eqb_refl].
Qed.

Lemma In_removed_from (marks : list Z) (mb : mailbox) (m : message) :
  forall pos,
    In m (removed_from marks pos mb) ->
    exists i, nth_error mb i = Some m /\ In (pos + Z.of_nat i) marks.
Proof.
  induction mb as [|a mb IH]; intros pos; simpl; [contradiction|].
  destruct (is_marked marks pos) eqn:Hm.
  - intros [<-|Hin].
    + exists 0%nat. split; [reflexivity|].
      apply is_marked_In. now rewrite Z.add_0_r.
    + destruct (IH _ Hin) as (i & Hi & Hp). exists (S i).
      split; [assumption|]. now replace (pos + Z.of_nat (S i))
                               with (pos + 1 + Z.of_nat i) by lia.
  - intros Hin. destruct (IH _ Hin) as (i & Hi & Hp). exists (S i).
    split; [assumption|]. now replace (pos + Z.of_nat (S i))
                             with (pos + 1 + Z.of_nat i) by lia.
Qed.

Lemma In_kept_from (marks : list Z) (mb : mailbox) (m : message) :
  forall pos,
    In m (kept_from marks pos mb) ->
    exists i, nth_error mb i = Some m /\ ~ In (pos + Z.of_nat i) marks.
Proof.
  induction mb as [|a mb IH]; intros pos; simpl; [contradiction|].
  destruct (is_marked marks pos) eqn:Hm.
  - intros Hin. destruct (IH _ Hin) as (i & Hi & Hp). exists (S i).
    split; [assumption|]. now replace (pos + Z.of_nat (S i))
                             with (pos + 1 + Z.of_nat i) by lia.
  - intros [<-|Hin].
    + exists 0%nat. split; [reflexivity|].
      rewrite Z.add_0_r, <- is_marked_In. congruence.
    + destruct (IH _ Hin) as (i & Hi & Hp). exists (S i).
      split; [assumption|]. now replace (pos + Z.of_nat (S i))
                               with (pos + 1 + Z.of_nat i) by lia.
Qed.

Lemma kept_from_NoDup (marks : list Z) (mb : mailbox) :
  forall pos,
    NoDup (map msg_id mb) -> NoDup (map msg_id (kept_from marks pos mb)).
Proof.
  induction mb as [|a mb IH]; intros pos Hnd; simpl; [constructor|].
  inversion Hnd as [|? ? Hnin Hnd']; subst.
  destruct (is_marked marks pos); [now apply IH|].
  simpl. constructor; [|now apply IH].
  intros Hin. apply Hnin. apply in_map_iff in Hin.
  destruct Hin as (m & Hid & Hm). apply in_map_iff. exists m.
  split; [assumption|].
  destruct (In_kept_from _ _ _ _ Hm) as (i & Hi & _).
  now apply nth_error_In in Hi.
Qed.

(** Two positions of a mailbox without repeated ids that hold the same id
    are the same position. *)
Lemma same_id_same_position (mb : mailbox) (i j : nat) (m m' : message) :
  NoDup (map msg_id mb) ->
  nth_error mb i = Some m -> nth_error mb j = Some m' ->
  msg_id m = msg_id m' -> i = j.
Proof.
  intros Hnd Hi Hj Hid.
  apply (proj1 (NoDup_nth_error (map msg_id mb)) Hnd).
  - rewrite length_map. apply nth_error_Some. congruence.
  - rewrite !nth_error_map, Hi, Hj. simpl. now f_equal.
Qed.

Lemma NoDup_map_injective {A B : Type} (f : A -> B) (l : list A)
    (x y : A) :
  NoDup (map f l) -> In x l -> In y l -> f x = f y -> x = y.
Proof.
  induction l as [|a l IH]; simpl; [contradiction|].
  intros Hnd Hx Hy Hf. inversion Hnd as [|? ? Hnin Hnd']; subst.
  destruct Hx as [<-|Hx], Hy as [<-|Hy]; auto.
  - exfalso. apply Hnin. rewrite Hf. now apply in_map.
  - exfalso. apply Hnin. rewrite <- Hf. now apply in_map.
Qed.

(** What a commit removes was in the batch. *)
Lemma removed_in_batch (env : session_env) (mb : mailbox)
    (batch : list (Z * archive_entry)) (m : message) :
  Forall (fun pe => message_at mb (fst pe) = Some (content (snd pe))) batch ->
  In m (removed mb (filter (dele env mb) (map fst batch))) ->
  In m (map content (map snd batch)).
Proof.
  intros Hall Hin. unfold removed in Hin.
  destruct (In_removed_from _ _ _ _ Hin) as (i & Hi & Hp).
  apply filter_In in Hp. destruct Hp as [Hp _].
  apply in_map_iff in Hp. destruct Hp as ([p e] & Hfst & Hpe).
  cbn [fst] in Hfst. rewrite Forall_forall in Hall.
  specialize (Hall _ Hpe). cbn [fst snd] in Hall.
  destruct (message_at_valid _ _ _ Hall) as [_ Hnth].
  assert (Hidx : Z.to_nat (p - 1) = i) by lia.
  rewrite Hidx, Hi in Hnth. injection Hnth as ->.
  apply in_map_iff. exists e. split; [reflexivity|].
  apply in_map_iff. now exists (p, e).
Qed.

Lemma archived_mono (t : list event) :
  forall seen seen',
    incl seen seen' ->
    archived_before_commit seen t -> archived_before_commit seen' t.
Proof.
  induction t as [|ev t IH]; intros seen seen' Hincl; simpl; [auto|].
  destruct ev as [| | e | | [|] gone | ]; try (now apply IH).
  - apply IH. intros x [<-|Hx]; [now left | right; now apply Hincl].
  - intros [Hg Ht]. split; [|now apply (IH seen)].
    intros x Hx. apply Hincl. now apply Hg.
Qed.

Lemma archived_app (t u : list event) :
  forall seen,
    archived_before_commit seen t ->
    (forall seen', incl seen seen' -> incl (written t) seen' ->
                   archived_before_commit seen' u) ->
    archived_before_commit seen (t ++ u).
Proof.
  induction t as [|ev t IH]; intros seen Ht Hu; simpl.
  - apply Hu; [apply incl_refl | apply incl_nil_l].
  - destruct ev as [| | e | | [|] gone | ]; simpl in *;
      try (now apply IH).
    + apply IH; [assumption|]. intros seen' H1 H2. apply Hu.
      * intros x Hx. apply H1. now right.
      * intros x [<-|Hx]; [apply H1; now left | now apply H2].
    + destruct Ht as [Hg Ht]. split; [assumption | now apply IH].
Qed.

Lemma archived_split (t1 : list event) :
  forall seen gone t2,
    archived_before_commit seen (t1 ++ Quit true gone :: t2) ->
    incl gone (written t1 ++ seen).
Proof.
  induction t1 as [|ev t1 IH]; intros seen gone t2.
  - simpl. now intros [Hg _].
  - destruct ev as [| | e | | [|] g | ];
      cbn [app archived_before_commit written flat_map];
      try (exact (IH seen gone t2)).
    + intros H x Hx. pose proof (IH (content e :: seen) gone t2 H x Hx) as Hin.
      apply in_app_or in Hin. destruct Hin as [Hin|[<-|Hin]].
      * right. apply in_or_app. now left.
      * now left.
      * right. apply in_or_app. now right.
    + intros [_ H]. exact (IH seen gone t2 H).
Qed.

Lemma archived_quiet (t : list event) (seen : list message) :
  quiet t -> archived_before_commit seen t.
Proof.
  induction 1 as [|ev t Hev _ IH]; simpl; [exact I|].
  destruct ev; try assumption; contradiction.
Qed.

Lemma archived_writes (l : list archive_entry) :
  forall seen, archived_before_commit seen (map ZipWrite l).
Proof. induction l as [|e l IH]; intros seen; simpl; auto. Qed.

Lemma archived_closes (gone : list message) (t : list event)
    (seen : list message) :
  closes gone t -> incl gone seen -> archived_before_commit seen t.
Proof.
  induction 1 as [|ev t Hev _ IH]; intros Hincl; simpl; [exact I|].
  destruct ev as [| | e | | [|] g | ]; try contradiction; auto.
  subst g. split; auto.
Qed.

Lemma deles_quiet (env : session_env) (mb : mailbox) (deles : list event)
    (l : list Z) :
  deles = [] \/ deles = map (fun p => Dele p (dele env mb p)) l ->
  quiet deles.
Proof.
  intros [-> | ->]; [constructor|].
  induction l as [|p l IH]; simpl; constructor; [exact I | assumption].
Qed.

(** Every pass writes its batch to the archive before it commits the
    deletion of any of it. *)
Lemma iteration_archives_first (delete_after : bool) (start_pos : Z)
    (env : session_env) (s : state) :
  archived_before_commit [] (trace s) ->
  archived_before_commit []
    (trace (snd (iteration delete_after start_pos env s))).
Proof.
  intros Hold.
  destruct (iteration_shape delete_after start_pos env s)
    as (batch & head & deles & closing & gone & Ht & _ & Hqh & _ & _ & _
        & _ & _ & Hall & Hdeles & Hclose & Hserver).
  rewrite Ht. apply archived_app; [assumption|]. intros seen0 _ _.
  apply archived_app; [now apply archived_quiet|]. intros seen1 _ _.
  apply archived_app; [apply archived_writes|]. intros seen2 _ Hw.
  apply archived_app;
    [apply archived_quiet; now apply (deles_quiet env (server s) _ _ Hdeles)|].
  intros seen3 H23 _.
  apply (archived_closes gone); [assumption|].
  intros m Hm. apply H23, Hw. rewrite written_writes.
  destruct Hserver as [(_ & -> & _) | (_ & ->)]; [contradiction|].
  apply (Permutation_in m
           (Permutation_sym
              (Permutation_map content (zip_writes_perm (map snd batch))))).
  now apply (removed_in_batch env (server s)).
Qed.

End ArchiveBeforeCommit.

Section ArchivedOnce.
Import Pop3 BackupPipeline.

Lemma quiet_no_quit (t : list event) (b : bool) (g : list message) :
  quiet t -> ~ In (Quit b g) t.
Proof.
  intros Hq Hin. unfold quiet in Hq. rewrite Forall_forall in Hq.
  exact (Hq _ Hin).
Qed.

Lemma closes_quit_gone (gone g : list message) (t : list event) :
  closes gone t -> In (Quit true g) t -> g = gone.
Proof.
  intros Hc Hin. unfold closes in Hc. rewrite Forall_forall in Hc.
  exact (Hc _ Hin).
Qed.

Lemma filter_all {A : Type} (f : A -> bool) (l : list A) :
  Forall (fun x => f x = true) l -> filter f l = l.
Proof.
  induction 1 as [|x l Hx _ IH]; simpl; [reflexivity|].
  now rewrite Hx, IH.
Qed.

(** With a transport that accepts every DELE, the whole batch is
    marked. *)
Lemma whole_batch_marked (env : session_env) (mb : mailbox)
    (batch : list (Z * archive_entry)) :
  (forall p, dele_ok env p = true) ->
  Forall (fun pe => message_at mb (fst pe) = Some (content (snd pe))) batch ->
  filter (dele env mb) (map fst batch) = map fst batch.
Proof.
  intros Hok Hall. apply filter_all. rewrite Forall_forall.
  intros p Hp. apply in_map_iff in Hp. destruct Hp as (pe & <- & Hpe).
  rewrite Forall_forall in Hall.
  destruct (message_at_valid _ _ _ (Hall _ Hpe)) as [[H1 H2] _].
  unfold dele. rewrite Hok. simpl.
  apply andb_true_iff. split; [now apply Z.leb_le | now apply Z.leb_le].
Qed.

(** The ids of a downloaded batch are pairwise different. *)
Lemma batch_ids_NoDup (mb : mailbox) (batch : list (Z * archive_entry)) :
  NoDup (map msg_id mb) ->
  NoDup (map fst batch) ->
  Forall (fun pe => message_at mb (fst pe) = Some (content (snd pe))) batch ->
  NoDup (map (fun pe => msg_id (content (snd pe))) batch).
Proof.
  intros Hmb Hpos Hall. rewrite Forall_forall in Hall.
  apply Injective_map_NoDup_in; [|now apply NoDup_map_inv in Hpos].
  intros x y Hx Hy Hid.
  apply (NoDup_map_injective fst batch x y Hpos Hx Hy).
  destruct (message_at_valid _ _ _ (Hall _ Hx)) as [[Hx1 _] Hxn].
  destruct (message_at_valid _ _ _ (Hall _ Hy)) as [[Hy1 _] Hyn].
  pose proof (same_id_same_position mb _ _ _ _ Hmb Hxn Hyn Hid). lia.
Qed.

(** A pass of the combined mode whose DELE commands and commit all succeed
    keeps archive and mailbox in step. *)
Lemma iteration_keeps_match (start_pos : Z) (env : session_env) (s : state) :
  quit_ok env = true ->
  (forall p, dele_ok env p = true) ->
  archive_matches_mailbox s ->
  archive_matches_mailbox (snd (iteration true start_pos env s)).
Proof.
  intros Hquit Hdele (J1 & J2 & J3 & J4).
  destruct (iteration_shape true start_pos env s)
    as (batch & head & deles & closing & gone & Ht & _ & Hqh & _ & _ & _
        & Hpos & _ & Hall & Hdeles & Hclose & Hserver).
  pose proof (deles_quiet env (server s) _ _ Hdeles) as Hqd.
  destruct (closes_no_reads gone closing Hclose) as (_ & _ & Hwc & _).
  set (W := zip_writes (map snd batch)) in *.
  assert (Hids : written_ids (trace (snd (iteration true start_pos env s)))
                 = written_ids (trace s) ++ map msg_id (map content W)).
  { unfold written_ids. rewrite Ht, !written_app, written_writes,
      (quiet_written head Hqh), (quiet_written deles Hqd), Hwc.
    cbn [app]. now rewrite app_nil_r, map_app. }
  assert (Hnewquit : forall g,
    In (Quit true g) (trace (snd (iteration true start_pos env s))) ->
    In (Quit true g) (trace s) \/ g = gone).
  { intros g Hin. rewrite Ht in Hin.
    apply in_app_or in Hin. destruct Hin as [Hin|Hin]; [now left|].
    apply in_app_or in Hin. destruct Hin as [Hin|Hin];
      [now apply quiet_no_quit in Hin|].
    apply in_app_or in Hin. destruct Hin as [Hin|Hin].
    { apply in_map_iff in Hin. destruct Hin as (e & He & _). discriminate. }
    apply in_app_or in Hin. destruct Hin as [Hin|Hin];
      [now apply quiet_no_quit in Hin|].
    right. now apply (closes_quit_gone gone g closing). }
  assert (Hperm : Permutation (map msg_id (map content W))
                    (map (fun pe => msg_id (content (snd pe))) batch)).
  { unfold W. rewrite <- (map_map snd (fun e => msg_id (content e)) batch),
      <- (map_map content msg_id (map snd batch)).
    apply Permutation_map, Permutation_map, zip_writes_perm. }
  assert (Hbatch_in : forall a,
    In a (map msg_id (map content W)) ->
    exists pe, In pe batch /\ a = msg_id (content (snd pe))).
  { intros a Ha. apply (Permutation_in a Hperm) in Ha.
    apply in_map_iff in Ha. destruct Ha as (pe & <- & Hpe). now exists pe. }
  rewrite Forall_forall in Hall.
  assert (Hfresh : forall a,
    In a (map msg_id (map content W)) -> ~ In a (written_ids (trace s))).
  { intros a Ha. destruct (Hbatch_in a Ha) as (pe & Hpe & ->).
    apply J3. destruct (message_at_valid _ _ _ (Hall _ Hpe)) as [_ Hn].
    now apply nth_error_In in Hn. }
  destruct Hserver as [(Hs & -> & [-> | [H | H]]) | (Hs & ->)];
    try congruence.
  - (* nothing was downloaded *)
    unfold archive_matches_mailbox. rewrite Hids, Hs.
    change (map msg_id (map content W)) with (@nil nat).
    rewrite app_nil_r. repeat split; auto.
    intros g m Hin Hm. destruct (Hnewquit g Hin) as [Hold | ->];
      [now apply (J4 g m) | contradiction].
  - (* the batch was committed *)
    assert (Hmarks : filter (dele env (server s)) (map fst batch)
                     = map fst batch).
    { apply whole_batch_marked; [assumption | now rewrite Forall_forall]. }
    unfold archive_matches_mailbox. rewrite Hids, Hs.
    split; [now apply kept_from_NoDup|]. split.
    { apply NoDup_app; [assumption | | ].
      - apply (Permutation_NoDup (Permutation_sym Hperm)).
        apply (batch_ids_NoDup (server s)); auto.
        now rewrite Forall_forall.
      - intros a Hold Hnew. now apply (Hfresh a). }
    split.
    { intros m Hm Hin.
      destruct (In_kept_from _ _ _ _ Hm) as (i & Hi & Hnot).
      apply in_app_or in Hin. destruct Hin as [Hin|Hin].
      - apply (J3 m); [now apply nth_error_In in Hi | assumption].
      - destruct (Hbatch_in _ Hin) as (pe & Hpe & Hid).
        destruct (message_at_valid _ _ _ (Hall _ Hpe)) as [[Hp1 _] Hn].
        pose proof (same_id_same_position _ _ _ _ _ J1 Hi Hn Hid) as Hij.
        apply Hnot. rewrite Hmarks. apply in_map_iff. exists pe.
        split; [lia | assumption]. }
    intros g m Hin Hm. apply in_or_app.
    destruct (Hnewquit g Hin) as [Hold | ->]; [left; now apply (J4 g m)|].
    right. apply (Permutation_in _ (Permutation_sym Hperm)).
    apply (removed_in_batch env (server s) batch m) in Hm;
      [| now rewrite Forall_forall].
    rewrite map_map in Hm. apply in_map_iff in Hm.
    destruct Hm as (pe & <- & Hpe). apply in_map_iff. now exists pe.
Qed.

End ArchivedOnce.

Section BackupThenDelete.
Import Pop3 BackupPipeline Scenarios.

Lemma written_In (t : list event) (m : message) :
  In m (written t) -> exists e, In (ZipWrite e) t /\ content e = m.
Proof.
  unfold written. rewrite in_flat_map. intros (ev & Hev & Hm).
  destruct ev; simpl in Hm; try contradiction.
  destruct Hm as [<-|[]]. eauto.
Qed.

(** C2, as the code has it.  In a backup-then-delete run every message
    whose deletion is committed was written to an archive entry before
    that commit was attempted.  When the mailbox holds no message twice
    and no commit and no DELE of the run fails, it is written to exactly
    one entry over the whole run. *)
Theorem committed_deletions_are_archived_first
    (start_pos end_pos : Z) (envs : list session_env) (mb : mailbox)
    (disk : list archive_entry) (s : state) :
  backup_run start_pos end_pos true envs mb disk = Some s ->
  (forall t1 gone t2 m,
     trace s = t1 ++ Quit true gone :: t2 -> In m gone ->
     exists e, In (ZipWrite e) t1 /\ content e = m) /\
  (NoDup (map msg_id mb) ->
   (forall env, In env envs ->
      quit_ok env = true /\ forall p, dele_ok env p = true) ->
   forall gone m,
     In (Quit true gone) (trace s) -> In m gone ->
     entries_for m (trace s) = 1%nat).
Proof.
  intros Hrun. unfold backup_run in Hrun. split.
  - assert (Habc : archived_before_commit [] (trace s)).
    { apply (run_keeps true start_pos
               (fun t => archived_before_commit [] (trace t)) envs
               (fun env t _ => iteration_archives_first true start_pos env t)
               _ _ Hrun).
      exact I. }
    intros t1 gone t2 m Ht Hm. rewrite Ht in Habc.
    pose proof (archived_split t1 [] gone t2 Habc m Hm) as Hin.
    rewrite app_nil_r in Hin. now apply written_In.
  - intros Hnd Hok.
    assert (HJ : archive_matches_mailbox s).
    { apply (run_keeps true start_pos archive_matches_mailbox envs)
        with (s := initial start_pos end_pos mb disk); [ | exact Hrun | ].
      - intros env t Hin. destruct (Hok env Hin) as [Hq Hd].
        now apply iteration_keeps_match.
      - unfold archive_matches_mailbox, initial. simpl.
        split; [assumption|]. split; [constructor|].
        split; [intros m _ [] | intros g m []]. }
    destruct HJ as (_ & J2 & _ & J4).
    intros gone m Hq Hm. unfold entries_for.
    apply (proj1 (NoDup_count_occ' Nat.eq_dec _) J2).
    now apply (J4 gone m).
Qed.

(** One message, its first commit rejected: the batch is downloaded and
    written again, and when the deletion is committed the archive holds
    two entries for it. *)
Lemma retried_batch_is_archived_twice :
  exists s,
    backup_run 1 1 true [commit_rejected; all_ok] [msg 1] [] = Some s /\
    In (Quit true [msg 1]) (trace s) /\
    entries_for (msg 1) (trace s) = 2%nat /\
    entries_for (msg 1) (trace s) <> 1%nat /\
    length (archive s) = 2%nat.
Proof.
  eexists. split; [vm_compute; reflexivity|].
  split; [simpl; tauto|].
  split; [vm_compute; reflexivity|].
  split; [vm_compute; discriminate | reflexivity].
Qed.

(** Three messages backed up and deleted in one batch, nothing failing:
    each of them has exactly one entry. *)
Lemma committed_deletions_are_archived_first_witness :
  exists s,
    backup_run 1 3 true [all_ok] three_messages [] = Some s /\
    In (Quit true three_messages) (trace s) /\
    entries_for (msg 2) (trace s) = 1%nat.
Proof.
  eexists. split; [vm_compute; reflexivity|].
  split; [simpl; tauto|].
  match goal with
  | |- entries_for _ (trace ?s) = _ =>
      assert (Hrun : backup_run 1 3 true [all_ok] three_messages [] = Some s)
        by (vm_compute; reflexivity);
      apply (proj2 (committed_deletions_are_archived_first
                      1 3 [all_ok] three_messages [] s Hrun))
        with (gone := three_messages)
  end.
  - repeat constructor; simpl; intuition discriminate.
  - intros env [<-|[]]. split; reflexivity.
  - simpl; tauto.
  - simpl; tauto.
Defined.

End BackupThenDelete.

(** ** More on the boundary search, and the deletion range *)

Section SearchInGeneral.
Import Datetime BoundaryResolver DeletionRange.

Lemma before_not_from (pop : session) (T : datetime) (i : Z) :
  dated_before pop T i -> dated_from pop T i -> False.
Proof.
  intros (d & Hd & Hlt) (d' & Hd' & Hle).
  rewrite Hd in Hd'. injection Hd' as <-.
  exact (lt_irrefl T (le_lt_trans T d T Hle Hlt)).
Qed.

Lemma probe_neighbors_found (pop : session) (N mid : Z) (offs : list Z)
    (calls : list Z) (p : Z) (d : datetime) :
  probe_neighbors pop N mid offs = (calls, Some (p, d)) ->
  1 <= p <= N /\ pop p = Some d.
Proof.
  revert calls. induction offs as [|o rest IH]; intros calls; simpl;
    [discriminate|].
  destruct (in_mailbox N (mid + o)) eqn:Hin; [|apply IH].
  destruct (pop (mid + o)) as [d0|] eqn:Hpop.
  - intros [= _ <- <-]. unfold in_mailbox in Hin.
    apply andb_true_iff in Hin. destruct Hin as [H1 H2].
    apply Z.leb_le in H1, H2. auto.
  - destruct (probe_neighbors pop N mid rest) as [calls0 r] eqn:Hrec.
    intros [= _ ->]. now apply (IH calls0).
Qed.

(** Whatever the mailbox holds, a pass keeps the bounds inside it and puts
    into [result] only a position whose date compares as the mode asks. *)
Lemma step_result_ok (pop : session) (N : Z) (T : datetime) (gte : bool)
    (s : search_state) :
  1 <= left s -> right s <= N -> left s <= right s ->
  result_ok pop N T gte (result s) ->
  1 <= left (step pop N T gte s) /\
  right (step pop N T gte s) <= N /\
  result_ok pop N T gte (result (step pop N T gte s)).
Proof.
  intros Hl Hr Hle Hres.
  pose proof (midpoint_between _ _ Hle) as Hm.
  assert (Hat : forall p d log, 1 <= p <= N -> pop p = Some d ->
    let s' := if gte then
                if geb d T then mk_search (left s) (p - 1) p log
                else mk_search (p + 1) (right s) (result s) log
              else
                if ltb d T then mk_search (p + 1) (right s) p log
                else mk_search (left s) (p - 1) (result s) log in
    1 <= left s' /\ right s' <= N /\ result_ok pop N T gte (result s')).
  { intros p d log Hp Hd. cbv zeta.
    destruct gte; [destruct (geb d T) eqn:Hc | destruct (ltb d T) eqn:Hc];
      simpl; repeat split; try lia; try assumption.
    - right. split; [lia|]. exists d. split; [assumption|].
      now apply geb_le.
    - right. split; [lia|]. exists d. split; [assumption|].
      now apply ltb_lt. }
  unfold step.
  destruct (pop ((left s + right s) / 2)) as [d|] eqn:Hmid.
  - apply (Hat _ d); [lia | assumption].
  - destruct (probe_neighbors pop N ((left s + right s) / 2) offsets)
      as [calls [[p d]|]] eqn:Hprobe.
    + destruct (probe_neighbors_found _ _ _ _ _ _ _ Hprobe) as [Hp Hd].
      now apply (Hat p d).
    + simpl. repeat split; try lia; assumption.
Qed.

Lemma loop_result_ok (pop : session) (N : Z) (T : datetime) (gte : bool) :
  forall fuel s s',
    loop fuel pop N T gte s = Some s' ->
    1 <= left s -> right s <= N ->
    result_ok pop N T gte (result s) ->
    result_ok pop N T gte (result s').
Proof.
  induction fuel as [|fuel IH]; intros s s'; simpl;
    destruct (Z.leb_spec (left s) (right s)) as [Hle|Hgt];
    try discriminate; try (now intros [= <-]).
  intros Hloop Hl Hr Hres.
  destruct (step_result_ok pop N T gte s Hl Hr Hle Hres) as (H1 & H2 & H3).
  now apply (IH _ _ Hloop).
Qed.

Lemma search_result_ok (pop : session) (N : Z) (T : datetime) (gte : bool)
    (fuel : nat) (R : Z) :
  binary_search_date fuel pop N T gte = Some R -> result_ok pop N T gte R.
Proof.
  unfold binary_search_date.
  destruct (loop fuel pop N T gte (initial N gte)) as [s'|] eqn:Hloop;
    [|discriminate].
  intros [= <-].
  apply (loop_result_ok pop N T gte fuel _ _ Hloop); simpl; try lia.
  now left.
Qed.

(** The boundary the first-at-or-after search finds splits the mailbox. *)
Lemma first_gte_partition (pop : session) (N : Z) (T : datetime)
    (fuel : nat) :
  0 <= N -> all_dated pop N -> non_decreasing pop N ->
  (Z.to_nat N <= fuel)%nat ->
  exists R,
    binary_search_date fuel pop N T true = Some R /\
    1 <= R <= N + 1 /\
    (forall i, 1 <= i < R -> dated_before pop T i) /\
    (forall i, R <= i <= N -> dated_from pop T i).
Proof.
  intros HN Hdated Hmono Hfuel.
  destruct (loop_leaves pop N T Hdated true (gte_invariant pop N T)
              (fun s Hw Hle => gte_invariant_step pop N T Hdated s Hmono Hw Hle)
              fuel (initial N true))
    as (s' & Hloop & (Hl & Hr & Hclosed) & (Hres & Hbefore & Hfrom) & Hout).
  - unfold window, initial; simpl; lia.
  - unfold gte_invariant, initial; simpl. repeat split; intros; lia.
  - unfold initial; simpl. lia.
  - exists (result s'). unfold binary_search_date. rewrite Hloop. simpl.
    repeat split; try lia.
    + intros i Hi. apply Hbefore. lia.
    + intros i Hi. apply Hfrom. lia.
Qed.

Lemma lt_invariant_step (pop : session) (N : Z) (T : datetime)
    (s : search_state) :
  all_dated pop N -> non_decreasing pop N ->
  window N s -> left s <= right s -> lt_invariant pop N T s ->
  lt_invariant pop N T (step pop N T false s).
Proof.
  intros Hdated Hmono (Hl & Hr & _) Hle (Hres & Hbefore & Hfrom).
  pose proof (midpoint_between _ _ Hle) as Hm.
  destruct (Hdated ((left s + right s) / 2)) as [d Hd]; [lia|].
  rewrite (step_dated pop N T false s d Hd). cbv zeta.
  destruct (ltb d T) eqn:Hcmp; unfold lt_invariant; simpl.
  - apply ltb_lt in Hcmp. repeat split; [lia | | assumption].
    intros i Hi. destruct (Hdated i) as [di Hdi]; [lia|].
    exists di. split; [assumption|].
    apply le_lt_trans with d; [|assumption].
    apply (Hmono i ((left s + right s) / 2)); auto; lia.
  - apply ltb_nlt in Hcmp. repeat split; [assumption | assumption |].
    intros i Hi. destruct (Hdated i) as [di Hdi]; [lia|].
    exists di. split; [assumption|].
    apply le_trans with d; [assumption|].
    apply (Hmono ((left s + right s) / 2) i); auto; lia.
Qed.

Lemma last_lt_partition (pop : session) (N : Z) (T : datetime)
    (fuel : nat) :
  0 <= N -> all_dated pop N -> non_decreasing pop N ->
  (Z.to_nat N <= fuel)%nat ->
  exists R,
    binary_search_date fuel pop N T false = Some R /\
    0 <= R <= N /\
    (forall i, 1 <= i <= R -> dated_before pop T i) /\
    (forall i, R < i <= N -> dated_from pop T i).
Proof.
  intros HN Hdated Hmono Hfuel.
  destruct (loop_leaves pop N T Hdated false (lt_invariant pop N T)
              (fun s Hw Hle =>
                 lt_invariant_step pop N T s Hdated Hmono Hw Hle)
              fuel (initial N false))
    as (s' & Hloop & (Hl & Hr & Hclosed) & (Hres & Hbefore & Hfrom) & Hout).
  - unfold window, initial; simpl; lia.
  - unfold lt_invariant, initial; simpl. repeat split; intros; lia.
  - unfold initial; simpl. lia.
  - exists (result s'). unfold binary_search_date. rewrite Hloop. simpl.
    repeat split; try lia.
    + intros i Hi. apply Hbefore. lia.
    + intros i Hi. apply Hfrom. lia.
Qed.

(** X1. Whatever the mailbox holds (dates out of order, messages without
    a parseable date), a search that returns gives the sentinel of its
    mode or a position of 1..N whose own date is at or after the target
    (first-at-or-after) or before it (last-before). *)
Theorem search_result_is_sentinel_or_match
    (pop : session) (N : Z) (T : datetime) (find_first_gte : bool)
    (fuel : nat) (R : Z) :
  binary_search_date fuel pop N T find_first_gte = Some R ->
  R = (if find_first_gte then N + 1 else 0) \/
  (1 <= R <= N /\
   if find_first_gte then dated_from pop T R else dated_before pop T R).
Proof. apply search_result_ok. Qed.

(** X2. On a mailbox with every position dated and dates non-decreasing,
    the last-before search returns R in 0..N with every position up to R
    dated before the target and every later one at or after it, and the
    first-at-or-after search returns R + 1. *)
Theorem binary_search_last_lt_boundary
    (pop : session) (N : Z) (T : datetime) (fuel : nat) :
  0 <= N -> all_dated pop N -> non_decreasing pop N ->
  (Z.to_nat N <= fuel)%nat ->
  exists R,
    binary_search_date fuel pop N T false = Some R /\
    0 <= R <= N /\
    (forall i, 1 <= i <= R -> dated_before pop T i) /\
    (forall i, R < i <= N -> dated_from pop T i) /\
    binary_search_date fuel pop N T true = Some (R + 1).
Proof.
  intros HN Hdated Hmono Hfuel.
  destruct (last_lt_partition pop N T fuel HN Hdated Hmono Hfuel)
    as (R & Hlt & HR & Hb & Hf).
  destruct (first_gte_partition pop N T fuel HN Hdated Hmono Hfuel)
    as (R' & Hgte & HR' & Hb' & Hf').
  exists R. repeat split; try assumption; try lia.
  rewrite Hgte. f_equal.
  destruct (Z.lt_trichotomy R' (R + 1)) as [Hlt'|[Heq|Hgt]]; [|assumption|].
  - exfalso. apply (before_not_from pop T R'); [apply Hb | apply Hf']; lia.
  - exfalso. apply (before_not_from pop T (R + 1)); [apply Hb' | apply Hf];
      lia.
Qed.

End SearchInGeneral.

Section RangeResults.
Import Datetime BoundaryResolver DeletionRange.

Lemma from_first_of_year (d : datetime) (y : Z) :
  well_formed d -> (le (mk_datetime y 1 1 0) d <-> y <= year d).
Proof. unfold well_formed, le, lt; simpl. lia. Qed.

Lemma before_first_of_year (d : datetime) (y : Z) :
  well_formed d -> (lt d (mk_datetime y 1 1 0) <-> year d < y).
Proof. unfold well_formed, lt; simpl. lia. Qed.

Lemma le_year (a b : datetime) : le a b -> year a <= year b.
Proof. unfold le, lt. lia. Qed.

(** The range of cutoff mode, position by position. *)
Lemma cutoff_range_partition
    (pop : session) (N : Z) (T : datetime) (fuel : nat) :
  1 <= N -> all_dated pop N -> non_decreasing pop N ->
  (Z.to_nat N <= fuel)%nat ->
  exists r,
    main_deletion_range fuel pop N (Before T) = Returns r /\
    (forall i, 1 <= i <= N -> (in_range r i <-> dated_before pop T i)) /\
    (r = nothing \/
     exists e, r = mk_range (Some 1) (Some e) e /\ 1 <= e <= N).
Proof.
  intros HN Hdated Hmono Hfuel.
  destruct (Hdated 1) as [d1 H1]; [lia|].
  destruct (Hdated N) as [dN HNd]; [lia|].
  unfold main_deletion_range, get_deletion_range. rewrite H1, HNd.
  assert (Hdate : forall i, 1 <= i <= N ->
            exists di, pop i = Some di /\ le d1 di /\ le di dN).
  { intros i Hi. destruct (Hdated i Hi) as [di Hdi]. exists di.
    split; [assumption|]. split.
    - apply (Hmono 1 i); auto; lia.
    - apply (Hmono i N); auto; lia. }
  destruct (ltb d1 T) eqn:Hold; cbn [negb].
  2:{ (* the cutoff is not after the oldest message *)
      apply ltb_nlt in Hold. exists nothing. split; [reflexivity|].
      split; [|now left].
      intros i Hi. split; [intros []|].
      intros (di & Hdi & Hlt).
      destruct (Hdate i Hi) as (di' & Hdi' & Hle1 & _).
      rewrite Hdi in Hdi'. injection Hdi' as <-.
      exact (lt_irrefl T (le_lt_trans T di T (le_trans _ _ _ Hold Hle1) Hlt)). }
  destruct (ltb dN T) eqn:Hnew.
  { (* the cutoff is after the newest message *)
    apply ltb_lt in Hnew. eexists. split; [reflexivity|]. split.
    - intros i Hi. unfold in_range. simpl. split; [|intros _; lia].
      intros _. destruct (Hdate i Hi) as (di & Hdi & _ & HleN).
      exists di. split; [assumption|]. now apply le_lt_trans with dN.
    - right. exists N. split; [reflexivity | lia]. }
  destruct (first_gte_partition pop N T fuel ltac:(lia) Hdated Hmono Hfuel)
    as (R & Hsearch & HR & Hb & Hf).
  rewrite Hsearch.
  destruct (Z.leb_spec R 1) as [Hone|Hmore].
  - exists nothing. split; [reflexivity|]. split; [|now left].
    intros i Hi. split; [intros []|].
    intros Hbefore. apply (before_not_from pop T i Hbefore). apply Hf. lia.
  - eexists. split; [reflexivity|]. split.
    + intros i Hi. unfold in_range. simpl. split.
      * intros Hin. apply Hb. lia.
      * intros Hbefore. destruct (Z.le_gt_cases R i) as [Hge|Hlt]; [|lia].
        exfalso. apply (before_not_from pop T i Hbefore). apply Hf. lia.
    + right. exists (R - 1). split; [reflexivity | lia].
Qed.

(** X3. Cutoff mode, as [main] calls it, on a mailbox with every position
    dated and dates non-decreasing: the call returns, and the range it
    returns holds exactly the positions dated before the cutoff; it is
    either empty, with count 0, or 1..e inside the mailbox with count e. *)
Theorem cutoff_range_is_everything_before_cutoff
    (pop : session) (N : Z) (T : datetime) (fuel : nat) :
  1 <= N -> all_dated pop N -> non_decreasing pop N ->
  (Z.to_nat N <= fuel)%nat ->
  exists r,
    main_deletion_range fuel pop N (Before T) = Returns r /\
    (forall i, 1 <= i <= N -> (in_range r i <-> dated_before pop T i)) /\
    (r = nothing \/
     exists e, r = mk_range (Some 1) (Some e) e /\ 1 <= e <= N).
Proof. exact (cutoff_range_partition pop N T fuel). Qed.

(** The range of year mode, position by position. *)
Lemma year_range_partition
    (pop : session) (N : Z) (start_year end_year : Z) (fuel : nat) :
  1 <= N -> all_dated pop N -> non_decreasing pop N ->
  (forall i d, 1 <= i <= N -> pop i = Some d -> well_formed d) ->
  1 <= start_year <= 9999 -> 0 <= end_year <= 9998 ->
  (Z.to_nat N <= fuel)%nat ->
  exists r,
    main_deletion_range fuel pop N (DeleteYears start_year end_year)
      = Returns r /\
    (forall i, 1 <= i <= N ->
       (in_range r i <->
        exists d, pop i = Some d /\ start_year <= year d <= end_year)) /\
    (r = nothing \/
     exists s e, r = mk_range (Some s) (Some e) (e - s + 1) /\
                 1 <= s <= e /\ e <= N).
Proof.
  intros HN Hdated Hmono Hwf Hsy Hey Hfuel.
  destruct (Hdated 1) as [d1 H1]; [lia|].
  destruct (Hdated N) as [dN HNd]; [lia|].
  unfold main_deletion_range, get_deletion_range, parse_delete_years,
    first_of_year.
  destruct (Z.leb_spec 1 start_year); [|lia].
  destruct (Z.leb_spec start_year 9999); [|lia].
  destruct (Z.leb_spec 1 (end_year + 1)); [|lia].
  destruct (Z.leb_spec (end_year + 1) 9999); [|lia].
  cbn [andb]. rewrite H1, HNd. cbv zeta.
  (* where the range starts *)
  assert (Hstart : exists S,
    (if start_year <=? year d1 then Some 1
     else binary_search_date fuel pop N (mk_datetime start_year 1 1 0) true)
    = Some S /\ 1 <= S <= N + 1 /\
    forall i d, 1 <= i <= N -> pop i = Some d ->
                (S <= i <-> start_year <= year d)).
  { destruct (Z.leb_spec start_year (year d1)) as [Hy|Hy].
    - exists 1. split; [reflexivity|]. split; [lia|].
      intros i d Hi Hd. split; [|lia]. intros _.
      pose proof (le_year d1 d (Hmono 1 i d1 d ltac:(lia) ltac:(lia)
                                   ltac:(lia) H1 Hd)). lia.
    - destruct (first_gte_partition pop N (mk_datetime start_year 1 1 0)
                  fuel ltac:(lia) Hdated Hmono Hfuel)
        as (R & Hsearch & HR & Hb & Hf).
      exists R. split; [assumption|]. split; [assumption|].
      intros i d Hi Hd. pose proof (Hwf i d Hi Hd) as Hwfd. split.
      + intros Hge. destruct (Hf i ltac:(lia)) as (d' & Hd' & Hle).
        rewrite Hd in Hd'. injection Hd' as <-.
        now apply (from_first_of_year d start_year Hwfd).
      + intros Hyear. destruct (Z.le_gt_cases R i) as [Hge|Hlt];
          [assumption|].
        destruct (Hb i ltac:(lia)) as (d' & Hd' & Hlt').
        rewrite Hd in Hd'. injection Hd' as <-.
        apply (before_first_of_year d start_year Hwfd) in Hlt'. lia. }
  (* where it ends *)
  assert (Hend : exists E,
    (if end_year >=? year dN then Some N
     else option_map (fun e => e - 1)
            (binary_search_date fuel pop N
               (mk_datetime (end_year + 1) 1 1 0) true))
    = Some E /\ 0 <= E <= N /\
    forall i d, 1 <= i <= N -> pop i = Some d ->
                (i <= E <-> year d <= end_year)).
  { destruct (Z.geb_spec end_year (year dN)) as [Hy|Hy].
    - exists N. split; [reflexivity|]. split; [lia|].
      intros i d Hi Hd. split; [|lia]. intros _.
      pose proof (le_year d dN (Hmono i N d dN ltac:(lia) ltac:(lia)
                                   ltac:(lia) Hd HNd)). lia.
    - destruct (first_gte_partition pop N
                  (mk_datetime (end_year + 1) 1 1 0)
                  fuel ltac:(lia) Hdated Hmono Hfuel)
        as (R & Hsearch & HR & Hb & Hf).
      exists (R - 1). rewrite Hsearch. split; [reflexivity|].
      split; [lia|].
      intros i d Hi Hd. pose proof (Hwf i d Hi Hd) as Hwfd. split.
      + intros Hle. destruct (Hb i ltac:(lia)) as (d' & Hd' & Hlt').
        rewrite Hd in Hd'. injection Hd' as <-.
        apply (before_first_of_year d (end_year + 1) Hwfd) in Hlt'. lia.
      + intros Hyear. destruct (Z.le_gt_cases i (R - 1)) as [Hle|Hgt];
          [assumption|].
        destruct (Hf i ltac:(lia)) as (d' & Hd' & Hle').
        rewrite Hd in Hd'. injection Hd' as <-.
        apply (from_first_of_year d (end_year + 1) Hwfd) in Hle'. lia. }
  destruct Hstart as (S & -> & HS & HSi).
  destruct Hend as (E & -> & HE & HEi).
  destruct ((S >? E) || (S >? N)) eqn:Hguard.
  - exists nothing. split; [reflexivity|]. split; [|now left].
    intros i Hi. split; [intros []|].
    intros (d & Hd & Hy). exfalso.
    pose proof (proj2 (HSi i d Hi Hd) (proj1 Hy)).
    pose proof (proj2 (HEi i d Hi Hd) (proj2 Hy)).
    apply orb_true_iff in Hguard. destruct Hguard as [Hg|Hg];
      apply Z.gtb_lt in Hg; lia.
  - apply orb_false_iff in Hguard. destruct Hguard as [Hg1 Hg2].
    assert (S <= E) by (destruct (Z.gtb_spec S E); [discriminate | lia]).
    eexists. split; [reflexivity|]. split.
    + intros i Hi. unfold in_range. simpl.
      destruct (Hdated i Hi) as [d Hd].
      pose proof (HSi i d Hi Hd). pose proof (HEi i d Hi Hd). split.
      * intros Hin. exists d. split; [assumption|]. lia.
      * intros (d' & Hd' & Hy). rewrite Hd in Hd'. injection Hd' as <-. lia.
    + right. exists S, E. split; [reflexivity | lia].
Qed.

(** X4. Year mode, as [main] calls it, on a mailbox with every position
    dated, dates non-decreasing and well formed, for years the datetime
    type accepts: the call returns, and the range it returns holds exactly
    the positions whose message is dated in start_year..end_year; it is
    either empty, with count 0, or s..e inside the mailbox with count
    e - s + 1. *)
Theorem year_range_is_everything_in_those_years
    (pop : session) (N : Z) (start_year end_year : Z) (fuel : nat) :
  1 <= N -> all_dated pop N -> non_decreasing pop N ->
  (forall i d, 1 <= i <= N -> pop i = Some d -> well_formed d) ->
  1 <= start_year <= 9999 -> 0 <= end_year <= 9998 ->
  (Z.to_nat N <= fuel)%nat ->
  exists r,
    main_deletion_range fuel pop N (DeleteYears start_year end_year)
      = Returns r /\
    (forall i, 1 <= i <= N ->
       (in_range r i <->
        exists d, pop i = Some d /\ start_year <= year d <= end_year)) /\
    (r = nothing \/
     exists s e, r = mk_range (Some s) (Some e) (e - s + 1) /\
                 1 <= s <= e /\ e <= N).
Proof.
  exact (year_range_partition pop N start_year end_year fuel).
Qed.

(** X5. For any mailbox, any hint about the oldest and newest dates and
    either mode: a range the function returns is empty, with count 0, or
    lies inside the mailbox, start <= end, with count end - start + 1. *)
Theorem deletion_range_lies_within_the_mailbox
    (fuel : nat) (pop : session) (N : Z) (req : request)
    (oldest_date newest_date : option datetime) (r : deletion_range) :
  1 <= N ->
  get_deletion_range fuel pop N req oldest_date newest_date = Returns r ->
  r = nothing \/
  exists s e, r = mk_range (Some s) (Some e) (e - s + 1) /\
              1 <= s <= e /\ e <= N.
Proof.
  intros HN. unfold get_deletion_range.
  assert (Hsearch : forall T R,
    binary_search_date fuel pop N T true = Some R -> 1 <= R <= N + 1).
  { intros T R H. destruct (search_result_ok pop N T true fuel R H)
      as [-> | [HR _]]; lia. }
  destruct req as [sy ey | T].
  - destruct (parse_delete_years sy ey) as [[[[sy' ey'] sd] ed]|];
      [|discriminate].
    match goal with
    | |- match ?a with _ => _ end = _ -> _ =>
        assert (Hstart : forall S, a = Some S -> 1 <= S <= N + 1);
        [|destruct a as [S|]; [|discriminate]]
    end.
    { intros S. destruct oldest_date as [od|];
        [destruct (sy' <=? year od); [intros [= <-]; lia|]|];
        apply Hsearch. }
    specialize (Hstart S eq_refl).
    match goal with
    | |- match ?a with _ => _ end = _ -> _ =>
        assert (Hend : forall E, a = Some E -> 0 <= E <= N);
        [|destruct a as [E|]; [|discriminate]]
    end.
    { intros E. destruct newest_date as [nd|];
        [destruct (ey' >=? year nd); [intros [= <-]; lia|]|];
        (destruct (binary_search_date fuel pop N ed true) as [R|] eqn:HR;
         [|discriminate]; intros [= <-];
         pose proof (Hsearch ed R HR); lia). }
    specialize (Hend E eq_refl).
    destruct (Z.gtb_spec S E); cbn [orb]; [intros [= <-]; now left|].
    destruct (Z.gtb_spec S N); intros [= <-]; [now left|].
    right. exists S, E. split; [reflexivity | lia].
  - destruct (match oldest_date with
              | Some od => negb (ltb od T)
              | None => false
              end); [intros [= <-]; now left|].
    destruct (match newest_date with
              | Some nd => ltb nd T
              | None => false
              end).
    { intros [= <-]. right. exists 1, N.
      split; [f_equal; lia | lia]. }
    destruct (binary_search_date fuel pop N T true) as [R|] eqn:HR;
      [|discriminate].
    pose proof (Hsearch T R HR).
    destruct (Z.leb_spec R 1); intros [= <-]; [now left|].
    right. exists 1, (R - 1). split; [f_equal; lia | lia].
Qed.

End RangeResults.

Section RangeExamples.
Import Datetime BoundaryResolver DeletionRange Scenarios.

Lemma ten_days_all_dated : all_dated ten_days 10.
Proof.
  intros i Hi. unfold ten_days.
  destruct (Z.leb_spec 1 i); [|lia].
  destruct (Z.leb_spec i 10); [|lia].
  simpl. eauto.
Qed.

Lemma ten_days_non_decreasing : non_decreasing ten_days 10.
Proof.
  intros i j di dj Hi Hij Hj. unfold ten_days.
  destruct (Z.leb_spec 1 i); [|lia].
  destruct (Z.leb_spec i 10); [|lia].
  destruct (Z.leb_spec 1 j); [|lia].
  destruct (Z.leb_spec j 10); [|lia].
  simpl. intros [= <-] [= <-]. unfold le, lt. simpl. lia.
Qed.

Lemma six_years_all_dated : all_dated six_years 6.
Proof.
  intros i Hi. unfold six_years.
  destruct (Z.leb_spec 1 i); [|lia].
  destruct (Z.leb_spec i 6); [|lia].
  simpl. eauto.
Qed.

Lemma six_years_non_decreasing : non_decreasing six_years 6.
Proof.
  intros i j di dj Hi Hij Hj. unfold six_years.
  destruct (Z.leb_spec 1 i); [|lia].
  destruct (Z.leb_spec i 6); [|lia].
  destruct (Z.leb_spec 1 j); [|lia].
  destruct (Z.leb_spec j 6); [|lia].
  cbn [andb]. intros [= <-] [= <-]. unfold le, lt.
  cbn [year month day micros]. lia.
Qed.

Lemma six_years_well_formed (i : Z) (d : datetime) :
  1 <= i <= 6 -> six_years i = Some d -> well_formed d.
Proof.
  intros Hi. unfold six_years.
  destruct ((1 <=? i) && (i <=? 6)); [|discriminate].
  intros [= <-]. unfold well_formed. simpl. lia.
Qed.

Lemma search_result_is_sentinel_or_match_witness :
  7 = (if false then 10 + 1 else 0) \/
  (1 <= 7 <= 10 /\
   if false then dated_from two_undated (mk_datetime 2020 1 8 0) 7
   else dated_before two_undated (mk_datetime 2020 1 8 0) 7).
Proof.
  apply (search_result_is_sentinel_or_match two_undated 10
           (mk_datetime 2020 1 8 0) false 10 7).
  vm_compute. reflexivity.
Defined.

Lemma binary_search_last_lt_boundary_witness :
  exists R,
    binary_search_date 10 ten_days 10 (mk_datetime 2020 1 5 0) false
      = Some R /\
    0 <= R <= 10 /\
    (forall i, 1 <= i <= R -> dated_before ten_days (mk_datetime 2020 1 5 0) i) /\
    (forall i, R < i <= 10 -> dated_from ten_days (mk_datetime 2020 1 5 0) i) /\
    binary_search_date 10 ten_days 10 (mk_datetime 2020 1 5 0) true
      = Some (R + 1).
Proof.
  apply (binary_search_last_lt_boundary ten_days 10
           (mk_datetime 2020 1 5 0) 10).
  - lia.
  - exact ten_days_all_dated.
  - exact ten_days_non_decreasing.
  - simpl. lia.
Defined.

Lemma cutoff_range_is_everything_before_cutoff_witness :
  exists r,
    main_deletion_range 10 ten_days 10 (Before (mk_datetime 2020 1 5 0))
      = Returns r /\
    (forall i, 1 <= i <= 10 ->
       (in_range r i <-> dated_before ten_days (mk_datetime 2020 1 5 0) i)) /\
    (r = nothing \/
     exists e, r = mk_range (Some 1) (Some e) e /\ 1 <= e <= 10).
Proof.
  apply (cutoff_range_is_everything_before_cutoff ten_days 10
           (mk_datetime 2020 1 5 0) 10).
  - lia.
  - exact ten_days_all_dated.
  - exact ten_days_non_decreasing.
  - simpl. lia.
Defined.

Lemma year_range_is_everything_in_those_years_witness :
  exists r,
    main_deletion_range 6 six_years 6 (DeleteYears 2012 2013) = Returns r /\
    (forall i, 1 <= i <= 6 ->
       (in_range r i <->
        exists d, six_years i = Some d /\ 2012 <= year d <= 2013)) /\
    (r = nothing \/
     exists s e, r = mk_range (Some s) (Some e) (e - s + 1) /\
                 1 <= s <= e /\ e <= 6).
Proof.
  apply (year_range_is_everything_in_those_years six_years 6 2012 2013 6).
  - lia.
  - exact six_years_all_dated.
  - exact six_years_non_decreasing.
  - exact six_years_well_formed.
  - lia.
  - lia.
  - simpl. lia.
Defined.

(** The six-year mailbox, years 2012-2013: positions 2 to 3. *)
Example year_range_six_years :
  main_deletion_range 6 six_years 6 (DeleteYears 2012 2013)
  = Returns (mk_range (Some 2) (Some 3) 2).
Proof. reflexivity. Qed.

Lemma deletion_range_lies_within_the_mailbox_witness :
  mk_range (Some 2) (Some 3) 2 = nothing \/
  exists s e, mk_range (Some 2) (Some 3) 2
              = mk_range (Some s) (Some e) (e - s + 1) /\
              1 <= s <= e /\ e <= 6.
Proof.
  apply (deletion_range_lies_within_the_mailbox 6 six_years 6
           (DeleteYears 2012 2013) None None).
  - lia.
  - vm_compute. reflexivity.
Defined.

End RangeExamples.

(** ** What the delete loop may remove *)

Section MailboxLemmas.
Import Pop3 MailboxChange.

Lemma subseq_refl {A : Type} (l : list A) : subseq l l.
Proof. induction l; constructor; assumption. Qed.

Lemma subseq_trans {A : Type} (l1 l2 l3 : list A) :
  subseq l1 l2 -> subseq l2 l3 -> subseq l1 l3.
Proof.
  intros H12 H23. revert l1 H12.
  induction H23 as [|x l2 l3 H IH|x l2 l3 H IH]; intros l1 H12.
  - assumption.
  - inversion H12; subst.
    + constructor. now apply IH.
    + apply subseq_drop. now apply IH.
  - apply subseq_drop. now apply IH.
Qed.

Lemma subseq_length {A : Type} (l' l : list A) :
  subseq l' l -> (length l' <= length l)%nat.
Proof. induction 1; simpl; lia. Qed.

Lemma subseq_same_length {A : Type} (l' l : list A) :
  subseq l' l -> length l' = length l -> l' = l.
Proof.
  induction 1 as [|x l' l H IH|x l' l H IH]; simpl; intros Hlen.
  - reflexivity.
  - f_equal. apply IH. lia.
  - apply subseq_length in H. lia.
Qed.

Lemma subseq_In {A : Type} (l' l : list A) (x : A) :
  subseq l' l -> In x l' -> In x l.
Proof.
  induction 1 as [|y l' l H IH|y l' l H IH]; simpl; intros Hin.
  - assumption.
  - destruct Hin; [now left | right; now apply IH].
  - right. now apply IH.
Qed.

Lemma kept_from_subseq (marks : list Z) (mb : mailbox) :
  forall pos, subseq (kept_from marks pos mb) mb.
Proof.
  induction mb as [|m mb IH]; intros pos; simpl; [constructor|].
  destruct (is_marked marks pos); constructor; apply IH.
Qed.

Lemma kept_from_app (marks : list Z) (l1 l2 : mailbox) :
  forall pos,
    kept_from marks pos (l1 ++ l2)
    = kept_from marks pos l1
        ++ kept_from marks (pos + Z.of_nat (length l1)) l2.
Proof.
  induction l1 as [|m l1 IH]; intros pos.
  - simpl. now rewrite Z.add_0_r.
  - cbn [app kept_from length]. rewrite IH.
    replace (pos + 1 + Z.of_nat (length l1))
      with (pos + Z.of_nat (S (length l1))) by lia.
    destruct (is_marked marks pos); reflexivity.
Qed.

Lemma kept_from_outside (marks : list Z) (mb : mailbox) :
  forall pos,
    (forall p, In p marks -> p < pos \/ pos + Z.of_nat (length mb) <= p) ->
    kept_from marks pos mb = mb.
Proof.
  induction mb as [|m mb IH]; intros pos Hout; [reflexivity|].
  cbn [kept_from].
  destruct (is_marked marks pos) eqn:Hm.
  - apply is_marked_In in Hm. apply Hout in Hm. simpl in Hm. lia.
  - f_equal. apply IH. intros p Hp. apply Hout in Hp. simpl in Hp. lia.
Qed.

Lemma kept_from_length (marks : list Z) (mb : mailbox) (pos : Z) :
  (length (kept_from marks pos mb) <= length mb)%nat.
Proof. apply subseq_length, kept_from_subseq. Qed.

Lemma In_range (lo hi p : Z) : In p (range lo hi) <-> lo <= p < hi.
Proof.
  unfold range. rewrite in_map_iff. split.
  - intros (i & <- & Hi). apply in_seq in Hi. lia.
  - intros Hp. exists (Z.to_nat (p - lo)). split; [lia|].
    apply in_seq. lia.
Qed.

(** Marking every position of a block at the head of [mb] removes the
    block. *)
Lemma kept_from_block (marks : list Z) (mb : mailbox) :
  forall pos (k : nat),
    (k <= length mb)%nat ->
    (forall p, pos <= p -> (In p marks <-> p < pos + Z.of_nat k)) ->
    kept_from marks pos mb = skipn k mb.
Proof.
  induction mb as [|m mb IH]; intros pos k Hk Hmarks.
  - simpl in Hk. now replace k with 0%nat by lia.
  - destruct k as [|k].
    + apply kept_from_outside. intros p Hp.
      destruct (Z.lt_ge_cases p pos) as [Hlt|Hge]; [now left|].
      apply (Hmarks p Hge) in Hp. lia.
    + cbn [kept_from skipn].
      assert (Hm : is_marked marks pos = true)
        by (apply is_marked_In, Hmarks; lia).
      rewrite Hm. apply IH; [simpl in Hk; lia|].
      intros p Hp. rewrite Hmarks; lia.
Qed.

(** The three parts of the mailbox, and their sizes. *)
Lemma mailbox_parts (start count : Z) (mb : mailbox) :
  mb = before_range start mb ++ the_range start count mb
         ++ after_range start count mb.
Proof.
  unfold before_range, the_range, after_range.
  now rewrite firstn_skipn, firstn_skipn.
Qed.

Lemma before_range_length (start : Z) (mb : mailbox) :
  start - 1 <= stat mb ->
  Z.of_nat (length (before_range start mb)) = Z.max 0 (start - 1).
Proof.
  unfold before_range, stat. intros H. rewrite length_firstn. lia.
Qed.

Lemma the_range_length (start count : Z) (mb : mailbox) :
  1 <= start -> start - 1 <= stat mb ->
  Z.of_nat (length (the_range start count mb))
  = Z.min (Z.max 0 count) (stat mb - (start - 1)).
Proof.
  unfold the_range, stat. intros H1 H2.
  rewrite length_firstn, length_skipn. lia.
Qed.

Lemma after_range_length (start count : Z) (mb : mailbox) :
  1 <= start -> start - 1 <= stat mb ->
  Z.of_nat (length (after_range start count mb))
  = Z.max 0 (stat mb - (start - 1) - Z.max 0 count).
Proof.
  unfold after_range, stat. intros H1 H2.
  rewrite !length_skipn. lia.
Qed.

End MailboxLemmas.

Section DeleteSafety.
Import Pop3 DeleteEngine MailboxChange.

Lemma mark_batch_incl (env : session_env) (mb : mailbox) (msg_nums : list Z) :
  forall mc errs,
    incl (fst (fst (mark_batch env mb msg_nums mc errs))) msg_nums.
Proof.
  induction msg_nums as [|i rest IH]; intros mc errs; simpl.
  - apply incl_refl.
  - destruct (dele env mb i).
    + specialize (IH (mc + 1) errs).
      destruct (mark_batch env mb rest (mc + 1) errs) as [[marks mc'] evs].
      simpl in *. intros p [<-|Hp]; [now left | right; now apply IH].
    + destruct (errs + 1 >? 10); simpl.
      * apply incl_nil_l.
      * specialize (IH mc (errs + 1)).
        destruct (mark_batch env mb rest mc (errs + 1)) as [[marks mc'] evs].
        simpl in *. now apply incl_tl.
Qed.

(** A pass leaves the mailbox as it is, or commits marks that all lie in
    the batch [start .. start + batch_count - 1]. *)
Lemma iteration_effect (c : config) (target start : Z)
    (env : session_env) (s : state) :
  let n := stat (server s) in
  let initial := match initial_count s with Some i => i | None => n end in
  let bc :=
    Z.min (Z.min (batch_size c) (target - (initial - n))) (n - start + 1) in
  let s' := snd (iteration c target start env s) in
  server s' = server s \/
  (exists marks,
     incl marks (range start (start + bc)) /\
     server s' = commit (server s) marks /\
     initial - n < target /\ start <= n /\ 0 < bc /\
     connect_ok env = true /\ stat_ok env = true /\ quit_ok env = true).
Proof.
  cbv zeta. unfold iteration, connection_failure, quit_and_break.
  destruct (connect_ok env); cbn [negb].
  2:{ destruct (_ >=? max_failures); now left. }
  destruct (stat_ok env); cbn [negb].
  2:{ destruct (_ >=? max_failures); now left. }
  cbv zeta.
  destruct (stat (server s) =? 0). { destruct (quit_ok env); now left. }
  match goal with |- context [?a >=? target] =>
    destruct (Z.geb_spec a target) as [Hreached|Hreached] end.
  { destruct (quit_ok env); now left. }
  destruct (Z.gtb_spec start (stat (server s))) as [Hbeyond|Hbeyond].
  { destruct (quit_ok env); now left. }
  match goal with |- context [?a <=? 0] =>
    destruct (Z.leb_spec a 0) as [Hbatch|Hbatch] end.
  { destruct (quit_ok env); now left. }
  match goal with |- context [mark_batch ?e ?m ?l ?a ?b] =>
    pose proof (mark_batch_incl e m l a b) as Hincl;
    destruct (mark_batch e m l a b) as [[marks mc] deles]
  end.
  cbn [fst] in Hincl.
  destruct (quit_ok env).
  - right. exists marks. cbn [snd server]. repeat split; auto; lia.
  - destruct (_ >=? max_failures); now left.
Qed.

Lemma commit_length (mb : mailbox) (marks : list Z) :
  stat (commit mb marks) <= stat mb.
Proof.
  unfold stat, commit. pose proof (kept_from_length marks mb 1). lia.
Qed.

(** Marks inside the range act on the range only. *)
Lemma commit_inside (pre mid post : mailbox) (marks : list Z) :
  (forall p, In p marks ->
     Z.of_nat (length pre) < p <= Z.of_nat (length pre + length mid)) ->
  commit (pre ++ mid ++ post) marks
  = pre ++ kept_from marks (1 + Z.of_nat (length pre)) mid ++ post.
Proof.
  intros Hin. unfold commit. rewrite !kept_from_app. f_equal; [|f_equal].
  - apply kept_from_outside. intros p Hp. apply Hin in Hp. lia.
  - apply kept_from_outside. intros p Hp. apply Hin in Hp. lia.
Qed.

Lemma iteration_keeps_counts (c : config) (target start : Z)
    (env : session_env) (mb : mailbox) (s : state) :
  counts_tracked mb s ->
  counts_tracked mb (snd (iteration c target start env s)).
Proof.
  intros (Hsize & Hnone & Hsome).
  pose proof (iteration_observes c target start env s) as Hobs.
  pose proof (iteration_effect c target start env s) as Heff.
  cbv zeta in Hobs, Heff.
  set (s' := snd (iteration c target start env s)) in *.
  assert (Hinitial :
    match initial_count s with Some i => i | None => stat (server s) end
    = stat mb).
  { destruct (initial_count s) as [i|] eqn:Hi.
    - now destruct (Hsome i eq_refl).
    - now destruct (Hnone eq_refl) as [-> _]. }
  rewrite Hinitial in Hobs, Heff.
  assert (Hshrink : stat (server s') <= stat (server s)).
  { destruct Heff as [-> | (marks & _ & -> & _)];
      [lia | apply commit_length]. }
  split; [lia|]. split.
  - intros Hnone'. destruct (connect_ok env && stat_ok env) eqn:Hcs.
    + destruct Hobs as (_ & _ & Hi). congruence.
    + destruct Hobs as (_ & Hn & Hi). rewrite Hi in Hnone'.
      destruct (Hnone Hnone') as [Hmb Hnum].
      destruct Heff as [Hsame | (marks & _ & _ & _ & _ & _ & Hc & Hs & _)].
      * split; congruence.
      * rewrite Hc, Hs in Hcs. discriminate.
  - intros i Hi'. destruct (connect_ok env && stat_ok env) eqn:Hcs.
    + destruct Hobs as (_ & Hn & Hi). rewrite Hi in Hi'.
      injection Hi' as <-. split; [reflexivity|].
      exists (stat (server s)). split; [assumption | lia].
    + destruct Hobs as (_ & Hn & Hi). rewrite Hi in Hi'.
      destruct (Hsome i Hi') as (-> & n & Hnum & Hle).
      split; [reflexivity|]. exists n. split; [congruence | lia].
Qed.

Lemma iteration_keeps_range (c : config) (target start : Z)
    (env : session_env) (mb : mailbox) (s : state) :
  1 <= start ->
  counts_tracked mb s ->
  only_range_touched start target mb s ->
  only_range_touched start target mb (snd (iteration c target start env s)).
Proof.
  intros Hstart (Hsize & Hnone & Hsome) (mid & Hsub & Hserver).
  pose proof (iteration_effect c target start env s) as Heff.
  cbv zeta in Heff.
  set (s' := snd (iteration c target start env s)) in *.
  assert (Hinitial :
    match initial_count s with Some i => i | None => stat (server s) end
    = stat mb).
  { destruct (initial_count s) as [i|] eqn:Hi.
    - now destruct (Hsome i eq_refl).
    - now destruct (Hnone eq_refl) as [-> _]. }
  rewrite Hinitial in Heff.
  destruct Heff as [Hsame | (marks & Hincl & Hcommit & Hless & Hle & Hbc & _)].
  - exists mid. split; [assumption | congruence].
  - assert (Hpre := before_range_length start mb ltac:(lia)).
    assert (Hrange := the_range_length start target mb Hstart ltac:(lia)).
    assert (Hpost := after_range_length start target mb Hstart ltac:(lia)).
    assert (Hmb : stat mb
                  = Z.of_nat (length (before_range start mb))
                    + Z.of_nat (length (the_range start target mb))
                    + Z.of_nat (length (after_range start target mb))).
    { rewrite (mailbox_parts start target mb) at 1.
      unfold stat. rewrite !length_app. lia. }
    assert (Hn : stat (server s)
                 = Z.of_nat (length (before_range start mb))
                   + Z.of_nat (length mid)
                   + Z.of_nat (length (after_range start target mb))).
    { rewrite Hserver. unfold stat. rewrite !length_app. lia. }
    exists (kept_from marks
              (1 + Z.of_nat (length (before_range start mb))) mid).
    split.
    + eapply subseq_trans; [apply kept_from_subseq | assumption].
    + rewrite Hcommit, Hserver. apply commit_inside.
      intros p Hp. apply Hincl, In_range in Hp. lia.
Qed.

Lemma initial_counts (mb : mailbox) : counts_tracked mb (initial mb).
Proof.
  split; [simpl; lia|]. split.
  - intros _. split; reflexivity.
  - intros i Hi. discriminate.
Qed.

Lemma initial_only_range (start count : Z) (mb : mailbox) :
  only_range_touched start count mb (initial mb).
Proof.
  exists (the_range start count mb). split; [apply subseq_refl|].
  apply mailbox_parts.
Qed.

Lemma run_keeps_counts (c : config) (target start : Z) (mb : mailbox)
    (envs : list session_env) :
  forall s r s',
    run c target start envs s = Some (r, s') ->
    counts_tracked mb s -> counts_tracked mb s'.
Proof.
  induction envs as [|env envs IH]; intros s r s'; simpl; [discriminate|].
  intros Hrun Hinv.
  pose proof (iteration_keeps_counts c target start env mb s Hinv) as Hs.
  destruct (iteration c target start env s) as [[| x |] s1]; simpl in Hs.
  - now apply (IH s1 r s').
  - now injection Hrun as <- <-.
  - now injection Hrun as <- <-.
Qed.

Lemma run_keeps_range (c : config) (target start : Z) (mb : mailbox)
    (envs : list session_env) :
  1 <= start ->
  forall s r s',
    run c target start envs s = Some (r, s') ->
    counts_tracked mb s ->
    only_range_touched start target mb s ->
    only_range_touched start target mb s'.
Proof.
  intros Hstart. induction envs as [|env envs IH]; intros s r s';
    simpl; [discriminate|].
  intros Hrun Hc Hinv.
  pose proof (iteration_keeps_counts c target start env mb s Hc) as Hc'.
  pose proof (iteration_keeps_range c target start env mb s Hstart Hc Hinv)
    as Hs.
  destruct (iteration c target start env s) as [[| x |] s1];
    simpl in Hs, Hc'.
  - now apply (IH s1 r s').
  - now injection Hrun as <- <-.
  - now injection Hrun as <- <-.
Qed.

(** X6. Whatever the transport does and however the loop ends, even by an
    exception: the messages before [start_position] and the messages after
    the [messages_to_delete] positions from there on are all still in the
    mailbox, in place, and between them is what remains of the range; so
    at most [messages_to_delete] messages are gone. *)
Theorem deletes_only_inside_the_range
    (c : config) (messages_to_delete start_position : Z)
    (envs : list session_env) (mb : mailbox)
    (r : option exit) (s : state) :
  1 <= start_position ->
  delete_run c messages_to_delete start_position envs mb = Some (r, s) ->
  exists mid,
    subseq mid (the_range start_position messages_to_delete mb) /\
    server s = before_range start_position mb ++ mid
                 ++ after_range start_position messages_to_delete mb /\
    0 <= stat mb - stat (server s) <= Z.max 0 messages_to_delete.
Proof.
  intros Hstart Hrun. unfold delete_run in Hrun.
  pose proof (run_keeps_range c messages_to_delete start_position mb envs
                Hstart _ _ _ Hrun (initial_counts mb)
                (initial_only_range _ _ mb)) as Hinv.
  destruct Hinv as (mid & Hsub & Hserver).
  exists mid. split; [assumption|]. split; [assumption|].
  assert (Hmb : stat mb
                = Z.of_nat (length (before_range start_position mb))
                  + Z.of_nat (length (the_range start_position
                                        messages_to_delete mb))
                  + Z.of_nat (length (after_range start_position
                                        messages_to_delete mb))).
  { rewrite (mailbox_parts start_position messages_to_delete mb) at 1.
    unfold stat. rewrite !length_app. lia. }
  rewrite Hmb, Hserver. unfold stat. rewrite !length_app.
  pose proof (subseq_length _ _ Hsub) as Hlen.
  assert (length (the_range start_position messages_to_delete mb)
          <= Z.to_nat messages_to_delete)%nat
    by (unfold the_range; rewrite length_firstn; lia).
  lia.
Qed.

(** X7. The number the function returns never exceeds the number of
    messages that are really gone, is never negative, and is exactly that
    number when the closing session (connect, STAT, QUIT) succeeds. *)
Theorem reported_count_is_at_most_what_is_gone
    (c : config) (messages_to_delete start_position : Z)
    (envs : list session_env) (final : session_env) (mb : mailbox)
    (total_deleted : Z) :
  delete_messages_robust c messages_to_delete start_position envs final mb
    = Some (Some total_deleted) ->
  exists x s,
    delete_run c messages_to_delete start_position envs mb
      = Some (Some x, s) /\
    0 <= total_deleted <= stat mb - stat (server s) /\
    (connect_ok final && stat_ok final && quit_ok final = true ->
     total_deleted = stat mb - stat (server s)).
Proof.
  unfold delete_messages_robust.
  destruct (delete_run c messages_to_delete start_position envs mb)
    as [[[x|] s]|] eqn:Hrun; try discriminate.
  intros [= <-]. exists x, s. split; [reflexivity|].
  unfold delete_run in Hrun.
  pose proof (run_keeps_counts c messages_to_delete start_position mb envs
                _ _ _ Hrun (initial_counts mb)) as (Hsize & Hnone & Hsome).
  unfold final_count, shrinkage.
  destruct (initial_count s) as [i|] eqn:Hi.
  - destruct (Hsome i eq_refl) as (-> & n & Hn & Hle). rewrite Hn.
    destruct (connect_ok final && stat_ok final && quit_ok final).
    + destruct (Z.eqb_spec (stat mb) 0) as [H0|H0].
      * unfold stat in *. split; [lia | intros _; lia].
      * split; [lia | reflexivity].
    + destruct (Z.eqb_spec (stat mb) 0) as [H0|H0];
        (split; [lia | discriminate]).
  - destruct (Hnone eq_refl) as [-> _].
    destruct (connect_ok final && stat_ok final && quit_ok final);
      (split; [lia | intros _; lia]).
Qed.

End DeleteSafety.

Section ReliableDeletes.
Import Pop3 DeleteEngine MailboxChange.

Lemma mark_batch_all (env : session_env) (mb : mailbox) (msg_nums : list Z) :
  (forall i, In i msg_nums -> dele env mb i = true) ->
  forall mc errs,
    fst (fst (mark_batch env mb msg_nums mc errs)) = msg_nums.
Proof.
  induction msg_nums as [|i rest IH]; intros Hall mc errs; simpl;
    [reflexivity|].
  rewrite (Hall i (or_introl eq_refl)).
  specialize (IH (fun j Hj => Hall j (or_intror Hj)) (mc + 1) errs).
  destruct (mark_batch env mb rest (mc + 1) errs) as [[marks mc'] evs].
  simpl in *. now rewrite IH.
Qed.

(** On a reliable transport a pass that finds the target reached, or the
    mailbox empty, leaves the loop without touching the mailbox. *)
Lemma iteration_reliable_done (c : config) (target start : Z)
    (env : session_env) (s : state) :
  reliable env ->
  let n := stat (server s) in
  let initial := match initial_count s with Some i => i | None => n end in
  n = 0 \/ target <= initial - n ->
  exists x s',
    iteration c target start env s = (Break x, s') /\ failed x = false /\
    server s' = server s /\ initial_count s' = Some initial /\
    num_messages s' = Some n.
Proof.
  intros (Hc & Hs & Hq & _) n initial Hdone. subst n initial.
  unfold iteration, quit_and_break. rewrite Hc, Hs, Hq. cbn [negb]. cbv zeta.
  destruct (Z.eqb_spec (stat (server s)) 0) as [H0|H0].
  - eexists _, _. split; [reflexivity|]. repeat split.
  - match goal with |- context [?a >=? target] =>
      destruct (Z.geb_spec a target) as [Hreached|Hreached] end; [|lia].
    eexists _, _. split; [reflexivity|]. repeat split.
Qed.

(** On a reliable transport a pass that has something to do commits the
    whole batch. *)
Lemma iteration_reliable_batch (c : config) (target start : Z)
    (env : session_env) (s : state) :
  reliable env ->
  let n := stat (server s) in
  let initial := match initial_count s with Some i => i | None => n end in
  let bc :=
    Z.min (Z.min (batch_size c) (target - (initial - n))) (n - start + 1) in
  1 <= start -> n <> 0 -> initial - n < target -> 0 < bc ->
  exists s',
    iteration c target start env s = (Continue, s') /\
    server s' = commit (server s) (range start (start + bc)) /\
    initial_count s' = Some initial /\ num_messages s' = Some n.
Proof.
  intros (Hc & Hs & Hq & _ & _ & Hd) n initial bc Hstart Hn Hless Hbc.
  subst n initial bc.
  unfold iteration, quit_and_break. rewrite Hc, Hs, Hq. cbn [negb]. cbv zeta.
  destruct (Z.eqb_spec (stat (server s)) 0) as [H0|H0]; [contradiction|].
  match goal with |- context [?a >=? target] =>
    destruct (Z.geb_spec a target) as [Hreached|Hreached] end; [lia|].
  destruct (Z.gtb_spec start (stat (server s))) as [Hbeyond|Hbeyond]; [lia|].
  match goal with |- context [?a <=? 0] =>
    destruct (Z.leb_spec a 0) as [Hbatch|Hbatch] end; [lia|].
  match goal with |- context [mark_batch ?e ?m ?l ?a ?b] =>
    pose proof (mark_batch_all e m l) as Hall;
    specialize (fun H => Hall H a b);
    destruct (mark_batch e m l a b) as [[marks mc] deles]
  end.
  cbn [fst] in Hall. eexists. split; [reflexivity|]. cbn [server].
  rewrite Hall; [repeat split|].
  intros i Hi. apply In_range in Hi. unfold dele. rewrite Hd.
  cbn [andb]. apply andb_true_iff. split; apply Z.leb_le; lia.
Qed.

(** The loop, started anywhere on its way through the range, on reliable
    transports: it ends with the range gone. *)
Lemma run_reliable (c : config) (target start : Z) (mb : mailbox) :
  1 <= batch_size c -> 1 <= start -> 1 <= target ->
  start + target - 1 <= stat mb ->
  forall envs (d : nat) s,
    Forall reliable envs ->
    (Z.to_nat target - d < length envs)%nat ->
    (d <= Z.to_nat target)%nat ->
    (initial_count s = None -> d = 0%nat) ->
    (forall i, initial_count s = Some i -> i = stat mb) ->
    server s = before_range start mb ++ skipn d (the_range start target mb)
                 ++ after_range start target mb ->
    exists x s',
      run c target start envs s = Some (Some x, s') /\ failed x = false /\
      server s' = before_range start mb ++ after_range start target mb /\
      initial_count s' = Some (stat mb) /\
      num_messages s' = Some (stat mb - target).
Proof.
  intros Hbs Hstart Htarget Hfits.
  assert (Hpre := before_range_length start mb ltac:(lia)).
  assert (Hrange := the_range_length start target mb Hstart ltac:(lia)).
  assert (Hpost := after_range_length start target mb Hstart ltac:(lia)).
  assert (Hmb : stat mb
                = Z.of_nat (length (before_range start mb))
                  + Z.of_nat (length (the_range start target mb))
                  + Z.of_nat (length (after_range start target mb))).
  { rewrite (mailbox_parts start target mb) at 1.
    unfold stat. rewrite !length_app. lia. }
  induction envs as [|env envs IH]; intros d s Hrel Hfuel Hd Hnone Hsome Hserver;
    [simpl in Hfuel; lia|].
  inversion Hrel as [|? ? Henv Hrel']; subst.
  assert (Hn : stat (server s) = stat mb - Z.of_nat d).
  { rewrite Hserver. unfold stat in *. rewrite !length_app, length_skipn.
    lia. }
  assert (Hinitial :
    match initial_count s with Some i => i | None => stat (server s) end
    = stat mb).
  { destruct (initial_count s) as [i|] eqn:Hi.
    - now apply Hsome.
    - rewrite Hn, (Hnone eq_refl). lia. }
  destruct (Nat.eq_dec d (Z.to_nat target)) as [Hall|Hmore].
  - (* the range is gone *)
    destruct (iteration_reliable_done c target start env s Henv)
      as (x & s' & Hit & Hx & Hsrv & Hi & Hnum).
    { right. rewrite Hinitial, Hn. lia. }
    exists x, s'. cbn [run]. rewrite Hit. split; [reflexivity|].
    split; [assumption|]. rewrite Hsrv, Hi, Hnum, Hinitial, Hn, Hserver.
    repeat split.
    + rewrite skipn_all2; [reflexivity|]. lia.
    + do 2 f_equal. lia.
  - destruct (iteration_reliable_batch c target start env s Henv)
      as (s' & Hit & Hsrv & Hi & Hnum); try (rewrite ?Hinitial, ?Hn; lia).
    cbn [run]. rewrite Hit. rewrite Hinitial in Hsrv, Hi.
    rewrite Hn in Hsrv, Hnum.
    set (bc := Z.min (Z.min (batch_size c)
                        (target - (stat mb - (stat mb - Z.of_nat d))))
                     (stat mb - Z.of_nat d - start + 1)) in *.
    assert (Hbc : 0 < bc <= target - Z.of_nat d) by (unfold bc; lia).
    apply (IH (Z.to_nat bc + d)%nat s' Hrel').
    + simpl in Hfuel. lia.
    + lia.
    + rewrite Hi. discriminate.
    + rewrite Hi. now intros i [= <-].
    + rewrite Hsrv, Hserver, commit_inside.
      * f_equal. f_equal. rewrite <- skipn_skipn.
        apply kept_from_block; [rewrite length_skipn; lia|].
        intros p Hp. rewrite In_range. lia.
      * intros p Hp. apply In_range in Hp. rewrite length_skipn. lia.
Qed.

(** X8. On transports that never fail, with a batch size of at least 1
    and a range that fits the mailbox, the loop ends normally, the mailbox
    is left as the messages before the range followed by the messages
    after it, and the function returns [messages_to_delete], whether or
    not its closing session succeeds. *)
Theorem reliable_run_deletes_exactly_the_range
    (c : config) (messages_to_delete start_position : Z)
    (envs : list session_env) (final : session_env) (mb : mailbox) :
  Forall reliable envs ->
  1 <= batch_size c ->
  1 <= start_position -> 1 <= messages_to_delete ->
  start_position + messages_to_delete - 1 <= stat mb ->
  (Z.to_nat messages_to_delete < length envs)%nat ->
  exists x s,
    delete_run c messages_to_delete start_position envs mb
      = Some (Some x, s) /\
    failed x = false /\
    server s = before_range start_position mb
                 ++ after_range start_position messages_to_delete mb /\
    delete_messages_robust c messages_to_delete start_position envs final mb
      = Some (Some messages_to_delete).
Proof.
  intros Hrel Hbs Hstart Htarget Hfits Hfuel.
  destruct (run_reliable c messages_to_delete start_position mb
              Hbs Hstart Htarget Hfits envs 0%nat (initial mb) Hrel)
    as (x & s & Hrun & Hx & Hsrv & Hi & Hnum).
  - lia.
  - lia.
  - reflexivity.
  - discriminate.
  - cbn [initial server skipn]. apply mailbox_parts.
  - exists x, s. unfold delete_messages_robust, delete_run. rewrite Hrun.
    repeat split; try assumption.
    do 2 f_equal. unfold final_count, shrinkage. rewrite Hi, Hnum.
    assert (Hlen : stat (server s) = stat mb - messages_to_delete).
    { rewrite Hsrv.
      pose proof (before_range_length start_position mb ltac:(lia)).
      pose proof (after_range_length start_position messages_to_delete mb
                    Hstart ltac:(lia)).
      unfold stat in *. rewrite length_app. lia. }
    rewrite Hlen.
    destruct (Z.eqb_spec (stat mb) 0); [lia|].
    destruct (connect_ok final && stat_ok final && quit_ok final); lia.
Qed.

(** The loop of the older script is the loop of [terabyebye.py] started
    at position 1. *)
Lemma cleanup_fast_run_eq (c : config) (messages_to_delete : Z)
    (envs : list session_env) :
  forall s,
    CleanupFast.run c messages_to_delete envs s
    = run c messages_to_delete 1 envs s.
Proof.
  assert (Hit : forall env s,
    CleanupFast.iteration c messages_to_delete env s
    = iteration c messages_to_delete 1 env s).
  { intros env s. unfold CleanupFast.iteration, iteration.
    destruct (connect_ok env); [|reflexivity].
    destruct (stat_ok env); [|reflexivity]. cbn [negb]. cbv zeta.
    destruct (Z.eqb_spec (stat (server s)) 0) as [H0|H0]; [reflexivity|].
    destruct (_ >=? messages_to_delete); [reflexivity|].
    destruct (Z.gtb_spec 1 (stat (server s))) as [Hb|Hb];
      [unfold stat in *; lia|].
    replace (stat (server s) - 1 + 1) with (stat (server s)) by lia.
    match goal with |- context [range 1 (?a + 1)] =>
      replace (a + 1) with (1 + a) by lia end.
    reflexivity. }
  induction envs as [|env envs IH]; intros s; simpl; [reflexivity|].
  rewrite Hit.
  destruct (iteration c messages_to_delete 1 env s) as [[| x |] s'];
    [apply IH | reflexivity | reflexivity].
Qed.

(** X9. The engine of [terabyebye.py] with its default start position 1
    is the engine of the older [pop3_cleanup_fast.py]: the same result on
    every mailbox and every transport. *)
Theorem cleanup_fast_engine_is_start_position_one
    (c : config) (messages_to_delete : Z) (envs : list session_env)
    (final : session_env) (mb : mailbox) :
  CleanupFast.delete_messages_robust c messages_to_delete envs final mb
  = delete_messages_robust c messages_to_delete 1 envs final mb.
Proof.
  unfold CleanupFast.delete_messages_robust, delete_messages_robust,
    delete_run.
  now rewrite cleanup_fast_run_eq.
Qed.

End ReliableDeletes.

Section DeleteSafetyExamples.
Import Pop3 DeleteEngine MailboxChange Scenarios.


(** One message asked for at position 2 of three, the first commit
    rejected: the second message goes, the first and third stay. *)
Lemma deletes_only_inside_the_range_witness :
  exists r s,
    delete_run (mk_config None) 1 2 [commit_rejected; all_ok; all_ok]
      three_messages = Some (r, s) /\
    exists mid,
      subseq mid (the_range 2 1 three_messages) /\
      server s = before_range 2 three_messages ++ mid
                   ++ after_range 2 1 three_messages /\
      0 <= stat three_messages - stat (server s) <= Z.max 0 1.
Proof.
  eexists _, _. split; [vm_compute; reflexivity|].
  eapply (deletes_only_inside_the_range (mk_config None) 1 2
            [commit_rejected; all_ok; all_ok] three_messages);
    [lia | vm_compute; reflexivity].
Defined.

Lemma reported_count_is_at_most_what_is_gone_witness :
  exists x s,
    delete_run (mk_config None) 2 1 [all_ok; all_ok] three_messages
      = Some (Some x, s) /\
    0 <= 2 <= stat three_messages - stat (server s) /\
    (connect_ok no_connection && stat_ok no_connection
       && quit_ok no_connection = true ->
     2 = stat three_messages - stat (server s)).
Proof.
  apply (reported_count_is_at_most_what_is_gone (mk_config None) 2 1
           [all_ok; all_ok] no_connection three_messages 2).
  vm_compute. reflexivity.
Defined.

Lemma reliable_run_deletes_exactly_the_range_witness :
  exists x s,
    delete_run (mk_config (Some 1)) 2 2 [all_ok; all_ok; all_ok]
      three_messages = Some (Some x, s) /\
    failed x = false /\
    server s = before_range 2 three_messages
                 ++ after_range 2 2 three_messages /\
    delete_messages_robust (mk_config (Some 1)) 2 2 [all_ok; all_ok; all_ok]
      no_connection three_messages = Some (Some 2).
Proof.
  apply (reliable_run_deletes_exactly_the_range (mk_config (Some 1)) 2 2
           [all_ok; all_ok; all_ok] no_connection three_messages).
  - repeat constructor.
  - vm_compute. discriminate.
  - lia.
  - lia.
  - vm_compute. discriminate.
  - simpl. lia.
Defined.

End DeleteSafetyExamples.

(** ** What the backup counts and what it leaves alone *)

Section BackupCounters.
Import Pop3 BackupPipeline.

(** What one pass does to the counters: [k] messages are counted as
    backed up, and as deleted when deleting, [k] being at most the size of
    the batch; a pass that does not delete leaves the mailbox alone and
    sends no DELE. *)
Lemma iteration_counters (delete_after : bool) (start_pos : Z)
    (env : session_env) (s : state) :
  let s' := snd (iteration delete_after start_pos env s) in
  exists k,
    0 <= k <= Z.max 0 (batch_count_of delete_after start_pos s) /\
    backed_up s' = backed_up s + k /\
    remaining s' = remaining s - k /\
    deleted s' = deleted s + (if delete_after then k else 0) /\
    (delete_after = false ->
     server s' = server s /\
     dele_positions (trace s') = dele_positions (trace s)).
Proof.
  cbv zeta. unfold iteration.
  assert (Hzero : forall s0 : state,
    backed_up s0 = backed_up s -> remaining s0 = remaining s ->
    deleted s0 = deleted s ->
    (delete_after = false ->
     server s0 = server s /\
     dele_positions (trace s0) = dele_positions (trace s)) ->
    exists k,
      0 <= k <= Z.max 0 (batch_count_of delete_after start_pos s) /\
      backed_up s0 = backed_up s + k /\
      remaining s0 = remaining s - k /\
      deleted s0 = deleted s + (if delete_after then k else 0) /\
      (delete_after = false ->
       server s0 = server s /\
       dele_positions (trace s0) = dele_positions (trace s))).
  { intros s0 H1 H2 H3 H4. exists 0.
    repeat split; try lia; try (now apply H4).
    destruct delete_after; lia. }
  destruct (connect_ok env); cbn [negb].
  2:{ cbv zeta. destruct (_ >=? max_failures); cbn [snd]; apply Hzero;
        try reflexivity; intros _; cbn [log with_failures server trace];
        rewrite ?bk_dele_positions_app, ?app_nil_r; auto. }
  destruct (stat_ok env); cbn [negb].
  2:{ cbn [snd]. apply Hzero; try reflexivity. intros _.
      cbn [log with_failures server trace].
      rewrite bk_dele_positions_app, app_nil_r. auto. }
  cbv zeta.
  destruct (_ >? stat (server s)).
  { cbn [snd]. apply Hzero; try reflexivity. intros _.
    cbn [log server trace]. rewrite bk_dele_positions_app, app_nil_r. auto. }
  match goal with |- context [read_batch ?e ?m ?b ?l ?n ?c] =>
    pose proof (read_batch_spec e m b l n c) as Hspec;
    destruct (read_batch e m b l n c) as [[batch cf] reads]
  end.
  destruct (Hspec _ _ _ eq_refl) as (_ & _ & Hnodele & _ & _ & _ & Hlen & _).
  clear Hspec. rewrite range_length in Hlen.
  assert (Hk : 0 <= Z.of_nat (length (map snd batch))
               <= Z.max 0 (batch_count_of delete_after start_pos s)).
  { rewrite length_map. lia. }
  destruct (cf >=? max_failures).
  { cbn [snd]. apply Hzero; try reflexivity. intros _.
    cbn [log with_failures server trace].
    rewrite !bk_dele_positions_app. cbn [app].
    simpl. rewrite Hnodele, app_nil_r. auto. }
  assert (Hplain : forall t,
    BackupPipeline.dele_positions
      (trace s ++ (Downloading (current_start_of delete_after start_pos s)
                     (current_start_of delete_after start_pos s
                      + batch_count_of delete_after start_pos s - 1)
                     (backed_up s) :: reads)
         ++ map ZipWrite (zip_writes (map snd batch)) ++ t)
    = BackupPipeline.dele_positions (trace s)
        ++ BackupPipeline.dele_positions t).
  { intros t. rewrite !bk_dele_positions_app. cbn [app].
    rewrite dele_positions_writes. simpl. now rewrite Hnodele. }
  destruct delete_after.
  - destruct (map fst batch) as [|p ps] eqn:Hfst.
    + cbn [snd]. exists (Z.of_nat (length (map snd batch))).
      cbn [backed_up remaining deleted].
      assert (batch = []) by (destruct batch; [reflexivity|discriminate]).
      subst batch. simpl. repeat split; try lia; try discriminate.
    + destruct (mark_batch env (server s) (p :: ps)) as [marks deles].
      destruct (quit_ok env); cbn [snd];
        [exists (Z.of_nat (length (map snd batch)))
        |exists 0]; cbn [backed_up remaining deleted];
        (repeat split; try lia; try discriminate).
      rewrite <- Hfst, !length_map. lia.
  - cbn [snd]. exists (Z.of_nat (length (map snd batch))).
    cbn [backed_up remaining deleted server trace].
    repeat split; try lia.
    rewrite Hplain, bk_dele_positions_app.
    destruct (_ >? 0); simpl; now rewrite app_nil_r.
Qed.

Lemma backup_run_keeps (start_pos end_pos : Z) (delete_after : bool)
    (P : state -> Prop) (envs : list session_env) (mb : mailbox)
    (disk : list archive_entry) (s : state) :
  (forall env s0, P s0 -> P (snd (iteration delete_after start_pos env s0))) ->
  P (initial start_pos end_pos mb disk) ->
  backup_run start_pos end_pos delete_after envs mb disk = Some s ->
  P s.
Proof.
  intros Hstep Hinit Hrun.
  apply (run_keeps delete_after start_pos P envs
           (fun env s0 _ => Hstep env s0) _ _ Hrun Hinit).
Qed.

(** X10. Whatever the transport does, the two numbers the function returns
    satisfy: [backed_up] lies between 0 and the number of messages asked
    for; [deleted] equals [backed_up] when deleting and is 0 otherwise. *)
Theorem backup_counts_are_bounded_and_agree
    (start_pos end_pos : Z) (delete_after : bool)
    (envs : list session_env) (mb : mailbox) (disk : list archive_entry)
    (n_backed_up n_deleted : Z) :
  backup_emails_to_zip start_pos end_pos delete_after envs mb disk
    = Some (n_backed_up, n_deleted) ->
  0 <= n_backed_up <= Z.max 0 (end_pos - start_pos + 1) /\
  n_deleted = (if delete_after then n_backed_up else 0).
Proof.
  unfold backup_emails_to_zip.
  destruct (backup_run start_pos end_pos delete_after envs mb disk)
    as [s|] eqn:Hrun; [|discriminate].
  intros [= <- <-].
  destruct (Z.le_gt_cases (end_pos - start_pos + 1) 0) as [Hneg|Hpos].
  - (* nothing asked for: the loop is not entered *)
    unfold backup_run in Hrun.
    assert (s = initial start_pos end_pos mb disk) as ->.
    { destruct envs; simpl in Hrun;
        (destruct (Z.gtb_spec (end_pos - start_pos + 1) 0); [lia|]);
        congruence. }
    simpl. destruct delete_after; lia.
  - pose proof (backup_run_keeps start_pos end_pos delete_after
      (fun s0 => 0 <= backed_up s0 /\ 0 <= remaining s0 /\
                 backed_up s0 + remaining s0 = end_pos - start_pos + 1 /\
                 deleted s0 = if delete_after then backed_up s0 else 0)
      envs mb disk s) as Hkeep.
    cbv beta in Hkeep.
    destruct Hkeep as (H1 & H2 & H3 & H4); [| |assumption|].
    + intros env s0 (H1 & H2 & H3 & H4).
      destruct (iteration_counters delete_after start_pos env s0)
        as (k & Hk & Hb & Hr & Hd & _).
      rewrite Hb, Hr, Hd, H4. unfold batch_count_of in Hk.
      destruct delete_after; lia.
    + simpl. destruct delete_after; lia.
    + rewrite H4. lia.
Qed.

(** X11. Without [delete_after], whatever the transport does: the mailbox
    is left exactly as it was, no DELE is ever sent, and the function
    reports 0 deleted. *)
Theorem backup_only_leaves_the_mailbox_alone
    (start_pos end_pos : Z) (envs : list session_env) (mb : mailbox)
    (disk : list archive_entry) (s : state) :
  backup_run start_pos end_pos false envs mb disk = Some s ->
  server s = mb /\
  BackupPipeline.dele_positions (trace s) = [] /\
  deleted s = 0.
Proof.
  intros Hrun.
  apply (backup_run_keeps start_pos end_pos false
           (fun s0 => server s0 = mb /\
                      BackupPipeline.dele_positions (trace s0) = [] /\
                      deleted s0 = 0)
           envs mb disk s); [| |assumption].
  - intros env s0 (H1 & H2 & H3).
    destruct (iteration_counters false start_pos env s0)
      as (k & _ & _ & _ & Hd & Hsame).
    destruct (Hsame eq_refl) as [Hs Ht].
    rewrite Hs, Ht, Hd. repeat split; auto; lia.
  - repeat split.
Qed.

End BackupCounters.

Section BackupCountersExamples.
Import Pop3 BackupPipeline Scenarios.

(** Three messages asked for, deleting, the first commit rejected: the
    batch is downloaded again and both numbers are 3. *)
Lemma backup_counts_are_bounded_and_agree_witness :
  0 <= 3 <= Z.max 0 (3 - 1 + 1) /\ 3 = (if true then 3 else 0).
Proof.
  apply (backup_counts_are_bounded_and_agree 1 3 true
           [commit_rejected; all_ok] three_messages [] 3 3).
  vm_compute. reflexivity.
Defined.

Lemma backup_only_leaves_the_mailbox_alone_witness :
  exists s,
    backup_run 1 3 false [no_stat; all_ok] three_messages [] = Some s /\
    server s = three_messages /\
    BackupPipeline.dele_positions (trace s) = [] /\
    deleted s = 0.
Proof.
  eexists. split; [vm_compute; reflexivity|].
  apply (backup_only_leaves_the_mailbox_alone 1 3 [no_stat; all_ok]
           three_messages []).
  vm_compute. reflexivity.
Defined.

End BackupCountersExamples.

(** ** What a backup that deletes may remove *)

Section BackupSafety.
Import Pop3 BackupPipeline MailboxChange.

Lemma kept_from_ext (m1 m2 : list Z) (mb : mailbox) :
  forall pos,
    (forall p, pos <= p -> (In p m1 <-> In p m2)) ->
    kept_from m1 pos mb = kept_from m2 pos mb.
Proof.
  induction mb as [|m mb IH]; intros pos Hext; [reflexivity|].
  cbn [kept_from].
  assert (is_marked m1 pos = is_marked m2 pos) as ->.
  { destruct (is_marked m1 pos) eqn:H1, (is_marked m2 pos) eqn:H2; auto.
    - apply is_marked_In in H1. apply Hext in H1; [|lia].
      apply is_marked_In in H1. congruence.
    - apply is_marked_In in H2. apply Hext in H2; [|lia].
      apply is_marked_In in H2. congruence. }
  rewrite (IH (pos + 1)); [reflexivity|]. intros p Hp. apply Hext. lia.
Qed.

(** A commit removes no more messages than there are marks. *)
Lemma kept_from_at_least (mb : mailbox) :
  forall marks pos,
    (length mb <= length (kept_from marks pos mb) + length marks)%nat.
Proof.
  induction mb as [|m mb IH]; intros marks pos; simpl; [lia|].
  destruct (is_marked marks pos) eqn:Hm.
  - apply is_marked_In in Hm.
    rewrite (kept_from_ext marks (remove Z.eq_dec pos marks) mb (pos + 1)).
    + pose proof (IH (remove Z.eq_dec pos marks) (pos + 1)).
      pose proof (remove_length_lt Z.eq_dec marks pos Hm). lia.
    + intros p Hp. split.
      * intros Hin. apply in_in_remove; [lia | assumption].
      * intros Hin. now apply in_remove in Hin.
  - simpl. specialize (IH marks (pos + 1)). lia.
Qed.

(** A pass leaves the mailbox and [deleted] as they are, or, when
    deleting, commits the marks of a downloaded batch that lies in
    [current_start .. current_start + batch_count - 1] and counts the
    whole batch as deleted. *)
Lemma iteration_server (delete_after : bool) (start_pos : Z)
    (env : session_env) (s : state) :
  let cs := current_start_of delete_after start_pos s in
  let bc := batch_count_of delete_after start_pos s in
  let s' := snd (iteration delete_after start_pos env s) in
  (server s' = server s /\ deleted s' = deleted s) \/
  (exists batch : list (Z * archive_entry),
     delete_after = true /\ batch <> [] /\
     incl (map fst batch) (range cs (cs + bc)) /\
     cs <= stat (server s) /\
     server s' = commit (server s)
                   (filter (dele env (server s)) (map fst batch)) /\
     deleted s' = deleted s + Z.of_nat (length batch)).
Proof.
  cbv zeta. unfold iteration.
  destruct (connect_ok env); cbn [negb].
  2:{ cbv zeta. destruct (_ >=? max_failures); left; split; reflexivity. }
  destruct (stat_ok env); cbn [negb]; [|left; split; reflexivity].
  cbv zeta.
  destruct (Z.gtb_spec (current_start_of delete_after start_pos s)
              (stat (server s))) as [Hbeyond|Hbeyond];
    [left; split; reflexivity|].
  match goal with |- context [read_batch ?e ?m ?b ?l ?n ?c] =>
    pose proof (read_batch_spec e m b l n c) as Hspec;
    destruct (read_batch e m b l n c) as [[batch cf] reads]
  end.
  destruct (Hspec _ _ _ eq_refl) as (_ & _ & _ & _ & Hincl & _).
  clear Hspec.
  replace (current_start_of delete_after start_pos s
           + batch_count_of delete_after start_pos s - 1 + 1)
    with (current_start_of delete_after start_pos s
          + batch_count_of delete_after start_pos s) in Hincl by lia.
  destruct (cf >=? max_failures); [left; split; reflexivity|].
  destruct delete_after; [|left; split; reflexivity].
  destruct (map fst batch) as [|p ps] eqn:Hfst; [left; split; reflexivity|].
  unfold mark_batch.
  destruct (quit_ok env); [|left; split; reflexivity].
  right. exists batch. cbn [snd server deleted]. rewrite Hfst.
  repeat split; try assumption.
  - intros ->. discriminate.
  - rewrite <- Hfst, length_map. reflexivity.
Qed.

(** X12. A backup that deletes, whatever the transport does: the messages
    before [start_pos] and after [end_pos] are all still in the mailbox,
    in place, and between them is what remains of the range; the number
    of messages gone is at most the [deleted] the function reports. *)
Theorem backup_deletes_only_inside_the_range
    (start_pos end_pos : Z) (envs : list session_env) (mb : mailbox)
    (disk : list archive_entry) (s : state) :
  1 <= start_pos ->
  backup_run start_pos end_pos true envs mb disk = Some s ->
  exists mid,
    subseq mid (the_range start_pos (end_pos - start_pos + 1) mb) /\
    server s = before_range start_pos mb ++ mid
                 ++ after_range start_pos (end_pos - start_pos + 1) mb /\
    0 <= stat mb - stat (server s) <= deleted s.
Proof.
  intros Hstart Hrun.
  set (total := end_pos - start_pos + 1) in *.
  assert (Hmb : stat mb
                = Z.of_nat (length (before_range start_pos mb))
                  + Z.of_nat (length (the_range start_pos total mb))
                  + Z.of_nat (length (after_range start_pos total mb))).
  { rewrite (mailbox_parts start_pos total mb) at 1.
    unfold stat. rewrite !length_app. lia. }
  assert (Hgoal : forall s0 mid,
    subseq mid (the_range start_pos total mb) ->
    server s0 = before_range start_pos mb ++ mid
                  ++ after_range start_pos total mb ->
    Z.of_nat (length (the_range start_pos total mb))
      - Z.of_nat (length mid) <= deleted s0 ->
    exists mid0,
      subseq mid0 (the_range start_pos total mb) /\
      server s0 = before_range start_pos mb ++ mid0
                    ++ after_range start_pos total mb /\
      0 <= stat mb - stat (server s0) <= deleted s0).
  { intros s0 mid Hsub Hsrv Hgone. exists mid.
    split; [assumption|]. split; [assumption|].
    rewrite Hmb, Hsrv. unfold stat. rewrite !length_app.
    apply subseq_length in Hsub. lia. }
  destruct (Z.le_gt_cases total 0) as [Hneg|Hpos].
  - (* nothing asked for: the loop is not entered *)
    unfold backup_run in Hrun.
    assert (s = initial start_pos end_pos mb disk) as ->.
    { destruct envs; simpl in Hrun; fold total in Hrun;
        (destruct (Z.gtb_spec total 0); [lia|]); congruence. }
    apply (Hgoal _ (the_range start_pos total mb));
      [apply subseq_refl | apply mailbox_parts | simpl; lia].
  - pose proof (backup_run_keeps start_pos end_pos true
      (fun s0 => 0 <= backed_up s0 /\ 0 <= remaining s0 /\
                 backed_up s0 + remaining s0 = total /\
                 deleted s0 = backed_up s0 /\
                 exists mid,
                   subseq mid (the_range start_pos total mb) /\
                   server s0 = before_range start_pos mb ++ mid
                                 ++ after_range start_pos total mb /\
                   Z.of_nat (length (the_range start_pos total mb))
                     - Z.of_nat (length mid) <= deleted s0)
      envs mb disk s) as Hkeep.
    cbv beta in Hkeep.
    destruct Hkeep as (_ & _ & _ & _ & mid & Hsub & Hsrv & Hgone);
      [| |assumption|now apply (Hgoal s mid)].
    + intros env s0 (H1 & H2 & H3 & H4 & mid & Hsub & Hsrv & Hgone).
      destruct (iteration_counters true start_pos env s0)
        as (k & Hk & Hb & Hr & Hd & _).
      pose proof (iteration_server true start_pos env s0) as Hserver.
      cbv zeta in Hserver.
      unfold batch_count_of, current_start_of in Hk, Hserver.
      set (s' := snd (iteration true start_pos env s0)) in *.
      rewrite Hb, Hr, Hd, H4.
      split; [lia|]. split; [lia|]. split; [lia|]. split; [reflexivity|].
      destruct Hserver as [[Hsame Hdel] |
        (batch & _ & Hne & Hincl & Hle & Hcommit & Hdel)].
      * exists mid. rewrite Hsame. repeat split; try assumption. lia.
      * assert (Hbc : 0 < Z.min (Z.min batch_size (remaining s0))
                              (stat (server s0) - start_pos + 1)).
        { destruct batch as [|[p e] batch]; [contradiction|].
          pose proof (Hincl p (or_introl eq_refl)) as Hp.
          apply In_range in Hp. lia. }
        assert (Hpre := before_range_length start_pos mb ltac:(
          pose proof (subseq_length _ _ Hsub);
          rewrite Hsrv in Hle; unfold stat in Hle |- *;
          rewrite !length_app in Hle;
          rewrite (mailbox_parts start_pos total mb) at 1;
          rewrite !length_app; lia)).
        assert (Hfits : start_pos - 1 <= stat mb) by lia.
        assert (Hrange := the_range_length start_pos total mb Hstart Hfits).
        assert (Hpost := after_range_length start_pos total mb Hstart Hfits).
        assert (Hn : stat (server s0)
                     = Z.of_nat (length (before_range start_pos mb))
                       + Z.of_nat (length mid)
                       + Z.of_nat (length (after_range start_pos total mb))).
        { rewrite Hsrv. unfold stat. rewrite !length_app. lia. }
        assert (Hk' : k = Z.of_nat (length batch)) by lia.
        exists (kept_from (filter (dele env (server s0)) (map fst batch))
                  (1 + Z.of_nat (length (before_range start_pos mb))) mid).
        split; [|split].
        -- eapply subseq_trans; [apply kept_from_subseq | assumption].
        -- rewrite Hcommit, Hsrv. apply commit_inside.
           intros p Hp. apply incl_filter, Hincl, In_range in Hp. lia.
        -- pose proof (kept_from_at_least mid
                         (filter (dele env (server s0)) (map fst batch))
                         (1 + Z.of_nat (length (before_range start_pos mb))))
             as Hkept.
           pose proof (filter_length_le (dele env (server s0))
                         (map fst batch)) as Hfl.
           rewrite length_map in Hfl. lia.
    + simpl. fold total. repeat split; try lia.
      exists (the_range start_pos total mb).
      split; [apply subseq_refl|]. split; [apply mailbox_parts | lia].
Qed.

End BackupSafety.

(** ** The backup on a transport that never fails *)

Section ReliableBackup.
Import Pop3 BackupPipeline MailboxChange.

Lemma range_cons (lo : Z) (k : nat) :
  range lo (lo + Z.of_nat (S k))
  = lo :: range (lo + 1) (lo + 1 + Z.of_nat k).
Proof.
  unfold range.
  replace (Z.to_nat (lo + Z.of_nat (S k) - lo)) with (S k) by lia.
  replace (Z.to_nat (lo + 1 + Z.of_nat k - (lo + 1))) with k by lia.
  cbn [seq map]. f_equal; [lia|].
  rewrite <- seq_shift, map_map. apply map_ext. intros i. lia.
Qed.

Lemma skipn_nth_error {A : Type} (l : list A) :
  forall i x, nth_error l i = Some x -> skipn i l = x :: skipn (S i) l.
Proof.
  induction l as [|a l IH]; intros [|i] x; simpl; try discriminate.
  - now intros [= <-].
  - intros H. now apply IH.
Qed.

Lemma firstn_plus {A : Type} (l : list A) (d b : nat) :
  firstn (d + b) l = firstn d l ++ firstn b (skipn d l).
Proof.
  revert l. induction d as [|d IH]; intros [|a l]; simpl;
    try reflexivity.
  - now rewrite firstn_nil.
  - now rewrite IH.
Qed.

(** When every RETR succeeds, a batch inside the mailbox is downloaded
    whole: its positions in order, and with them that block of the
    mailbox. *)
Lemma read_batch_block (env : session_env) (mb : mailbox) (bu : Z) :
  (forall p, retr_ok env p = true) ->
  forall (k : nat) cs n cf,
    1 <= cs -> cs - 1 + Z.of_nat k <= stat mb ->
    exists batch evs,
      read_batch env mb bu (range cs (cs + Z.of_nat k)) n cf
        = (batch, cf, evs) /\
      map fst batch = range cs (cs + Z.of_nat k) /\
      map content (map snd batch)
        = firstn k (skipn (Z.to_nat (cs - 1)) mb).
Proof.
  intros Hretr. induction k as [|k IH]; intros cs n cf Hcs Hfits.
  - exists [], []. unfold range.
    replace (Z.to_nat (cs + Z.of_nat 0 - cs)) with 0%nat by lia.
    repeat split.
  - rewrite range_cons. cbn [read_batch]. unfold retr. rewrite Hretr.
    assert (Hlt : (Z.to_nat (cs - 1) < length mb)%nat)
      by (unfold stat in Hfits; lia).
    destruct (nth_error mb (Z.to_nat (cs - 1))) as [m|] eqn:Hm;
      [|apply nth_error_None in Hm; lia].
    unfold message_at at 1. destruct (Z.leb_spec 1 cs); [|lia]. rewrite Hm.
    destruct (IH (cs + 1) (n + 1) cf ltac:(lia) ltac:(lia))
      as (batch & evs & Hread & Hfst & Hcontent).
    rewrite Hread. eexists _, _. split; [reflexivity|].
    cbn [map fst snd content]. split; [now rewrite Hfst|].
    rewrite Hcontent, (skipn_nth_error mb _ m Hm). cbn [firstn].
    replace (Z.to_nat (cs + 1 - 1)) with (S (Z.to_nat (cs - 1))) by lia.
    reflexivity.
Qed.

(** A pass on a reliable transport with a batch to read: the batch is
    archived whole, and removed whole when deleting. *)
Lemma iteration_reliable (delete_after : bool) (start_pos : Z)
    (env : session_env) (s : state) :
  reliable env ->
  let cs := current_start_of delete_after start_pos s in
  let bc := batch_count_of delete_after start_pos s in
  1 <= cs -> 0 < bc -> consecutive_failures s < max_failures ->
  exists s' new,
    iteration delete_after start_pos env s = (Continue, s') /\
    backed_up s' = backed_up s + bc /\
    remaining s' = remaining s - bc /\
    deleted s' = deleted s + (if delete_after then bc else 0) /\
    consecutive_failures s' = 0 /\
    archive s' = archive s ++ new /\
    Permutation (map content new)
      (firstn (Z.to_nat bc) (skipn (Z.to_nat (cs - 1)) (server s))) /\
    server s' = (if delete_after
                 then commit (server s) (range cs (cs + bc))
                 else server s).
Proof.
  intros (Hc & Hs & Hq & Hr & _ & Hd) cs bc Hcs Hbc Hcf.
  assert (Hfits : cs - 1 + Z.of_nat (Z.to_nat bc) <= stat (server s))
    by (unfold bc, batch_count_of in *; fold cs in Hbc |- *; lia).
  destruct (read_batch_block env (server s) (backed_up s) Hr (Z.to_nat bc)
              cs 0 (consecutive_failures s) Hcs Hfits)
    as (batch & evs & Hread & Hfst & Hcontent).
  replace (cs + Z.of_nat (Z.to_nat bc)) with (cs + bc) in Hread, Hfst by lia.
  assert (Hlen : Z.of_nat (length batch) = bc).
  { rewrite <- (length_map fst), Hfst, range_length. lia. }
  unfold iteration. rewrite Hc, Hs. cbn [negb]. cbv zeta.
  fold cs. fold bc.
  destruct (Z.gtb_spec cs (stat (server s))) as [Hb|Hb]; [lia|].
  replace (cs + bc - 1 + 1) with (cs + bc) by lia. rewrite Hread.
  destruct (Z.geb_spec (consecutive_failures s) max_failures); [lia|].
  assert (Hperm : Permutation (map content (zip_writes (map snd batch)))
                    (firstn (Z.to_nat bc)
                       (skipn (Z.to_nat (cs - 1)) (server s)))).
  { rewrite <- Hcontent. apply Permutation_map, zip_writes_perm. }
  destruct delete_after.
  - rewrite Hfst.
    destruct (range cs (cs + bc)) as [|p ps] eqn:Hrange.
    { apply (f_equal (@length Z)) in Hrange.
      rewrite range_length in Hrange. simpl in Hrange. lia. }
    unfold mark_batch. rewrite Hq.
    eexists _, _. split; [reflexivity|].
    cbn [backed_up remaining deleted consecutive_failures archive server].
    assert (Hlen' : Z.of_nat (length (p :: ps)) = bc)
      by (rewrite <- Hfst, length_map; exact Hlen).
    rewrite length_map, Hlen, Hlen'. repeat split; try lia; try assumption.
    f_equal. apply filter_all. rewrite Forall_forall. intros i Hi.
    rewrite <- Hrange in Hi. apply In_range in Hi.
    unfold dele. rewrite Hd. cbn [andb].
    apply andb_true_iff. split; apply Z.leb_le; lia.
  - eexists _, _. split.
    { destruct (map fst batch); reflexivity. }
    cbn [backed_up remaining deleted consecutive_failures archive server].
    rewrite length_map, Hlen. repeat split; try lia; assumption.
Qed.

(** The loop on reliable transports, started anywhere on its way through
    the range: it ends with the whole range archived. *)
Lemma backup_reliable (delete_after : bool) (start_pos total : Z)
    (mb : mailbox) (disk : list archive_entry) :
  1 <= start_pos -> 1 <= total -> start_pos + total - 1 <= stat mb ->
  forall envs (d : nat) s,
    Forall reliable envs ->
    (Z.to_nat total - d <= length envs)%nat ->
    (d <= Z.to_nat total)%nat ->
    backed_up s = Z.of_nat d -> remaining s = total - Z.of_nat d ->
    deleted s = (if delete_after then Z.of_nat d else 0) ->
    consecutive_failures s = 0 ->
    server s = (if delete_after
                then before_range start_pos mb
                       ++ skipn d (the_range start_pos total mb)
                       ++ after_range start_pos total mb
                else mb) ->
    (exists new, archive s = disk ++ new /\
       Permutation (map content new)
         (firstn d (the_range start_pos total mb))) ->
    exists s' new,
      run delete_after start_pos envs s = Some s' /\
      backed_up s' = total /\
      deleted s' = (if delete_after then total else 0) /\
      archive s' = disk ++ new /\
      Permutation (map content new) (the_range start_pos total mb) /\
      server s' = (if delete_after
                   then before_range start_pos mb
                          ++ after_range start_pos total mb
                   else mb).
Proof.
  intros Hstart Htotal Hfits.
  assert (Hpre := before_range_length start_pos mb ltac:(lia)).
  assert (Hrange := the_range_length start_pos total mb Hstart ltac:(lia)).
  assert (Hpost := after_range_length start_pos total mb Hstart ltac:(lia)).
  assert (Hmb : stat mb
                = Z.of_nat (length (before_range start_pos mb))
                  + Z.of_nat (length (the_range start_pos total mb))
                  + Z.of_nat (length (after_range start_pos total mb))).
  { rewrite (mailbox_parts start_pos total mb) at 1.
    unfold stat. rewrite !length_app. lia. }
  assert (Hdone : forall envs (d : nat) s,
    d = Z.to_nat total ->
    backed_up s = Z.of_nat d -> remaining s = total - Z.of_nat d ->
    deleted s = (if delete_after then Z.of_nat d else 0) ->
    server s = (if delete_after
                then before_range start_pos mb
                       ++ skipn d (the_range start_pos total mb)
                       ++ after_range start_pos total mb
                else mb) ->
    (exists new, archive s = disk ++ new /\
       Permutation (map content new)
         (firstn d (the_range start_pos total mb))) ->
    exists s' new,
      run delete_after start_pos envs s = Some s' /\
      backed_up s' = total /\
      deleted s' = (if delete_after then total else 0) /\
      archive s' = disk ++ new /\
      Permutation (map content new) (the_range start_pos total mb) /\
      server s' = (if delete_after
                   then before_range start_pos mb
                          ++ after_range start_pos total mb
                   else mb)).
  { intros envs d s -> Hb Hr Hdel Hsrv (new & Harch & Hperm).
    exists s, new.
    assert (run delete_after start_pos envs s = Some s) as ->.
    { destruct envs; simpl; (destruct (Z.gtb_spec (remaining s) 0); [lia|]);
        reflexivity. }
    rewrite firstn_all2 in Hperm by lia.
    rewrite skipn_all2 in Hsrv by lia.
    repeat split; try assumption; try lia.
    destruct delete_after; lia. }
  induction envs as [|env envs IH];
    intros d s Hrel Hfuel Hd Hb Hr Hdel Hcf Hsrv Harch.
  - apply (Hdone [] d s); try assumption. simpl in Hfuel. lia.
  - destruct (Nat.eq_dec d (Z.to_nat total)) as [Hall|Hmore];
      [now apply (Hdone (env :: envs) d s)|].
    inversion Hrel as [|? ? Henv Hrel']; subst.
    assert (Hn : stat (server s)
                 = if delete_after then stat mb - Z.of_nat d else stat mb).
    { rewrite Hsrv. destruct delete_after; [|reflexivity].
      unfold stat in *. rewrite !length_app, length_skipn. lia. }
    assert (Hcs : current_start_of delete_after start_pos s
                  = if delete_after then start_pos
                    else start_pos + Z.of_nat d).
    { unfold current_start_of. now rewrite Hb. }
    assert (Hbc : batch_count_of delete_after start_pos s
                  = Z.min batch_size (total - Z.of_nat d)).
    { unfold batch_count_of. rewrite Hcs, Hn, Hr.
      destruct delete_after; lia. }
    destruct (iteration_reliable delete_after start_pos env s Henv)
      as (s' & new' & Hit & Hb' & Hr' & Hdel' & Hcf' & Harch' & Hperm'
          & Hsrv').
    { rewrite Hcs. destruct delete_after; lia. }
    { rewrite Hbc. unfold batch_size. lia. }
    { rewrite Hcf. unfold max_failures. lia. }
    rewrite Hbc in *. rewrite Hcs in *.
    set (bc := Z.min batch_size (total - Z.of_nat d)) in *.
    assert (Hbcpos : 0 < bc <= total - Z.of_nat d)
      by (unfold bc, batch_size; lia).
    (* the block that was read is the next part of the range *)
    assert (Hblock :
      firstn (Z.to_nat bc)
        (skipn (Z.to_nat ((if delete_after then start_pos
                           else start_pos + Z.of_nat d) - 1)) (server s))
      = firstn (Z.to_nat bc) (skipn d (the_range start_pos total mb))).
    { rewrite Hsrv. destruct delete_after.
      - rewrite skipn_app, skipn_all2 by lia.
        replace (Z.to_nat (start_pos - 1)
                 - length (before_range start_pos mb))%nat with 0%nat by lia.
        cbn [skipn app]. rewrite firstn_app.
        replace (Z.to_nat bc
                 - length (skipn d (the_range start_pos total mb)))%nat
          with 0%nat by (rewrite length_skipn; lia).
        cbn [firstn]. now rewrite app_nil_r.
      - unfold the_range. rewrite skipn_firstn_comm, firstn_firstn.
        rewrite skipn_skipn.
        replace (Nat.min (Z.to_nat bc) (Z.to_nat total - d))
          with (Z.to_nat bc) by lia.
        do 2 f_equal. lia. }
    rewrite Hblock in Hperm'.
    cbn [run]. rewrite Hit.
    destruct (Z.gtb_spec (remaining s) 0) as [_|Hrem]; [|lia].
    destruct Harch as (new & Harch & Hperm).
    apply (IH (d + Z.to_nat bc)%nat s' Hrel').
    + simpl in Hfuel. lia.
    + lia.
    + lia.
    + lia.
    + rewrite Hdel', Hdel. destruct delete_after; lia.
    + assumption.
    + rewrite Hsrv'. destruct delete_after; [|assumption].
      rewrite Hsrv, commit_inside.
      * f_equal. f_equal. rewrite Nat.add_comm, <- skipn_skipn.
        apply kept_from_block; [rewrite length_skipn; lia|].
        intros p Hp. rewrite In_range. lia.
      * intros p Hp. apply In_range in Hp. rewrite length_skipn. lia.
    + exists (new ++ new'). split.
      * rewrite Harch', Harch. now rewrite app_assoc.
      * rewrite map_app, firstn_plus. now apply Permutation_app.
Qed.

(** X13. On transports that never fail, for a range that fits the
    mailbox: the function returns, every message of the range has been
    added to the archive exactly once (the archive gains the range, in
    some order), [backed_up] is the size of the range, and the mailbox is
    untouched without [delete_after] and has lost exactly the range with
    it, [deleted] then being the size of the range too. *)
Theorem reliable_backup_archives_exactly_the_range
    (start_pos end_pos : Z) (delete_after : bool)
    (envs : list session_env) (mb : mailbox) (disk : list archive_entry) :
  Forall reliable envs ->
  1 <= start_pos -> start_pos <= end_pos -> end_pos <= stat mb ->
  (Z.to_nat (end_pos - start_pos + 1) <= length envs)%nat ->
  exists s new,
    backup_run start_pos end_pos delete_after envs mb disk = Some s /\
    archive s = disk ++ new /\
    Permutation (map content new)
      (the_range start_pos (end_pos - start_pos + 1) mb) /\
    server s = (if delete_after
                then before_range start_pos mb
                       ++ after_range start_pos (end_pos - start_pos + 1) mb
                else mb) /\
    backup_emails_to_zip start_pos end_pos delete_after envs mb disk
      = Some (end_pos - start_pos + 1,
              if delete_after then end_pos - start_pos + 1 else 0).
Proof.
  intros Hrel Hstart Hle Hend Hfuel.
  destruct (backup_reliable delete_after start_pos (end_pos - start_pos + 1)
              mb disk Hstart ltac:(lia) ltac:(lia) envs 0%nat
              (initial start_pos end_pos mb disk) Hrel)
    as (s & new & Hrun & Hb & Hd & Harch & Hperm & Hsrv).
  - lia.
  - lia.
  - reflexivity.
  - simpl. lia.
  - simpl. now destruct delete_after.
  - reflexivity.
  - cbn [initial server skipn]. destruct delete_after; [|reflexivity].
    apply mailbox_parts.
  - exists []. split; [cbn [initial archive]; now rewrite app_nil_r|].
    constructor.
  - exists s, new. unfold backup_emails_to_zip, backup_run. rewrite Hrun.
    repeat split; try assumption. cbn [option_map]. now rewrite Hb, Hd.
Qed.

End ReliableBackup.

Section BackupSafetyExamples.
Import Pop3 BackupPipeline MailboxChange Scenarios.

(** The second of three messages backed up and deleted, the first commit
    rejected. *)
Lemma backup_deletes_only_inside_the_range_witness :
  exists s,
    backup_run 2 2 true [commit_rejected; all_ok] three_messages []
      = Some s /\
    exists mid,
      subseq mid (the_range 2 (2 - 2 + 1) three_messages) /\
      server s = before_range 2 three_messages ++ mid
                   ++ after_range 2 (2 - 2 + 1) three_messages /\
      0 <= stat three_messages - stat (server s) <= deleted s.
Proof.
  eexists. split; [vm_compute; reflexivity|].
  apply (backup_deletes_only_inside_the_range 2 2
           [commit_rejected; all_ok] three_messages []);
    [lia | vm_compute; reflexivity].
Defined.

Lemma reliable_backup_archives_exactly_the_range_witness :
  exists s new,
    backup_run 2 3 true [all_ok; all_ok] three_messages [] = Some s /\
    archive s = [] ++ new /\
    Permutation (map content new) (the_range 2 (3 - 2 + 1) three_messages) /\
    server s = (if true
                then before_range 2 three_messages
                       ++ after_range 2 (3 - 2 + 1) three_messages
                else three_messages) /\
    backup_emails_to_zip 2 3 true [all_ok; all_ok] three_messages []
      = Some (3 - 2 + 1, if true then 3 - 2 + 1 else 0).
Proof.
  apply (reliable_backup_archives_exactly_the_range 2 3 true
           [all_ok; all_ok] three_messages []).
  - repeat constructor.
  - lia.
  - lia.
  - vm_compute. discriminate.
  - simpl. lia.
Defined.

End BackupSafetyExamples.

(** ** How many headers the search fetches *)

Section SearchCost.
Import Datetime BoundaryResolver.

Variable pop : session.
Variable N : Z.
Variable T : datetime.
Hypothesis dated : all_dated pop N.

(** On dated positions a pass fetches one header and leaves at most half
    of the window. *)
Lemma step_halves (gte : bool) (s : search_state) :
  window N s -> left s <= right s ->
  let s' := step pop N T gte s in
  window N s' /\
  2 * (right s' - left s' + 1) <= right s - left s + 1 /\
  length (probed s') = S (length (probed s)).
Proof.
  intros (Hl & Hr & _) Hle.
  pose proof (midpoint_between _ _ Hle) as Hm.
  destruct (dated ((left s + right s) / 2)) as [d Hd]; [lia|].
  cbv zeta. rewrite (step_dated pop N T gte s d Hd). cbv zeta.
  pose proof (Z.mul_div_le (left s + right s) 2 ltac:(lia)) as Hlo.
  pose proof (Z.mul_succ_div_gt (left s + right s) 2 ltac:(lia)) as Hhi.
  unfold window.
  destruct gte; [destruct (geb d T) | destruct (ltb d T)];
    cbn [left right probed]; rewrite length_app; cbn [length];
    (split; [|split]; lia).
Qed.

Lemma loop_within (gte : bool) :
  forall (k fuel : nat) (s : search_state),
    window N s ->
    right s - left s + 1 < 2 ^ Z.of_nat k ->
    (k <= fuel)%nat ->
    exists s',
      loop fuel pop N T gte s = Some s' /\
      (length (probed s') <= length (probed s) + k)%nat.
Proof.
  induction k as [|k IH]; intros fuel s Hw Hlt Hfuel.
  - exists s. simpl in Hlt.
    destruct fuel; simpl; (destruct (Z.leb_spec (left s) (right s)); [lia|]);
      split; try reflexivity; lia.
  - destruct fuel as [|fuel]; [lia|]. simpl.
    destruct (Z.leb_spec (left s) (right s)) as [Hle|Hgt].
    + destruct (step_halves gte s Hw Hle) as (Hw' & Hhalf & Hlen).
      rewrite Nat2Z.inj_succ, Z.pow_succ_r in Hlt by lia.
      destruct (IH fuel (step pop N T gte s) Hw' ltac:(lia) ltac:(lia))
        as (s' & Hloop & Hprobed).
      exists s'. split; [assumption|]. lia.
    + exists s. split; [reflexivity | lia].
Qed.

(** X14. On a mailbox of N >= 1 messages that all carry a date, in any
    order, the search ends within log2(N) + 1 passes and has then fetched
    at most log2(N) + 1 headers, in either mode. *)
Theorem search_fetches_logarithmically_many_headers
    (find_first_gte : bool) (fuel : nat) :
  1 <= N ->
  (Z.to_nat (Z.log2 N) + 1 <= fuel)%nat ->
  exists s,
    loop fuel pop N T find_first_gte (initial N find_first_gte) = Some s /\
    binary_search_date fuel pop N T find_first_gte = Some (result s) /\
    (length (probed s) <= Z.to_nat (Z.log2 N) + 1)%nat.
Proof.
  intros HN Hfuel.
  destruct (loop_within find_first_gte (Z.to_nat (Z.log2 N) + 1) fuel
              (initial N find_first_gte)) as (s & Hloop & Hlen).
  - unfold window, initial. simpl. lia.
  - unfold initial. cbn [left right].
    pose proof (Z.log2_spec N ltac:(lia)) as [_ Hup].
    pose proof (Z.log2_nonneg N).
    replace (Z.of_nat (Z.to_nat (Z.log2 N) + 1)) with (Z.succ (Z.log2 N))
      by lia.
    lia.
  - assumption.
  - exists s. unfold binary_search_date. rewrite Hloop.
    split; [reflexivity|]. split; [reflexivity|]. simpl in Hlen. lia.
Qed.

End SearchCost.

Section SearchCostExamples.
Import Datetime BoundaryResolver Scenarios.

Lemma search_fetches_logarithmically_many_headers_witness :
  exists s,
    loop 4 ten_days 10 (mk_datetime 2020 1 5 0) true (initial 10 true)
      = Some s /\
    binary_search_date 4 ten_days 10 (mk_datetime 2020 1 5 0) true
      = Some (result s) /\
    (length (probed s) <= Z.to_nat (Z.log2 10) + 1)%nat.
Proof.
  apply (search_fetches_logarithmically_many_headers ten_days 10
           (mk_datetime 2020 1 5 0) ten_days_all_dated true 4).
  - lia.
  - vm_compute. lia.
Defined.

End SearchCostExamples.

(** ** The program as a whole *)

Section MainResults.
Import Datetime Pop3 BoundaryResolver DeletionRange MailboxChange Main.

(** A backup that does not delete leaves the mailbox as it is. *)
Lemma backup_only_server (start_pos end_pos : Z) (envs : list session_env)
    (mb : mailbox) (disk : list BackupPipeline.archive_entry)
    (s : BackupPipeline.state) :
  BackupPipeline.backup_run start_pos end_pos false envs mb disk = Some s ->
  BackupPipeline.server s = mb.
Proof.
  intros Hrun.
  apply (backup_run_keeps start_pos end_pos false
           (fun s0 => BackupPipeline.server s0 = mb) envs mb disk s);
    [|reflexivity|assumption].
  intros env s0 Hs0.
  destruct (iteration_counters false start_pos env s0)
    as (k & _ & _ & _ & _ & Hsame).
  destruct (Hsame eq_refl) as [Hs _]. now rewrite Hs.
Qed.

(** X15. Without [--delete] and without [--unhinged], whatever the
    configuration, the answers typed and the transport: a run of [main]
    that ends leaves the mailbox exactly as it was, and without
    [--backup] it writes nothing to the archive either. *)
Theorem without_delete_main_leaves_the_mailbox_alone
    (a : args) (credentials : bool) (c : DeleteEngine.config)
    (req : request) (confirmed : bool) (fuel : nat)
    (first : session_env) (envs : list session_env) (final : session_env)
    (mb mb' : mailbox) (disk disk' : list BackupPipeline.archive_entry)
    (rep : report) :
  delete a = false -> unhinged a = false ->
  main a credentials c req confirmed fuel first envs final mb disk
    = Some (rep, mb', disk') ->
  mb' = mb /\ (backup a = false -> disk' = disk).
Proof.
  intros Hdelete Hunhinged. unfold main. rewrite Hdelete, Hunhinged.
  cbn [orb negb andb].
  destruct credentials; cbn [negb]; [|now intros [= <- <- <-]].
  destruct (connect_ok first); cbn [negb]; [|now intros [= <- <- <-]].
  destruct (stat_ok first); cbn [negb]; [|now intros [= <- <- <-]].
  destruct (stat mb =? 0); [now intros [= <- <- <-]|].
  destruct (main_deletion_range fuel (session_of first mb) (stat mb) req)
    as [r| |]; [|now intros [= <- <- <-]|discriminate].
  cbv zeta.
  destruct (quit_ok first); cbn [negb]; [|now intros [= <- <- <-]].
  destruct (count r =? 0); [now intros [= <- <- <-]|].
  destruct (start_pos r) as [sp|]; [|now intros [= <- <- <-]].
  destruct (end_pos r) as [ep|]; [|now intros [= <- <- <-]].
  destruct (backup a).
  - destruct confirmed; cbn [negb]; [|now intros [= <- <- <-]].
    destruct (BackupPipeline.backup_run sp ep false envs mb disk)
      as [s|] eqn:Hrun; [|discriminate].
    intros [= <- <- <-]. split; [|discriminate].
    now apply (backup_only_server sp ep envs mb disk).
  - now intros [= <- <- <-].
Qed.








End MainResults.

Section MainExamples.
Import Datetime Pop3 BoundaryResolver DeletionRange MailboxChange Main
  Scenarios.



(** Backup only, cutoff 2020-01-03: two messages are archived and the
    mailbox keeps all three. *)
Lemma without_delete_main_leaves_the_mailbox_alone_witness :
  exists rep disk',
    main (mk_args false false true) true (DeleteEngine.mk_config None)
      (Before (mk_datetime 2020 1 3 0)) true 3 all_ok [all_ok; all_ok]
      all_ok three_messages [] = Some (rep, three_messages, disk') /\
    three_messages = three_messages /\
    (backup (mk_args false false true) = false -> disk' = []).
Proof.
  eexists _, _. split; [vm_compute; reflexivity|].
  eapply (without_delete_main_leaves_the_mailbox_alone
            (mk_args false false true) true (DeleteEngine.mk_config None)
            (Before (mk_datetime 2020 1 3 0)) true 3 all_ok [all_ok; all_ok]
            all_ok three_messages three_messages []);
    [reflexivity | reflexivity | vm_compute; reflexivity].
Defined.


End MainExamples.

(** ** Mailboxes with unreadable dates *)

Section UnreadableDates.
Import Datetime BoundaryResolver DeletionRange.

Lemma probe_neighbors_undated (pop : session) (N mid : Z) (offs : list Z) :
  (forall i, pop i = None) ->
  snd (probe_neighbors pop N mid offs) = None.
Proof.
  intros Hnone. induction offs as [|offset rest IH]; simpl; [reflexivity|].
  destruct (in_mailbox N (mid + offset)); [|exact IH].
  rewrite Hnone. destruct (probe_neighbors pop N mid rest). exact IH.
Qed.

(** With no date anywhere a pass moves the left bound ten past the
    midpoint and keeps the result. *)
Lemma step_undated (pop : session) (N : Z) (T : datetime) (gte : bool)
    (s : search_state) :
  (forall i, pop i = None) ->
  left (step pop N T gte s) = (left s + right s) / 2 + 10 /\
  right (step pop N T gte s) = right s /\
  result (step pop N T gte s) = result s.
Proof.
  intros Hnone. unfold step. rewrite Hnone.
  pose proof (probe_neighbors_undated pop N ((left s + right s) / 2)
                offsets Hnone) as Hp.
  destruct (probe_neighbors pop N ((left s + right s) / 2) offsets)
    as [calls r].
  simpl in Hp. subst r. repeat split.
Qed.

Lemma loop_undated (pop : session) (N : Z) (T : datetime) (gte : bool) :
  (forall i, pop i = None) ->
  forall fuel s,
    (Z.to_nat (right s - left s + 1) <= fuel)%nat ->
    exists s', loop fuel pop N T gte s = Some s' /\ result s' = result s.
Proof.
  intros Hnone. induction fuel as [|fuel IH]; intros s Hfuel; simpl.
  - destruct (Z.leb_spec (left s) (right s)); [lia|]. now exists s.
  - destruct (Z.leb_spec (left s) (right s)) as [Hle|Hgt]; [|now exists s].
    destruct (step_undated pop N T gte s Hnone) as (Hl & Hr & Hres).
    pose proof (midpoint_between _ _ Hle) as Hm.
    destruct (IH (step pop N T gte s)) as (s' & Hloop & Hres');
      [rewrite Hl, Hr; lia|].
    exists s'. split; [assumption | congruence].
Qed.

(** X17. When no header of the mailbox gives a date (none parses, or TOP
    fails every time), the search returns its sentinel, and so the cutoff
    mode selects the whole mailbox, 1 to [num_messages], for deletion,
    whatever the cutoff; the year mode selects nothing. *)
Theorem undated_mailbox_is_selected_whole_by_cutoff
    (pop : session) (N : Z) (T : datetime) (start_year end_year : Z)
    (fuel : nat) :
  1 <= N -> (forall i, pop i = None) ->
  1 <= start_year <= 9999 -> 0 <= end_year <= 9998 ->
  (Z.to_nat N <= fuel)%nat ->
  binary_search_date fuel pop N T true = Some (N + 1) /\
  main_deletion_range fuel pop N (Before T)
    = Returns (mk_range (Some 1) (Some N) N) /\
  main_deletion_range fuel pop N (DeleteYears start_year end_year)
    = Returns nothing.
Proof.
  intros HN Hnone Hsy Hey Hfuel.
  assert (Hsearch : forall T0,
    binary_search_date fuel pop N T0 true = Some (N + 1)).
  { intros T0. unfold binary_search_date.
    destruct (loop_undated pop N T0 true Hnone fuel (initial N true))
      as (s' & Hloop & Hres); [simpl; lia|].
    rewrite Hloop. simpl. now rewrite Hres. }
  split; [apply Hsearch|]. split.
  - unfold main_deletion_range, get_deletion_range.
    rewrite !Hnone, Hsearch. cbv zeta.
    destruct (Z.leb_spec (N + 1) 1); [lia|].
    do 2 f_equal; [f_equal|]; lia.
  - unfold main_deletion_range, get_deletion_range, parse_delete_years,
      first_of_year.
    destruct (Z.leb_spec 1 start_year); [|lia].
    destruct (Z.leb_spec start_year 9999); [|lia].
    destruct (Z.leb_spec 1 (end_year + 1)); [|lia].
    destruct (Z.leb_spec (end_year + 1) 9999); [|lia].
    cbn [andb]. rewrite !Hnone, !Hsearch. cbn [option_map]. cbv zeta.
    destruct (Z.gtb_spec (N + 1) (N + 1 - 1)); [reflexivity | lia].
Qed.

(** X18. When the newest message has no readable date and every other
    message is dated before the cutoff, the search never ends: at the
    last position it adopts the neighbour below, which sets the left
    bound back to the last position.  No number of passes is enough, for
    the search and for the cutoff mode of [get_deletion_range] as [main]
    calls it. *)
Theorem undated_newest_message_stalls_the_search
    (pop : session) (N : Z) (T : datetime) (fuel : nat) :
  2 <= N -> pop N = None ->
  (forall i, 1 <= i < N -> dated_before pop T i) ->
  binary_search_date fuel pop N T true = None /\
  main_deletion_range fuel pop N (Before T) = OutOfFuel.
Proof.
  intros HN Hlast Hbefore.
  assert (Hstep : forall s,
    right s = N -> 1 <= left s <= N ->
    right (step pop N T true s) = N /\ 1 <= left (step pop N T true s) <= N).
  { intros s Hr Hl.
    pose proof (midpoint_between (left s) (right s) ltac:(lia)) as Hm.
    destruct (Z.eq_dec ((left s + right s) / 2) N) as [Hmid|Hmid].
    - (* the midpoint is the undated last position *)
      destruct (Hbefore (N - 1) ltac:(lia)) as (d & Hd & Hlt).
      unfold step. rewrite Hmid, Hlast. unfold offsets.
      cbn [probe_neighbors].
      assert (in_mailbox N (N + 1) = false) as ->.
      { unfold in_mailbox. destruct (Z.leb_spec (N + 1) N); [lia|].
        apply andb_false_r. }
      assert (in_mailbox N (N + -1) = true) as ->.
      { unfold in_mailbox. apply andb_true_iff.
        split; apply Z.leb_le; lia. }
      replace (N + -1) with (N - 1) by lia. rewrite Hd.
      apply geb_lt in Hlt. rewrite Hlt. cbn [left right]. lia.
    - destruct (Hbefore ((left s + right s) / 2) ltac:(lia))
        as (d & Hd & Hlt).
      rewrite (step_dated pop N T true s d Hd). cbv zeta.
      apply geb_lt in Hlt. rewrite Hlt. cbn [left right]. lia. }
  assert (Hloop : forall n s,
    right s = N -> 1 <= left s <= N -> loop n pop N T true s = None).
  { induction n as [|n IH]; intros s Hr Hl; simpl;
      (destruct (Z.leb_spec (left s) (right s)); [|lia]).
    - reflexivity.
    - destruct (Hstep s Hr Hl) as [Hr' Hl']. now apply IH. }
  assert (Hsearch : binary_search_date fuel pop N T true = None).
  { unfold binary_search_date. rewrite Hloop; [reflexivity | reflexivity|].
    simpl. lia. }
  split; [assumption|].
  unfold main_deletion_range, get_deletion_range.
  destruct (Hbefore 1 ltac:(lia)) as (d & Hd & Hlt).
  rewrite Hd, Hlast, Hsearch. apply ltb_lt in Hlt. rewrite Hlt. reflexivity.
Qed.

End UnreadableDates.

Section UnreadableDatesExamples.
Import Datetime BoundaryResolver DeletionRange Scenarios.

Lemma undated_mailbox_is_selected_whole_by_cutoff_witness :
  binary_search_date 10 none_dated 10 (mk_datetime 2020 1 5 0) true
    = Some (10 + 1) /\
  main_deletion_range 10 none_dated 10 (Before (mk_datetime 2020 1 5 0))
    = Returns (mk_range (Some 1) (Some 10) 10) /\
  main_deletion_range 10 none_dated 10 (DeleteYears 2019 2020)
    = Returns nothing.
Proof.
  apply (undated_mailbox_is_selected_whole_by_cutoff none_dated 10
           (mk_datetime 2020 1 5 0) 2019 2020 10).
  - lia.
  - reflexivity.
  - lia.
  - lia.
  - simpl. lia.
Defined.

Lemma undated_newest_message_stalls_the_search_witness :
  binary_search_date 100 last_undated 2 (mk_datetime 2020 1 5 0) true = None /\
  main_deletion_range 100 last_undated 2 (Before (mk_datetime 2020 1 5 0))
    = OutOfFuel.
Proof.
  apply (undated_newest_message_stalls_the_search last_undated 2
           (mk_datetime 2020 1 5 0) 100).
  - lia.
  - reflexivity.
  - intros i Hi. assert (i = 1) as -> by lia.
    exists (mk_datetime 2020 1 1 0). split; [reflexivity|].
    unfold lt. simpl. lia.
Defined.

End UnreadableDatesExamples.

(** ** Loops that do nothing, and loops that do not end *)

Section DeleteEdgeCases.
Import Pop3 DeleteEngine MailboxChange.

Lemma delete_run_keeps (c : config) (target start : Z)
    (P : state -> Prop) (envs : list session_env) :
  (forall env s, In env envs -> P s ->
                 P (snd (iteration c target start env s))) ->
  forall s r s', run c target start envs s = Some (r, s') -> P s -> P s'.
Proof.
  induction envs as [|env envs IH]; intros Hstep s r s'; simpl;
    [discriminate|].
  intros Hrun HP.
  pose proof (Hstep env s (or_introl eq_refl) HP) as Hs.
  destruct (iteration c target start env s) as [[| x |] s1]; simpl in Hs.
  - apply (IH (fun e t He => Hstep e t (or_intror He)) s1 r s');
      assumption.
  - now injection Hrun as <- <-.
  - now injection Hrun as <- <-.
Qed.

(** X19. With a [BATCH_SIZE] of 0 or less in the configuration, whatever
    the transport does, the delete loop never removes a message, and the
    function, when it returns, returns 0. *)
Theorem nonpositive_batch_size_deletes_nothing
    (c : config) (messages_to_delete start_position : Z)
    (envs : list session_env) (final : session_env) (mb : mailbox)
    (r : option exit) (s : state) :
  batch_size c <= 0 ->
  delete_run c messages_to_delete start_position envs mb = Some (r, s) ->
  server s = mb /\
  forall total_deleted,
    delete_messages_robust c messages_to_delete start_position envs final mb
      = Some (Some total_deleted) ->
    total_deleted = 0.
Proof.
  intros Hbs Hrun. unfold delete_messages_robust. rewrite Hrun.
  unfold delete_run in Hrun.
  assert (Hsrv : server s = mb).
  { apply (delete_run_keeps c messages_to_delete start_position
             (fun s0 => server s0 = mb) envs) with (s := initial mb) (r := r);
      [|assumption|reflexivity].
    intros env s0 _ Hs0.
    destruct (iteration_effect c messages_to_delete start_position env s0)
      as [Hsame | (marks & _ & _ & _ & _ & Hbc & _)];
      [congruence | lia]. }
  split; [assumption|].
  pose proof (run_keeps_counts c messages_to_delete start_position mb envs
                _ _ _ Hrun (initial_counts mb)) as (_ & Hnone & Hsome).
  intros v. destruct r as [x|]; [|discriminate]. intros [= <-].
  unfold final_count, shrinkage. rewrite Hsrv.
  destruct (initial_count s) as [i|] eqn:Hi.
  - destruct (Hsome i eq_refl) as (-> & n & Hn & Hle). rewrite Hn, Hsrv in *.
    destruct (connect_ok final && stat_ok final && quit_ok final);
      destruct (stat mb =? 0); lia.
  - destruct (connect_ok final && stat_ok final && quit_ok final);
      reflexivity.
Qed.

Lemma mark_batch_none (env : session_env) (mb : mailbox) (msg_nums : list Z) :
  (forall i, dele env mb i = false) ->
  forall mc errs, fst (fst (mark_batch env mb msg_nums mc errs)) = [].
Proof.
  intros Hnone. induction msg_nums as [|i rest IH]; intros mc errs; simpl;
    [reflexivity|].
  rewrite Hnone. destruct (errs + 1 >? 10); [reflexivity|].
  specialize (IH mc (errs + 1)).
  destruct (mark_batch env mb rest mc (errs + 1)) as [[marks mc'] evs].
  exact IH.
Qed.

(** X20. A server that accepts the sessions and their QUIT but rejects
    every DELE keeps the delete loop running for ever: each pass marks
    nothing, commits, resets the failure counter and starts again.  No
    number of passes ends it. *)
Theorem rejected_deletes_keep_the_loop_running
    (c : config) (messages_to_delete start_position : Z)
    (envs : list session_env) (final : session_env) (mb : mailbox) :
  Forall (fun env => connect_ok env = true /\ stat_ok env = true /\
                     quit_ok env = true /\
                     forall p, dele_ok env p = false) envs ->
  1 <= batch_size c -> 1 <= messages_to_delete ->
  1 <= start_position <= stat mb ->
  delete_run c messages_to_delete start_position envs mb = None /\
  delete_messages_robust c messages_to_delete start_position envs final mb
    = None.
Proof.
  intros Henvs Hbs Htarget Hstart.
  assert (Hrun : forall s,
    server s = mb ->
    (initial_count s = None \/ initial_count s = Some (stat mb)) ->
    run c messages_to_delete start_position envs s = None).
  { induction Henvs as [|env envs (Hc & Hs & Hq & Hd) _ IH];
      intros s Hsrv Hinit; [reflexivity|].
    cbn [run].
    assert (Hit : exists s',
      iteration c messages_to_delete start_position env s = (Continue, s') /\
      server s' = mb /\ initial_count s' = Some (stat mb)).
    { unfold iteration, quit_and_break. rewrite Hc, Hs, Hq, Hsrv.
      cbn [negb]. cbv zeta.
      assert (Hinitial :
        match initial_count s with Some i => i | None => stat mb end
        = stat mb) by (destruct Hinit as [-> | ->]; reflexivity).
      rewrite Hinitial.
      destruct (Z.eqb_spec (stat mb) 0); [lia|].
      destruct (Z.geb_spec (stat mb - stat mb) messages_to_delete); [lia|].
      destruct (Z.gtb_spec start_position (stat mb)); [lia|].
      match goal with |- context [?a <=? 0] =>
        destruct (Z.leb_spec a 0); [lia|] end.
      match goal with |- context [mark_batch ?e ?m ?l ?a ?b] =>
        pose proof (mark_batch_none e m l) as Hmarks;
        specialize (fun H => Hmarks H a b);
        destruct (mark_batch e m l a b) as [[marks mc] deles]
      end.
      cbn [fst] in Hmarks. rewrite Hmarks.
      - eexists. split; [reflexivity|]. cbn [server initial_count].
        split; [|reflexivity].
        apply (kept_from_outside [] mb 1). intros p [].
      - intros i. unfold dele. now rewrite Hd. }
    destruct Hit as (s' & -> & Hsrv' & Hinit').
    apply IH; [assumption | now right]. }
  assert (Hnone : delete_run c messages_to_delete start_position envs mb
                  = None)
    by (apply Hrun; [reflexivity | now left]).
  split; [assumption|]. unfold delete_messages_robust. now rewrite Hnone.
Qed.

End DeleteEdgeCases.

Section BackupEdgeCases.
Import Pop3 BackupPipeline MailboxChange.

Lemma read_batch_all_fail (env : session_env) (mb : mailbox) (bu : Z)
    (msg_nums : list Z) :
  (forall p, In p msg_nums -> retr_ok env p = false) ->
  forall n cf,
    cf + Z.of_nat (length msg_nums) < max_failures ->
    exists evs,
      read_batch env mb bu msg_nums n cf
      = ([], cf + Z.of_nat (length msg_nums), evs).
Proof.
  induction msg_nums as [|p rest IH]; intros Hfail n cf Hcf.
  - exists []. simpl. do 2 f_equal. lia.
  - cbn [read_batch]. unfold retr.
    rewrite (Hfail p (or_introl eq_refl)). cbv zeta.
    cbn [length] in Hcf.
    destruct (Z.geb_spec (cf + 1) max_failures); [lia|].
    destruct (IH (fun q Hq => Hfail q (or_intror Hq)) n (cf + 1)
                ltac:(lia)) as (evs & ->).
    eexists. do 2 f_equal. cbn [length]. lia.
Qed.

(** X21. A range of one to four messages whose RETR fails every time
    keeps the backup loop running for ever, with or without
    [delete_after]: each pass counts fewer than [max_failures] failures,
    archives nothing, resets the failure counter and starts again.  No
    number of passes ends it. *)
Theorem unretrievable_messages_keep_the_backup_running
    (start_pos end_pos : Z) (delete_after : bool)
    (envs : list session_env) (mb : mailbox) (disk : list archive_entry) :
  Forall (fun env => connect_ok env = true /\ stat_ok env = true /\
                     forall p, start_pos <= p <= end_pos ->
                               retr_ok env p = false) envs ->
  1 <= start_pos -> start_pos <= end_pos -> end_pos <= stat mb ->
  end_pos - start_pos + 1 < max_failures ->
  backup_run start_pos end_pos delete_after envs mb disk = None /\
  backup_emails_to_zip start_pos end_pos delete_after envs mb disk = None.
Proof.
  intros Henvs Hstart Hle Hend Hfew.
  set (total := end_pos - start_pos + 1) in *.
  assert (Hrun : forall s,
    backed_up s = 0 -> remaining s = total -> consecutive_failures s = 0 ->
    server s = mb ->
    run delete_after start_pos envs s = None).
  { induction Henvs as [|env envs (Hc & Hs & Hr) _ IH];
      intros s Hb Hrem Hcf Hsrv; cbn [run];
      (destruct (Z.gtb_spec (remaining s) 0); [|lia]); [reflexivity|].
    assert (Hit : exists s',
      iteration delete_after start_pos env s = (Continue, s') /\
      backed_up s' = 0 /\ remaining s' = total /\
      consecutive_failures s' = 0 /\ server s' = mb).
    { unfold iteration. rewrite Hc, Hs. cbn [negb]. cbv zeta.
      assert (Hcs : current_start_of delete_after start_pos s = start_pos)
        by (unfold current_start_of; rewrite Hb; destruct delete_after; lia).
      assert (Hbc : batch_count_of delete_after start_pos s = total)
        by (unfold batch_count_of, batch_size, max_failures in *;
            rewrite Hcs, Hrem, Hsrv; lia).
      rewrite Hcs, Hbc, Hsrv.
      destruct (Z.gtb_spec start_pos (stat mb)); [lia|].
      destruct (read_batch_all_fail env mb (backed_up s)
                  (range start_pos (start_pos + total - 1 + 1))
                  ltac:(intros p Hp; apply In_range in Hp; apply Hr; lia)
                  0 (consecutive_failures s)) as (evs & ->).
      { rewrite range_length, Hcf. lia. }
      rewrite range_length, Hcf.
      destruct (Z.geb_spec (0 + Z.of_nat (Z.to_nat (start_pos + total - 1 + 1
                                                   - start_pos)))
                  max_failures); [lia|].
      cbn [map length]. eexists. split.
      { destruct delete_after; reflexivity. }
      cbn [backed_up remaining consecutive_failures server].
      rewrite Hb, Hrem. repeat split; lia. }
    destruct Hit as (s' & -> & Hb' & Hrem' & Hcf' & Hsrv').
    now apply IH. }
  assert (Hnone : backup_run start_pos end_pos delete_after envs mb disk
                  = None)
    by (apply Hrun; reflexivity).
  split; [assumption|]. unfold backup_emails_to_zip. now rewrite Hnone.
Qed.

End BackupEdgeCases.

Section LoopEdgeCasesExamples.
Import Pop3 Scenarios.

Lemma nonpositive_batch_size_deletes_nothing_witness :
  exists r s,
    DeleteEngine.delete_run (DeleteEngine.mk_config (Some 0)) 2 1
      [no_connection; all_ok] three_messages = Some (r, s) /\
    DeleteEngine.server s = three_messages /\
    forall total_deleted,
      DeleteEngine.delete_messages_robust (DeleteEngine.mk_config (Some 0))
        2 1 [no_connection; all_ok] all_ok three_messages
        = Some (Some total_deleted) ->
      total_deleted = 0.
Proof.
  eexists _, _. split; [vm_compute; reflexivity|].
  eapply (nonpositive_batch_size_deletes_nothing
            (DeleteEngine.mk_config (Some 0)) 2 1 [no_connection; all_ok]
            all_ok three_messages);
    [vm_compute; discriminate | vm_compute; reflexivity].
Defined.

Lemma rejected_deletes_keep_the_loop_running_witness :
  DeleteEngine.delete_run (DeleteEngine.mk_config None) 2 1
    [dele_rejected; dele_rejected; dele_rejected] three_messages = None /\
  DeleteEngine.delete_messages_robust (DeleteEngine.mk_config None) 2 1
    [dele_rejected; dele_rejected; dele_rejected] all_ok three_messages
    = None.
Proof.
  apply (rejected_deletes_keep_the_loop_running
           (DeleteEngine.mk_config None) 2 1
           [dele_rejected; dele_rejected; dele_rejected] all_ok
           three_messages).
  - repeat (constructor; [repeat split|]). constructor.
  - vm_compute. discriminate.
  - lia.
  - vm_compute. split; discriminate.
Defined.

Lemma unretrievable_messages_keep_the_backup_running_witness :
  BackupPipeline.backup_run 2 3 true [retr_rejected; retr_rejected]
    three_messages [] = None /\
  BackupPipeline.backup_emails_to_zip 2 3 true [retr_rejected; retr_rejected]
    three_messages [] = None.
Proof.
  apply (unretrievable_messages_keep_the_backup_running 2 3 true
           [retr_rejected; retr_rejected] three_messages []).
  - repeat (constructor; [repeat split|]). constructor.
  - lia.
  - lia.
  - vm_compute. discriminate.
  - vm_compute. reflexivity.
Defined.

End LoopEdgeCasesExamples.

(** ** A download that fails during a backup without deletion *)

Section SkippedDownload.
Import Pop3 BackupPipeline MailboxChange.

Lemma seq_from (a b : nat) :
  seq a b = map (fun i => (a + i)%nat) (seq 0 b).
Proof.
  revert a. induction b as [|b IH]; intros a; [reflexivity|].
  cbn [seq map]. f_equal; [lia|].
  rewrite (IH (S a)), <- seq_shift, map_map. apply map_ext. intros i. lia.
Qed.

Lemma range_split (lo mid hi : Z) :
  lo <= mid <= hi -> range lo hi = range lo mid ++ range mid hi.
Proof.
  intros H. unfold range.
  replace (Z.to_nat (hi - lo))
    with (Z.to_nat (mid - lo) + Z.to_nat (hi - mid))%nat by lia.
  rewrite seq_app, map_app. f_equal. cbn [Nat.add].
  rewrite seq_from, map_map. apply map_ext. intros i. lia.
Qed.

(** A block whose RETRs all succeed is downloaded whole, and the loop
    goes on with what follows it. *)
Lemma read_batch_prefix (env : session_env) (mb : mailbox) (bu : Z)
    (rest : list Z) :
  forall (k : nat) cs n cf,
    1 <= cs -> cs - 1 + Z.of_nat k <= stat mb ->
    (forall p, cs <= p < cs + Z.of_nat k -> retr_ok env p = true) ->
    exists b1 ev1,
      map fst b1 = range cs (cs + Z.of_nat k) /\
      map content (map snd b1)
        = firstn k (skipn (Z.to_nat (cs - 1)) mb) /\
      forall b2 cf' ev2,
        read_batch env mb bu rest (n + Z.of_nat k) cf = (b2, cf', ev2) ->
        read_batch env mb bu (range cs (cs + Z.of_nat k) ++ rest) n cf
        = (b1 ++ b2, cf', ev1 ++ ev2).
Proof.
  induction k as [|k IH]; intros cs n cf Hcs Hfits Hok.
  - exists [], []. unfold range.
    replace (Z.to_nat (cs + Z.of_nat 0 - cs)) with 0%nat by lia.
    repeat split. intros b2 cf' ev2 H. simpl.
    now replace (n + Z.of_nat 0) with n in H by lia.
  - assert (Hlt : (Z.to_nat (cs - 1) < length mb)%nat)
      by (unfold stat in Hfits; lia).
    destruct (nth_error mb (Z.to_nat (cs - 1))) as [m|] eqn:Hm;
      [|apply nth_error_None in Hm; lia].
    destruct (IH (cs + 1) (n + 1) cf ltac:(lia) ltac:(lia)
                ltac:(intros p Hp; apply Hok; lia))
      as (b1 & ev1 & Hfst & Hcontent & Hread).
    exists ((cs, mk_entry (bucket (get_message_date env mb cs))
                   (bu + n + 1, date_str (get_message_date env mb cs)) m)
            :: b1), (Retr cs true :: ev1).
    rewrite range_cons.
    split; [cbn [map fst]; now rewrite Hfst|]. split.
    + cbn [map snd content]. rewrite Hcontent, (skipn_nth_error mb _ m Hm).
      cbn [firstn].
      replace (Z.to_nat (cs + 1 - 1)) with (S (Z.to_nat (cs - 1))) by lia.
      reflexivity.
    + intros b2 cf' ev2 H. cbn [app read_batch]. unfold retr.
      rewrite (Hok cs ltac:(lia)).
      unfold message_at at 1. destruct (Z.leb_spec 1 cs); [|lia]. rewrite Hm.
      rewrite (Hread b2 cf' ev2);
        [reflexivity|].
      now replace (n + 1 + Z.of_nat k) with (n + Z.of_nat (S k)) by lia.
Qed.

(** A pass of a backup that does not delete, once the session is open
    and the batch has been read with fewer than [max_failures]
    failures. *)
Lemma iteration_backup_only_pass (start_pos : Z) (env : session_env)
    (s : state) (batch : list (Z * archive_entry)) (cf : Z)
    (reads : list event) :
  connect_ok env = true -> stat_ok env = true ->
  let cs := start_pos + backed_up s in
  let bc := Z.min (Z.min batch_size (remaining s))
                  (stat (server s) - cs + 1) in
  cs <= stat (server s) ->
  read_batch env (server s) (backed_up s) (range cs (cs + bc)) 0
    (consecutive_failures s) = (batch, cf, reads) ->
  cf < max_failures ->
  exists s',
    iteration false start_pos env s = (Continue, s') /\
    backed_up s' = backed_up s + Z.of_nat (length batch) /\
    remaining s' = remaining s - Z.of_nat (length batch) /\
    deleted s' = deleted s /\ server s' = server s /\
    archive s' = archive s ++ zip_writes (map snd batch).
Proof.
  intros Hc Hs cs bc Hcs Hread Hcf. subst cs bc.
  unfold iteration. rewrite Hc, Hs. cbn [negb]. cbv zeta.
  unfold batch_count_of, current_start_of.
  destruct (Z.gtb_spec (start_pos + backed_up s) (stat (server s)));
    [lia|].
  match goal with |- context [range ?a (?b - 1 + 1)] =>
    replace (b - 1 + 1) with b by lia end.
  rewrite Hread.
  destruct (Z.geb_spec cf max_failures); [lia|].
  eexists. split; [reflexivity|].
  cbn [backed_up remaining deleted server archive].
  rewrite length_map. repeat split.
Qed.

(** X22. A backup without deletion in which one RETR fails: the function
    nevertheless reports every message of the range as backed up.  The
    message that failed is left out of the archive, and, the cursor being
    [start_pos + backed_up], the last message of the range is downloaded
    and archived a second time in its place. *)
Theorem backup_only_skips_a_failed_download
    (start_pos end_pos q : Z) (env1 env2 : session_env)
    (envs : list session_env) (mb : mailbox) (disk : list archive_entry) :
  1 <= start_pos -> start_pos <= q -> q < end_pos -> end_pos <= stat mb ->
  end_pos - start_pos + 1 <= batch_size ->
  connect_ok env1 = true -> stat_ok env1 = true ->
  retr_ok env1 q = false ->
  (forall p, start_pos <= p <= end_pos -> p <> q -> retr_ok env1 p = true) ->
  connect_ok env2 = true -> stat_ok env2 = true ->
  retr_ok env2 end_pos = true ->
  exists s new,
    backup_run start_pos end_pos false (env1 :: env2 :: envs) mb disk
      = Some s /\
    backup_emails_to_zip start_pos end_pos false (env1 :: env2 :: envs)
      mb disk = Some (end_pos - start_pos + 1, 0) /\
    archive s = disk ++ new /\
    Permutation (map content new)
      (the_range start_pos (q - start_pos) mb
         ++ the_range (q + 1) (end_pos - q) mb
         ++ the_range end_pos 1 mb).
Proof.
  intros Hstart Hq Hqe Hend Hsmall Hc1 Hs1 Hfail Hok Hc2 Hs2 Hok2.
  unfold batch_size in Hsmall.
  set (total := end_pos - start_pos + 1) in *.
  set (s0 := initial start_pos end_pos mb disk).
  (* the first pass: everything but [q] *)
  destruct (read_batch_prefix env1 mb 0 [] (Z.to_nat (end_pos - q))
              (q + 1) (0 + Z.of_nat (Z.to_nat (q - start_pos))) (0 + 1)
              ltac:(lia) ltac:(lia)
              ltac:(intros p Hp; apply Hok; lia))
    as (b2 & ev2 & Hfst2 & Hcontent2 & Hread2).
  specialize (Hread2 [] (0 + 1) [] eq_refl). rewrite !app_nil_r in Hread2.
  destruct (read_batch_prefix env1 mb 0
              (q :: range (q + 1) (q + 1 + Z.of_nat (Z.to_nat (end_pos - q))))
              (Z.to_nat (q - start_pos)) start_pos 0 0
              ltac:(lia) ltac:(lia)
              ltac:(intros p Hp; apply Hok; lia))
    as (b1 & ev1 & Hfst1 & Hcontent1 & Hread1).
  specialize (Hread1 b2 (0 + 1) (Retr q false :: ev2)).
  assert (Hpass1 :
    read_batch env1 mb 0 (range start_pos (start_pos + total)) 0 0
    = (b1 ++ b2, 0 + 1, ev1 ++ Retr q false :: ev2)).
  { rewrite <- Hread1.
    - f_equal.
      rewrite (range_split start_pos q (start_pos + total))
        by (unfold total; lia).
      replace (start_pos + Z.of_nat (Z.to_nat (q - start_pos))) with q by lia.
      f_equal.
      replace (start_pos + total)
        with (q + Z.of_nat (S (Z.to_nat (end_pos - q))))
        by (unfold total; lia).
      rewrite range_cons. reflexivity.
    - cbn [read_batch]. unfold retr. rewrite Hfail. cbv zeta.
      destruct (Z.geb_spec (0 + 1) max_failures) as [Hmax|_];
        [unfold max_failures in Hmax; lia|].
      now rewrite Hread2. }
  assert (Hlen1 : Z.of_nat (length (b1 ++ b2)) = total - 1).
  { rewrite length_app, <- (length_map fst b1), <- (length_map fst b2),
      Hfst1, Hfst2, !range_length. unfold total. lia. }
  destruct (iteration_backup_only_pass start_pos env1 s0 (b1 ++ b2) (0 + 1)
              (ev1 ++ Retr q false :: ev2) Hc1 Hs1)
    as (s1 & Hit1 & Hb1 & Hr1 & Hd1 & Hsrv1 & Harch1).
  { subst s0. cbn [initial backed_up server]. lia. }
  { subst s0. cbn [initial backed_up server remaining consecutive_failures].
    fold total. unfold batch_size.
    replace (start_pos + 0) with start_pos by lia.
    replace (Z.min (Z.min 50 total) (stat mb - start_pos + 1)) with total
      by lia.
    exact Hpass1. }
  { unfold max_failures. lia. }
  assert (Hcf1 : consecutive_failures s1 = 0).
  { unfold iteration in Hit1. rewrite Hc1, Hs1 in Hit1.
    cbn [negb] in Hit1. cbv zeta in Hit1.
    destruct (_ >? _) in Hit1; [discriminate|].
    destruct (read_batch _ _ _ _ _ _) as [[b c0] r0] in Hit1.
    destruct (c0 >=? max_failures) in Hit1; [discriminate|].
    injection Hit1 as <-. reflexivity. }
  subst s0. cbn [initial backed_up remaining deleted server archive]
    in Hb1, Hr1, Hd1, Hsrv1, Harch1.
  fold total in Hr1. rewrite Hlen1 in Hb1, Hr1.
  (* the second pass: the last message again *)
  destruct (read_batch_prefix env2 mb (backed_up s1) [] 1 end_pos 0 0
              ltac:(lia) ltac:(lia)
              ltac:(intros p Hp; assert (p = end_pos) as -> by lia;
                    exact Hok2))
    as (b3 & ev3 & Hfst3 & Hcontent3 & Hread3).
  specialize (Hread3 [] 0 [] eq_refl). rewrite !app_nil_r in Hread3.
  assert (Hlen3 : Z.of_nat (length b3) = 1).
  { rewrite <- (length_map fst b3), Hfst3, range_length. lia. }
  destruct (iteration_backup_only_pass start_pos env2 s1 b3 0 ev3 Hc2 Hs2)
    as (s2 & Hit2 & Hb2 & Hr2 & Hd2 & Hsrv2 & Harch2).
  { rewrite Hb1, Hsrv1. unfold total. lia. }
  { rewrite Hr1, Hsrv1, Hcf1, Hb1. unfold batch_size.
    replace (start_pos + (0 + (total - 1))) with end_pos
      by (unfold total; lia).
    replace (Z.min (Z.min 50 (total - (total - 1))) (stat mb - end_pos + 1))
      with (Z.of_nat 1) by lia.
    rewrite <- Hb1. exact Hread3. }
  { unfold max_failures. lia. }
  rewrite Hlen3 in Hb2, Hr2.
  assert (Hrun : backup_run start_pos end_pos false (env1 :: env2 :: envs)
                   mb disk = Some s2).
  { unfold backup_run. cbn [run]. cbn [initial remaining]. fold total.
    destruct (Z.gtb_spec total 0); [|lia].
    rewrite Hit1.
    destruct (Z.gtb_spec (remaining s1) 0); [|lia].
    rewrite Hit2.
    destruct envs; cbn [run];
      (destruct (Z.gtb_spec (remaining s2) 0); [lia | reflexivity]). }
  exists s2, (zip_writes (map snd (b1 ++ b2)) ++ zip_writes (map snd b3)).
  split; [assumption|]. split.
  { unfold backup_emails_to_zip. rewrite Hrun. cbn [option_map].
    do 2 f_equal; lia. }
  split; [rewrite Harch2, Harch1; now rewrite <- app_assoc|].
  rewrite map_app, app_assoc. apply Permutation_app.
  - eapply Permutation_trans;
      [apply Permutation_map, zip_writes_perm|].
    rewrite !map_app, Hcontent1, Hcontent2. unfold the_range.
    replace (q + 1 - 1) with q by lia.
    apply Permutation_refl.
  - eapply Permutation_trans;
      [apply Permutation_map, zip_writes_perm|].
    rewrite Hcontent3. apply Permutation_refl.
Qed.

End SkippedDownload.

Section SkippedDownloadExamples.
Import Pop3 BackupPipeline MailboxChange Scenarios.

(** Three messages, the download of the second fails once: 3 are
    reported, the archive holds the first and the third twice. *)
Lemma backup_only_skips_a_failed_download_witness :
  exists s new,
    backup_run 1 3 false [second_unretrievable; all_ok] three_messages []
      = Some s /\
    backup_emails_to_zip 1 3 false [second_unretrievable; all_ok]
      three_messages [] = Some (3 - 1 + 1, 0) /\
    archive s = [] ++ new /\
    Permutation (map content new)
      (the_range 1 (2 - 1) three_messages
         ++ the_range (2 + 1) (3 - 2) three_messages
         ++ the_range 3 1 three_messages).
Proof.
  apply (backup_only_skips_a_failed_download 1 3 2 second_unretrievable
           all_ok [] three_messages []).
  - lia.
  - lia.
  - lia.
  - vm_compute. discriminate.
  - vm_compute. discriminate.
  - reflexivity.
  - reflexivity.
  - reflexivity.
  - intros p _ Hp. simpl. destruct (Z.eqb_spec p 2); [contradiction|].
    reflexivity.
  - reflexivity.
  - reflexivity.
  - reflexivity.
Defined.

End SkippedDownloadExamples.

(** ** The numbering of the archived files *)

Section FileIndexes.
Import Pop3 BackupPipeline.

(** The files of one batch are numbered from [backed_up + 1] on, in the
    order of download, whatever fails in between. *)
Lemma read_batch_indexes (env : session_env) (mb : mailbox) (bu : Z)
    (msg_nums : list Z) :
  forall n cf batch cf' evs,
    read_batch env mb bu msg_nums n cf = (batch, cf', evs) ->
    map (fun pe => fst (eml_filename (snd pe))) batch
    = range (bu + n + 1) (bu + n + 1 + Z.of_nat (length batch)).
Proof.
  induction msg_nums as [|p rest IH]; intros n cf batch cf' evs; simpl.
  - intros [= <- <- <-]. unfold range. simpl.
    now replace (Z.to_nat (bu + n + 1 + 0 - (bu + n + 1))) with 0%nat by lia.
  - destruct (retr env mb p) as [m|].
    + destruct (read_batch env mb bu rest (n + 1) cf) as [[b c0] e0] eqn:Hr.
      intros [= <- <- <-]. cbn [map snd eml_filename fst length].
      rewrite range_cons. f_equal.
      rewrite (IH _ _ _ _ _ Hr). f_equal; lia.
    + destruct (cf + 1 >=? max_failures).
      * intros [= <- <- <-]. unfold range. simpl.
        now replace (Z.to_nat (bu + n + 1 + 0 - (bu + n + 1)))
          with 0%nat by lia.
      * destruct (read_batch env mb bu rest n (cf + 1)) as [[b c0] e0] eqn:Hr.
        intros [= <- <- <-]. apply (IH _ _ _ _ _ Hr).
Qed.

(** X23. In a run in which no commit fails (in particular in every run
    without [delete_after]), whatever else the transport does: the files
    added to the archive carry the index numbers 1 to [backed_up], each
    exactly once, so no two files of the run share a number. *)
Theorem file_indexes_are_one_to_backed_up
    (start_pos end_pos : Z) (delete_after : bool)
    (envs : list session_env) (mb : mailbox) (disk : list archive_entry)
    (s : state) :
  delete_after = false \/ Forall (fun env => quit_ok env = true) envs ->
  backup_run start_pos end_pos delete_after envs mb disk = Some s ->
  exists new,
    archive s = disk ++ new /\
    Permutation (map (fun e => fst (eml_filename e)) new)
      (range 1 (backed_up s + 1)) /\
    NoDup (map (fun e => fst (eml_filename e)) new).
Proof.
  intros Hcommits Hrun. unfold backup_run in Hrun.
  set (idx := fun e : archive_entry => fst (eml_filename e)).
  assert (Hinv : 0 <= backed_up s /\
                 exists new, archive s = disk ++ new /\
                   Permutation (map idx new) (range 1 (backed_up s + 1))).
  { apply (run_keeps delete_after start_pos
             (fun s0 => 0 <= backed_up s0 /\
                exists new, archive s0 = disk ++ new /\
                  Permutation (map idx new) (range 1 (backed_up s0 + 1)))
             envs) with (s := initial start_pos end_pos mb disk);
      [|assumption|].
    - intros env s0 Henv (Hb & new & Harch & Hperm).
      assert (Hq : delete_after = false \/ quit_ok env = true).
      { destruct Hcommits as [->|Hall]; [now left|]. right.
        rewrite Forall_forall in Hall. now apply Hall. }
      assert (Hsame : forall s1,
        backed_up s1 = backed_up s0 -> archive s1 = archive s0 ->
        0 <= backed_up s1 /\
        exists new0, archive s1 = disk ++ new0 /\
          Permutation (map idx new0) (range 1 (backed_up s1 + 1))).
      { intros s1 -> ->. split; [assumption|]. now exists new. }
      assert (Hmore : forall s1 batch cf0 evs0 n0 cf1,
        read_batch env (server s0) (backed_up s0) n0 0 cf1
          = (batch, cf0, evs0) ->
        backed_up s1 = backed_up s0 + Z.of_nat (length (map snd batch)) ->
        archive s1 = archive s0 ++ zip_writes (map snd batch) ->
        0 <= backed_up s1 /\
        exists new0, archive s1 = disk ++ new0 /\
          Permutation (map idx new0) (range 1 (backed_up s1 + 1))).
      { intros s1 batch cf0 evs0 n0 cf1 Hread Hb1 Ha1.
        rewrite length_map in Hb1. split; [lia|].
        exists (new ++ zip_writes (map snd batch)).
        split; [now rewrite Ha1, Harch, app_assoc|].
        rewrite Hb1, map_app.
        rewrite (range_split 1 (backed_up s0 + 1)) by lia.
        apply Permutation_app; [assumption|].
        eapply Permutation_trans;
          [apply Permutation_map, zip_writes_perm|].
        rewrite map_map. unfold idx.
        rewrite (read_batch_indexes _ _ _ _ _ _ _ _ _ Hread).
        replace (backed_up s0 + 0 + 1) with (backed_up s0 + 1) by lia.
        replace (backed_up s0 + 1 + Z.of_nat (length batch))
          with (backed_up s0 + Z.of_nat (length batch) + 1) by lia.
        apply Permutation_refl. }
      unfold iteration.
      destruct (connect_ok env); cbn [negb].
      2:{ cbv zeta. destruct (_ >=? max_failures); cbn [snd];
            apply Hsame; reflexivity. }
      destruct (stat_ok env); cbn [negb];
        [|cbn [snd]; apply Hsame; reflexivity].
      cbv zeta.
      destruct (_ >? stat (server s0));
        [cbn [snd]; apply Hsame; reflexivity|].
      destruct (read_batch env (server s0) (backed_up s0) _ 0
                  (consecutive_failures s0)) as [[batch cf0] evs0] eqn:Hread.
      destruct (cf0 >=? max_failures);
        [cbn [snd]; apply Hsame; reflexivity|].
      destruct delete_after.
      + destruct Hq as [Hq|Hq]; [discriminate|].
        destruct (map fst batch) as [|p ps];
          [cbn [snd]; apply (Hmore _ _ _ _ _ _ Hread); reflexivity|].
        destruct (mark_batch env (server s0) (p :: ps)) as [marks deles].
        rewrite Hq. cbn [snd].
        apply (Hmore _ _ _ _ _ _ Hread); reflexivity.
      + cbn [snd]. apply (Hmore _ _ _ _ _ _ Hread); reflexivity.
    - split; [simpl; lia|]. exists []. cbn [initial archive backed_up].
      rewrite app_nil_r. split; [reflexivity|].
      unfold range. simpl. constructor. }
  destruct Hinv as (_ & new & Harch & Hperm).
  exists new. split; [assumption|]. split; [assumption|].
  apply (Permutation_NoDup (Permutation_sym Hperm)), range_NoDup.
Qed.

End FileIndexes.

Section FileIndexesExamples.
Import Pop3 BackupPipeline Scenarios.

Lemma file_indexes_are_one_to_backed_up_witness :
  exists s,
    backup_run 1 3 false [second_unretrievable; all_ok] three_messages []
      = Some s /\
    exists new,
      archive s = [] ++ new /\
      Permutation (map (fun e => fst (eml_filename e)) new)
        (range 1 (backed_up s + 1)) /\
      NoDup (map (fun e => fst (eml_filename e)) new).
Proof.
  eexists. split; [vm_compute; reflexivity|].
  apply (file_indexes_are_one_to_backed_up 1 3 false
           [second_unretrievable; all_ok] three_messages []);
    [left; reflexivity | vm_compute; reflexivity].
Defined.

End FileIndexesExamples.

(** ** The older program as a whole *)

Section CleanupFastResults.
Import Datetime Pop3 BoundaryResolver DeletionRange MailboxChange.



End CleanupFastResults.

Section CleanupFastExamples.
Import Datetime Pop3 BoundaryResolver DeletionRange MailboxChange Scenarios.


End CleanupFastExamples.

(** ** The sentinels of the search *)

Section Sentinels.
Import Datetime BoundaryResolver SearchPasses.

(** While every midpoint has a date and no date compares the way the mode
    looks for, the loop keeps its result, asks for midpoints only, and
    leaves within as many passes as the window is wide. *)
Lemma loop_keeps_sentinel (pop : session) (N : Z) (T : datetime)
    (gte : bool) (v : Z) :
  probed_dates_parse pop N T gte ->
  (forall i d, 1 <= i <= N -> pop i = Some d ->
               (if gte then geb d T else ltb d T) = false) ->
  forall fuel n s,
    after_passes pop N T gte n s ->
    1 <= left s -> right s <= N -> result s = v ->
    Forall (fun p => exists d, pop p = Some d) (probed s) ->
    (Z.to_nat (right s - left s + 1) <= fuel)%nat ->
    exists s',
      loop fuel pop N T gte s = Some s' /\ result s' = v /\
      Forall (fun p => exists d, pop p = Some d) (probed s').
Proof.
  intros Hparse Hnone.
  induction fuel as [|fuel IH]; intros n s Hn Hl Hr Hres Hlog Hfuel; simpl.
  - destruct (Z.leb_spec (left s) (right s)); [lia|]. now exists s.
  - destruct (Z.leb_spec (left s) (right s)) as [Hle|Hgt]; [|now exists s].
    pose proof (midpoint_between _ _ Hle) as Hm.
    destruct (Hparse n s Hn Hle) as [d Hd].
    pose proof (one_more_pass pop N T gte n s Hn Hle) as Hnext.
    pose proof (step_dated pop N T gte s d Hd) as Hstep. cbv zeta in Hstep.
    pose proof (Hnone ((left s + right s) / 2) d ltac:(lia) Hd) as Hcmp.
    assert (Hlog' : Forall (fun p => exists d0, pop p = Some d0)
                      (probed s ++ [(left s + right s) / 2])).
    { apply Forall_app. split; [assumption|].
      constructor; [now exists d | constructor]. }
    apply (IH (S n) (step pop N T gte s) Hnext);
      rewrite Hstep; destruct gte; rewrite Hcmp; cbn [left right result probed];
      try assumption; lia.
Qed.

(** C8. When every date the search asks for is parseable: the
    first-at-or-after search returns N+1 if no position of 1..N is dated
    at or after the target, and the last-before search returns 0 if no
    position of 1..N is dated before the target.  The result is produced
    within N passes, and only positions with a date have been asked
    for. *)
Theorem binary_search_sentinels
    (pop : session) (N : Z) (T : datetime) (fuel : nat) :
  (Z.to_nat N <= fuel)%nat ->
  (probed_dates_parse pop N T true ->
   (forall i, 1 <= i <= N -> ~ dated_from pop T i) ->
   exists s,
     loop fuel pop N T true (initial N true) = Some s /\
     binary_search_date fuel pop N T true = Some (N + 1) /\
     Forall (fun p => exists d, pop p = Some d) (probed s)) /\
  (probed_dates_parse pop N T false ->
   (forall i, 1 <= i <= N -> ~ dated_before pop T i) ->
   exists s,
     loop fuel pop N T false (initial N false) = Some s /\
     binary_search_date fuel pop N T false = Some 0 /\
     Forall (fun p => exists d, pop p = Some d) (probed s)).
Proof.
  intros Hfuel.
  assert (Hgo : forall gte : bool,
    probed_dates_parse pop N T gte ->
    (forall i d, 1 <= i <= N -> pop i = Some d ->
                 (if gte then geb d T else ltb d T) = false) ->
    exists s,
      loop fuel pop N T gte (initial N gte) = Some s /\
      binary_search_date fuel pop N T gte
        = Some (if gte then N + 1 else 0) /\
      Forall (fun p => exists d, pop p = Some d) (probed s)).
  { intros gte Hparse Hnone.
    destruct (loop_keeps_sentinel pop N T gte (if gte then N + 1 else 0)
                Hparse Hnone fuel 0%nat (initial N gte)
                (no_pass pop N T gte))
      as (s & Hloop & Hres & Hlog).
    - simpl. lia.
    - simpl. lia.
    - reflexivity.
    - constructor.
    - simpl. lia.
    - exists s. split; [assumption|]. split; [|assumption].
      unfold binary_search_date. rewrite Hloop. simpl. now rewrite Hres. }
  split; intros Hparse Hnone.
  - apply (Hgo true Hparse). intros i d Hi Hd.
    apply geb_lt. destruct (ltb d T) eqn:Hcmp.
    + now apply ltb_lt.
    + exfalso. apply (Hnone i Hi). exists d. split; [assumption|].
      now apply ltb_nlt.
  - apply (Hgo false Hparse). intros i d Hi Hd.
    destruct (ltb d T) eqn:Hcmp; [|reflexivity].
    exfalso. apply (Hnone i Hi). exists d. split; [assumption|].
    now apply ltb_lt.
Qed.

End Sentinels.

Section SentinelsExamples.
Import Datetime BoundaryResolver SearchPasses Scenarios.

(** On seven messages with the third undated, the first-at-or-after
    search for a late target comes to the windows 1..7, 5..7, 7..7 and
    leaves; the last-before search for an early target comes to 1..7,
    1..3, 1..1 and leaves.  Position 3 is never a midpoint. *)
Lemma late_target_windows (n : nat) (s : search_state) :
  after_passes third_of_seven_undated 7 (mk_datetime 2021 1 1 0) true n s ->
  In (left s, right s) [(1, 7); (5, 7); (7, 7); (8, 7)].
Proof.
  induction 1 as [|n s _ IH Hle].
  - simpl. auto.
  - simpl in IH.
    destruct IH as [IH|[IH|[IH|[IH|[]]]]]; injection IH as Hl Hr;
      unfold step; rewrite <- Hl, <- Hr in *; simpl; auto; lia.
Qed.

Lemma early_target_windows (n : nat) (s : search_state) :
  after_passes third_of_seven_undated 7 (mk_datetime 2019 1 1 0) false n s ->
  In (left s, right s) [(1, 7); (1, 3); (1, 1); (1, 0)].
Proof.
  induction 1 as [|n s _ IH Hle].
  - simpl. auto.
  - simpl in IH.
    destruct IH as [IH|[IH|[IH|[IH|[]]]]]; injection IH as Hl Hr;
      unfold step; rewrite <- Hl, <- Hr in *; simpl; auto; lia.
Qed.

Lemma binary_search_sentinels_witness :
  (exists s,
     loop 7 third_of_seven_undated 7 (mk_datetime 2021 1 1 0) true
       (initial 7 true) = Some s /\
     binary_search_date 7 third_of_seven_undated 7 (mk_datetime 2021 1 1 0)
       true = Some (7 + 1) /\
     Forall (fun p => exists d, third_of_seven_undated p = Some d)
       (probed s)) /\
  (exists s,
     loop 7 third_of_seven_undated 7 (mk_datetime 2019 1 1 0) false
       (initial 7 false) = Some s /\
     binary_search_date 7 third_of_seven_undated 7 (mk_datetime 2019 1 1 0)
       false = Some 0 /\
     Forall (fun p => exists d, third_of_seven_undated p = Some d)
       (probed s)).
Proof.
  assert (Hfuel : (Z.to_nat 7 <= 7)%nat) by (simpl; lia).
  assert (Hdate : forall i d, third_of_seven_undated i = Some d ->
                    d = mk_datetime 2020 1 i 0).
  { intros i d. unfold third_of_seven_undated.
    destruct (i =? 3); [discriminate|].
    destruct ((1 <=? i) && (i <=? 7)); [|discriminate]. now intros [= <-]. }
  split.
  - apply (proj1 (binary_search_sentinels third_of_seven_undated 7
                    (mk_datetime 2021 1 1 0) 7 Hfuel)).
    + intros n s Hn Hle.
      destruct (late_target_windows n s Hn) as [H|[H|[H|[H|[]]]]];
        injection H as Hl Hr; rewrite <- Hl, <- Hr in *;
        try (eexists; reflexivity); lia.
    + intros i Hi (d & Hd & Hle). apply Hdate in Hd. subst d.
      apply Hle. unfold lt. simpl. lia.
  - apply (proj2 (binary_search_sentinels third_of_seven_undated 7
                    (mk_datetime 2019 1 1 0) 7 Hfuel)).
    + intros n s Hn Hle.
      destruct (early_target_windows n s Hn) as [H|[H|[H|[H|[]]]]];
        injection H as Hl Hr; rewrite <- Hl, <- Hr in *;
        try (eexists; reflexivity); lia.
    + intros i Hi (d & Hd & Hlt). apply Hdate in Hd. subst d.
      unfold lt in Hlt. simpl in Hlt. lia.
Defined.

End SentinelsExamples.

(** ** The waits of the delete loop *)

Section Backoff.
Import Pop3 DeleteEngine Scenarios.

(** C5, as the code has it.  [f] is the failure counter after its
    increment.  While [f] is below [max_failures] (5), a pass whose
    connection or count fails goes on after a wait of min(30 f, 120)
    seconds, and a pass whose commit fails goes on after a wait of
    min(60 f, 300) seconds; when [f] has reached [max_failures] the pass
    leaves the loop and no wait is taken.  So the waits are those of
    f = 1..4: the commit wait is the longer one and is 60 f, below its cap
    of 300; the connection wait reaches its cap of 120 at f = 4.  Both
    formulas are non-decreasing in f and constant from their cap on. *)
Theorem backoff_is_linear_until_the_loop_gives_up
    (c : config) (target start : Z) (env : session_env) (s : state)
    (f : Z) :
  f = consecutive_failures s + 1 -> 1 <= f ->
  let r := iteration c target start env s in
  let n := stat (server s) in
  let initial := match initial_count s with Some i => i | None => n end in
  let batch_count :=
    Z.min (Z.min (batch_size c) (target - (initial - n))) (n - start + 1) in
  (connect_ok env && stat_ok env = false ->
   (f < max_failures ->
    fst r = Continue /\ consecutive_failures (snd r) = f /\
    sleeps (trace (snd r)) = sleeps (trace s) ++ [connect_wait_time f]) /\
   (max_failures <= f ->
    fst r = Break TooManyFailures /\
    sleeps (trace (snd r)) = sleeps (trace s))) /\
  (connect_ok env = true -> stat_ok env = true -> quit_ok env = false ->
   n <> 0 -> initial - n < target -> start <= n -> 0 < batch_count ->
   (f < max_failures ->
    fst r = Continue /\ consecutive_failures (snd r) = f /\
    sleeps (trace (snd r)) = sleeps (trace s) ++ [commit_wait_time f]) /\
   (max_failures <= f ->
    fst r = Break TooManyFailures /\
    sleeps (trace (snd r)) = sleeps (trace s))) /\
  max_failures = 5 /\
  connect_wait_time f = Z.min (30 * f) 120 /\
  commit_wait_time f = Z.min (60 * f) 300 /\
  connect_wait_time f < commit_wait_time f /\
  (f < max_failures ->
   commit_wait_time f = 60 * f /\ commit_wait_time f < 300 /\
   (connect_wait_time f = 120 <-> f = 4)) /\
  (forall g, f <= g ->
     connect_wait_time f <= connect_wait_time g /\
     commit_wait_time f <= commit_wait_time g) /\
  (120 <= 30 * f -> forall g, f <= g -> connect_wait_time g = 120) /\
  (300 <= 60 * f -> forall g, f <= g -> commit_wait_time g = 300).
Proof.
  intros Hf H1 r n initial batch_count.
  assert (Hconn : forall evs,
    sleeps evs = [] ->
    let r0 := connection_failure s evs in
    (f < max_failures ->
     fst r0 = Continue /\ consecutive_failures (snd r0) = f /\
     sleeps (trace (snd r0)) = sleeps (trace s) ++ [connect_wait_time f]) /\
    (max_failures <= f ->
     fst r0 = Break TooManyFailures /\
     sleeps (trace (snd r0)) = sleeps (trace s))).
  { intros evs Hevs. cbv zeta. unfold connection_failure. rewrite <- Hf.
    destruct (Z.geb_spec f max_failures) as [Hge|Hlt];
      cbn [fst snd consecutive_failures trace];
      rewrite !sleeps_app, Hevs; cbn [app];
      (split; [intros Hlo|intros Hhi]; try lia).
    - split; [reflexivity|]. now rewrite app_nil_r.
    - repeat split. }
  split; [|split].
  - intros Hfail. subst r. unfold iteration.
    destruct (connect_ok env); cbn [negb]; [|now apply Hconn].
    destruct (stat_ok env); cbn [negb]; [discriminate|now apply Hconn].
  - intros Hc Hs Hq Hn Hless Hstart Hbc. subst r n initial batch_count.
    unfold iteration. rewrite Hc, Hs. cbn [negb]. cbv zeta.
    destruct (Z.eqb_spec (stat (server s)) 0); [contradiction|].
    match goal with |- context [?a >=? target] =>
      destruct (Z.geb_spec a target); [lia|] end.
    destruct (Z.gtb_spec start (stat (server s))); [lia|].
    match goal with |- context [?a <=? 0] =>
      destruct (Z.leb_spec a 0); [lia|] end.
    match goal with |- context [mark_batch ?e ?m ?l ?a ?b] =>
      pose proof (mark_batch_events e m l a b) as (_ & _ & Hsl);
      destruct (mark_batch e m l a b) as [[marks mc] deles]
    end.
    cbn [snd] in Hsl. rewrite Hq, <- Hf.
    destruct (Z.geb_spec f max_failures) as [Hge|Hlt];
      cbn [fst snd consecutive_failures trace];
      rewrite !sleeps_app, Hsl; cbn [sleeps flat_map app];
      rewrite ?app_nil_r;
      (split; [intros Hlo|intros Hhi]; try lia);
      repeat split.
  - unfold connect_wait_time, commit_wait_time, max_failures.
    repeat split; try lia.
Qed.

(** Four failures so far and a refused connection: the loop gives up.
    Three failures so far: it waits 120 seconds after a refused
    connection and 240 after a rejected commit. *)
Lemma backoff_is_linear_until_the_loop_gives_up_witness :
  (fst (iteration (mk_config None) 2 1 no_connection
          (mk_state 3 None None three_messages [])) = Continue /\
   sleeps (trace (snd (iteration (mk_config None) 2 1 no_connection
                         (mk_state 3 None None three_messages []))))
     = [] ++ [connect_wait_time 4]) /\
  (fst (iteration (mk_config None) 2 1 commit_rejected
          (mk_state 3 None None three_messages [])) = Continue /\
   sleeps (trace (snd (iteration (mk_config None) 2 1 commit_rejected
                         (mk_state 3 None None three_messages []))))
     = [] ++ [commit_wait_time 4]) /\
  connect_wait_time 4 = 120 /\ commit_wait_time 4 = 240.
Proof.
  assert (H4 : 4 < max_failures) by reflexivity.
  split; [|split].
  - destruct (backoff_is_linear_until_the_loop_gives_up (mk_config None) 2 1
                no_connection (mk_state 3 None None three_messages []) 4
                eq_refl ltac:(lia)) as (Hconn & _).
    destruct (Hconn eq_refl) as [Hgo _].
    destruct (Hgo H4) as (Hc & _ & Hsl). split; [exact Hc | exact Hsl].
  - destruct (backoff_is_linear_until_the_loop_gives_up (mk_config None) 2 1
                commit_rejected (mk_state 3 None None three_messages []) 4
                eq_refl ltac:(lia)) as (_ & Hcommit & _).
    destruct (Hcommit eq_refl eq_refl eq_refl
                ltac:(vm_compute; discriminate) ltac:(vm_compute; reflexivity)
                ltac:(vm_compute; discriminate)
                ltac:(vm_compute; reflexivity)) as [Hgo _].
    destruct (Hgo H4) as (Hc & _ & Hsl). split; [exact Hc | exact Hsl].
  - split; reflexivity.
Defined.

(** Five commits rejected in a row: waits of 60, 120, 180 and 240
    seconds, and at the fifth failure the loop is left without a wait; no
    wait of 300 seconds, the cap of the commit wait, is ever taken. *)
Lemma fifth_failure_takes_no_wait :
  exists s,
    delete_run (mk_config None) 3 1
      [commit_rejected; commit_rejected; commit_rejected; commit_rejected;
       commit_rejected] three_messages = Some (Some TooManyFailures, s) /\
    consecutive_failures s = 5 /\
    sleeps (trace s) = [60; 120; 180; 240] /\
    ~ In (commit_wait_time 5) (sleeps (trace s)).
Proof.
  eexists. split; [vm_compute; reflexivity|].
  split; [reflexivity|]. split; [vm_compute; reflexivity|].
  vm_compute. intuition discriminate.
Qed.

End Backoff.

(** ** Where the reads of a batch begin *)

Section BatchStart.
Import Pop3 BackupPipeline Scenarios.

Ltac no_downloading Hnd :=
  let a := fresh "a" in
  let b := fresh "b" in
  let u := fresh "u" in
  let Hin := fresh "Hin" in
  intros a b u Hin;
  repeat (apply in_app_or in Hin; destruct Hin as [Hin|Hin]);
  try (now apply (Hnd a b u));
  try (now apply writes_no_downloading in Hin);
  try (apply in_map_iff in Hin; destruct Hin as (? & ? & _); discriminate);
  try (simpl in Hin; intuition discriminate).

(** The download loop on a batch that is not empty begins with a RETR of
    its first position. *)
Lemma read_batch_first (env : session_env) (mb : mailbox) (bu : Z)
    (p : Z) (rest : list Z) (n cf : Z) :
  exists batch cf' ok evs,
    read_batch env mb bu (p :: rest) n cf = (batch, cf', Retr p ok :: evs) /\
    forall a b u, ~ In (Downloading a b u) evs.
Proof.
  cbn [read_batch]. destruct (retr env mb p) as [m|].
  - destruct (read_batch env mb bu rest (n + 1) cf) as [[b c0] e0] eqn:Hr.
    destruct (read_batch_spec env mb bu rest _ _ _ _ _ Hr)
      as (_ & _ & _ & Hnd & _).
    eexists _, _, _, _. split; [reflexivity | exact Hnd].
  - cbv zeta. destruct (cf + 1 >=? max_failures).
    + eexists _, _, _, _. split; [reflexivity|]. intros a b u [].
    + destruct (read_batch env mb bu rest n (cf + 1)) as [[b c0] e0] eqn:Hr.
      destruct (read_batch_spec env mb bu rest _ _ _ _ _ Hr)
        as (_ & _ & _ & Hnd & _).
      eexists _, _, _, _. split; [reflexivity | exact Hnd].
Qed.

(** A pass either prints no progress line at all, or, when its session
    opens and the current start lies in the mailbox, it prints the
    progress line of the batch and then asks for the message at the
    current start; nothing that follows in the pass is a progress
    line. *)
Lemma iteration_progress_line (delete_after : bool) (start_pos : Z)
    (env : session_env) (s : state) :
  let cs := if delete_after then start_pos else start_pos + backed_up s in
  remaining s > 0 ->
  exists evs,
    trace (snd (iteration delete_after start_pos env s)) = trace s ++ evs /\
    ((connect_ok env && stat_ok env = false \/ cs > stat (server s)) /\
     (forall a b u, ~ In (Downloading a b u) evs) \/
     (connect_ok env = true /\ stat_ok env = true /\ cs <= stat (server s)) /\
     exists batch_end ok rest,
       evs = Downloading cs batch_end (backed_up s) :: Retr cs ok :: rest /\
       forall a b u, ~ In (Downloading a b u) rest).
Proof.
  intros cs Hrem. unfold iteration.
  destruct (connect_ok env); cbn [negb andb].
  2:{ cbv zeta. destruct (_ >=? max_failures); cbn [snd log with_failures trace].
      - exists []. rewrite app_nil_r. split; [reflexivity|]. left.
        split; [now left | intros a b u []].
      - eexists. split; [reflexivity|]. left.
        split; [now left | intros a b u Hin; simpl in Hin;
                           intuition discriminate]. }
  destruct (stat_ok env); cbn [negb].
  2:{ cbn [snd log with_failures trace]. eexists. split; [reflexivity|].
      left. split; [now left |].
      intros a b u Hin; simpl in Hin; intuition discriminate. }
  cbv zeta. unfold current_start_of. fold cs.
  destruct (Z.gtb_spec cs (stat (server s))) as [Hgt|Hle].
  { cbn [snd log trace]. eexists. split; [reflexivity|]. left.
    split; [right; lia|].
    intros a b u Hin; simpl in Hin; intuition discriminate. }
  assert (Hbc : 1 <= batch_count_of delete_after start_pos s).
  { unfold batch_count_of, current_start_of, batch_size. fold cs. lia. }
  set (bc := batch_count_of delete_after start_pos s) in *.
  replace (cs + bc - 1 + 1)
    with (cs + Z.of_nat (S (Z.to_nat (bc - 1)))) by lia.
  rewrite range_cons.
  destruct (read_batch_first env (server s) (backed_up s) cs
              (range (cs + 1) (cs + 1 + Z.of_nat (Z.to_nat (bc - 1)))) 0
              (consecutive_failures s))
    as (batch & cf' & ok & evs & -> & Hnd).
  assert (Hopen : true = true /\ true = true /\ cs <= stat (server s))
    by (repeat split; lia).
  destruct (cf' >=? max_failures).
  { cbn [snd log with_failures trace app]. eexists. split; [reflexivity|].
    right. split; [exact Hopen|]. eexists _, _, _.
    split; [reflexivity|]. no_downloading Hnd. }
  destruct delete_after.
  - destruct (map fst batch) as [|q qs].
    + cbn [snd trace app]. eexists. split; [reflexivity|].
      right. split; [exact Hopen|]. eexists _, _, _.
      split; [reflexivity|].
      destruct (_ >? 0); no_downloading Hnd.
    + unfold mark_batch. destruct (quit_ok env); cbn [snd trace app];
        (eexists; split; [reflexivity|]; right; split; [exact Hopen|];
         eexists _, _, _; split; [reflexivity|]).
      * destruct (_ >? 0); no_downloading Hnd.
      * no_downloading Hnd.
  - assert (Hcase : forall (A : Type) (x y : A) (l : list Z),
              match false, l with
              | true, _ :: _ => x
              | _, _ => y
              end = y) by (intros A x y []; reflexivity).
    cbn [snd trace app]. eexists. split; [reflexivity|].
    right. split; [exact Hopen|]. eexists _, _, _.
    split; [reflexivity|].
    destruct (_ >? 0); no_downloading Hnd.
Qed.

Lemma run_keeps_open (delete_after : bool) (start_pos : Z)
    (P : state -> Prop) (envs : list session_env) :
  (forall env s, remaining s > 0 -> P s ->
                 P (snd (iteration delete_after start_pos env s))) ->
  forall s s', run delete_after start_pos envs s = Some s' -> P s -> P s'.
Proof.
  intros Hstep.
  induction envs as [|env envs IH]; intros s s'; simpl.
  - destruct (remaining s >? 0); [discriminate|]. now intros [= <-].
  - destruct (Z.gtb_spec (remaining s) 0) as [Hpos|]; [|now intros [= <-]].
    pose proof (Hstep env s ltac:(lia)) as Hs.
    destruct (iteration delete_after start_pos env s) as [[| x |] s1];
      simpl in Hs.
    + intros Hrun HP. apply (IH s1 s' Hrun). now apply Hs.
    + intros [= <-]. exact Hs.
    + intros [= <-]. exact Hs.
Qed.

(** C7.  Every batch is read from the current start: a pass whose session
    opens, with messages still to do and the current start inside the
    mailbox, prints the progress line of its batch and then sends its
    first RETR to [start_pos] when [delete_after] is set, whatever has
    been backed up, and to [start_pos + backed_up] when it is not; the
    RETRs of the pass go on from there, position by position.  In the
    trace of a whole run every progress line is followed by a RETR, of
    position [start_pos] with [delete_after] and of [start_pos] plus the
    backed-up count the line shows without it. *)
Theorem batch_reads_begin_at_current_start
    (delete_after : bool) (start_pos : Z) :
  (forall env s,
     let cs := if delete_after then start_pos else start_pos + backed_up s in
     connect_ok env = true -> stat_ok env = true ->
     remaining s > 0 -> cs <= stat (server s) ->
     exists batch_end ok rest k,
       trace (snd (iteration delete_after start_pos env s))
         = trace s ++ Downloading cs batch_end (backed_up s)
                        :: Retr cs ok :: rest /\
       retr_positions (Retr cs ok :: rest)
         = map (fun i => cs + Z.of_nat i) (seq 0 (S k)) /\
       (forall a b u, ~ In (Downloading a b u) rest)) /\
  (forall end_pos envs mb disk s,
     backup_run start_pos end_pos delete_after envs mb disk = Some s ->
     forall t1 a b u t2,
       trace s = t1 ++ Downloading a b u :: t2 ->
       a = (if delete_after then start_pos else start_pos + u) /\
       exists ok t3, t2 = Retr a ok :: t3).
Proof.
  split.
  - intros env s cs Hc Hs Hrem Hcs.
    destruct (iteration_progress_line delete_after start_pos env s Hrem)
      as (evs & Ht & [[[Hfail|Hgt] _] | [_ (be & ok & rest & Hevs & Hnd)]]).
    + rewrite Hc, Hs in Hfail. discriminate.
    + fold cs in Hgt. lia.
    + destruct (iteration_reads delete_after start_pos env s)
        as (evs' & k & Ht' & Hr & _).
      rewrite Ht in Ht'. apply app_inv_head in Ht'. subst evs'.
      rewrite Hevs in Hr, Ht. fold cs in Hr, Ht.
      destruct k as [|k]; [discriminate|].
      exists be, ok, rest, k. simpl in Hr. now repeat split.
  - intros end_pos envs mb disk s Hrun.
    apply (run_keeps_open delete_after start_pos
             (fun s0 => forall t1 a b u t2,
                trace s0 = t1 ++ Downloading a b u :: t2 ->
                a = (if delete_after then start_pos else start_pos + u) /\
                exists ok t3, t2 = Retr a ok :: t3)
             envs) with (s := initial start_pos end_pos mb disk);
      [|exact Hrun|].
    + intros env s0 Hrem Hold t1 a b u t2 Hsplit.
      destruct (iteration_progress_line delete_after start_pos env s0 Hrem)
        as (evs & Ht & Hcases).
      rewrite Ht in Hsplit. apply app_eq_app in Hsplit.
      destruct Hsplit as (l & [[Hs0 Hl] | [Ht1 Hevs]]).
      * destruct l as [|x l].
        -- (* the line opens this pass *)
           cbn [app] in Hl.
           destruct Hcases as [[_ Hnone] | [_ (be & ok & rest & Hevs & _)]].
           ++ exfalso. apply (Hnone a b u). rewrite <- Hl. now left.
           ++ rewrite Hevs in Hl. injection Hl as -> _ -> ->.
              split; [reflexivity | eauto].
        -- (* the line is of an earlier pass *)
           cbn [app] in Hl. injection Hl as <- ->.
           destruct (Hold t1 a b u l Hs0) as [Ha (ok & t3 & ->)].
           split; [assumption|]. exists ok, (t3 ++ evs). reflexivity.
      * destruct Hcases as [[_ Hnone] | [_ (be & ok & rest & Hevs' & Hnd)]].
        -- exfalso. apply (Hnone a b u). rewrite Hevs.
           apply in_or_app. right. now left.
        -- rewrite Hevs' in Hevs. destruct l as [|x l].
           ++ cbn [app] in Hevs. injection Hevs as <- _ <- <-.
              split; [reflexivity | eauto].
           ++ cbn [app] in Hevs. injection Hevs as _ Hrest.
              exfalso. destruct l as [|y l]; [discriminate|].
              cbn [app] in Hrest. injection Hrest as _ Hrest.
              apply (Hnd a b u). rewrite Hrest.
              apply in_or_app. right. now left.
    + intros t1 a b u t2 Hsplit. cbn [initial trace] in Hsplit.
      destruct t1; discriminate.
Qed.

(** With two messages backed up, the next batch is read from position 3
    without deletion and from position 1 with it; and in a run over three
    messages each progress line is followed by the RETR the rule
    gives. *)
Lemma batch_reads_begin_at_current_start_witness :
  (exists batch_end ok rest k,
     trace (snd (iteration false 1 all_ok
                   (mk_state 2 0 0 1 three_messages [] [])))
       = [] ++ Downloading (1 + 2) batch_end 2 :: Retr (1 + 2) ok :: rest /\
     retr_positions (Retr (1 + 2) ok :: rest)
       = map (fun i => 1 + 2 + Z.of_nat i) (seq 0 (S k)) /\
     (forall a b u, ~ In (Downloading a b u) rest)) /\
  (exists batch_end ok rest k,
     trace (snd (iteration true 1 all_ok
                   (mk_state 2 2 0 1 [msg 3] [] [])))
       = [] ++ Downloading 1 batch_end 2 :: Retr 1 ok :: rest /\
     retr_positions (Retr 1 ok :: rest)
       = map (fun i => 1 + Z.of_nat i) (seq 0 (S k)) /\
     (forall a b u, ~ In (Downloading a b u) rest)) /\
  (exists s t2,
     backup_run 1 3 true [all_ok] three_messages [] = Some s /\
     trace s = [] ++ Downloading 1 3 0 :: t2 /\
     1 = 1 /\ exists ok t3, t2 = Retr 1 ok :: t3).
Proof.
  split; [|split].
  - apply (proj1 (batch_reads_begin_at_current_start false 1) all_ok
             (mk_state 2 0 0 1 three_messages [] []));
      [reflexivity | reflexivity | simpl; lia | vm_compute; discriminate].
  - apply (proj1 (batch_reads_begin_at_current_start true 1) all_ok
             (mk_state 2 2 0 1 [msg 3] [] []));
      [reflexivity | reflexivity | simpl; lia | vm_compute; discriminate].
  - eexists _, _. split; [vm_compute; reflexivity|].
    split; [reflexivity|].
    match goal with
    | |- _ /\ exists ok t3, ?t2 = _ =>
        eapply (proj2 (batch_reads_begin_at_current_start true 1)
                  3 [all_ok] three_messages [] _ ltac:(vm_compute; reflexivity)
                  [] 1 3 0 t2)
    end.
    reflexivity.
Defined.

End BatchStart.

(** ** A commit that fails *)

Section FailedCommit.
Import Pop3 BackupPipeline Scenarios.

(** The download loop only ever adds to the failure counter. *)
Lemma read_batch_counter_grows (env : session_env) (mb : mailbox) (bu : Z)
    (msg_nums : list Z) :
  forall n cf batch cf' evs,
    read_batch env mb bu msg_nums n cf = (batch, cf', evs) -> cf <= cf'.
Proof.
  induction msg_nums as [|p rest IH]; intros n cf batch cf' evs; simpl.
  - intros [= _ <- _]. lia.
  - destruct (retr env mb p) as [m|].
    + destruct (read_batch env mb bu rest (n + 1) cf) as [[b c0] e0] eqn:Hr.
      intros [= _ <- _]. exact (IH _ _ _ _ _ Hr).
    + destruct (cf + 1 >=? max_failures).
      * intros [= _ <- _]. lia.
      * destruct (read_batch env mb bu rest n (cf + 1))
          as [[b c0] e0] eqn:Hr.
        intros [= _ <- _]. specialize (IH _ _ _ _ _ Hr). lia.
Qed.

(** A pass of the combined mode whose session opens, by what its
    downloads gave. *)
Lemma combined_pass (start_pos : Z) (env : session_env) (s : state)
    (batch : list (Z * archive_entry)) (cf : Z) (reads : list event) :
  let batch_end := start_pos + batch_count_of true start_pos s - 1 in
  connect_ok env = true -> stat_ok env = true ->
  start_pos <= stat (server s) ->
  read_batch env (server s) (backed_up s) (range start_pos (batch_end + 1)) 0
    (consecutive_failures s) = (batch, cf, reads) ->
  (max_failures <= cf ->
   iteration true start_pos env s
   = (Break tt,
      mk_state (backed_up s) (deleted s) cf (remaining s) (server s)
        (archive s)
        (trace s ++ Downloading start_pos batch_end (backed_up s)
                      :: reads ++ [Quit (quit_ok env) []]))) /\
  (cf < max_failures ->
   exists s' closing,
     iteration true start_pos env s = (Continue, s') /\
     server s' = (if quit_ok env
                  then commit (server s)
                         (fst (mark_batch env (server s) (map fst batch)))
                  else server s) /\
     archive s' = archive s ++ zip_writes (map snd batch) /\
     trace s' = trace s ++ Downloading start_pos batch_end (backed_up s)
                  :: reads ++ map ZipWrite (zip_writes (map snd batch))
                  ++ closing /\
     (batch <> [] ->
      exists tail,
        closing
        = snd (mark_batch env (server s) (map fst batch))
          ++ Quit (quit_ok env)
               (if quit_ok env
                then removed (server s)
                       (fst (mark_batch env (server s) (map fst batch)))
                else [])
          :: tail /\
        (quit_ok env = false ->
         backed_up s' = backed_up s /\
         remaining s' = remaining s /\
         deleted s' = deleted s /\
         consecutive_failures s' = cf + 1 /\
         tail = [Sleep (30 * (cf + 1))]))).
Proof.
  intros batch_end Hc Hs Hin Hread.
  unfold iteration. rewrite Hc, Hs. cbn [negb]. cbv zeta.
  change (current_start_of true start_pos s) with start_pos.
  fold batch_end.
  destruct (Z.gtb_spec start_pos (stat (server s))) as [Hgt|_]; [lia|].
  rewrite Hread. split.
  - intros Hmax.
    destruct (Z.geb_spec cf max_failures) as [_|Hlt]; [|lia].
    reflexivity.
  - intros Hlt.
    destruct (Z.geb_spec cf max_failures) as [Hge|_]; [lia|].
    destruct batch as [|[p e] batch'].
    + cbn [map]. eexists _, _. split; [reflexivity|].
      cbn [server archive trace].
      split.
      { unfold mark_batch. cbn [filter fst].
        destruct (quit_ok env); [|reflexivity].
        symmetry. apply (kept_from_outside [] (server s) 1). intros q []. }
      split; [reflexivity|]. split; [reflexivity|].
      intros Hne. now contradiction Hne.
    + cbn [map]. unfold mark_batch. cbn [fst snd].
      destruct (quit_ok env); eexists _, _;
        (split; [reflexivity|]);
        cbn [server archive trace backed_up remaining deleted
             consecutive_failures];
        (split; [reflexivity|]); (split; [reflexivity|]);
        (split; [reflexivity|]); intros _; eexists;
        (split; [reflexivity|]).
      * discriminate.
      * intros _. repeat split; lia.
Qed.

(** Four refused connections, a rejected commit, and a session in which
    everything works: the three messages are read again from position 1
    and the loop is left, without a write to the ZIP files, a DELE or a
    second attempt to commit.  The function returns with nothing
    deleted. *)
Lemma fifth_failure_ends_the_retry :
  exists s before,
    backup_run 1 3 true
      [no_connection; no_connection; no_connection; no_connection;
       commit_rejected; all_ok] three_messages [] = Some s /\
    backup_emails_to_zip 1 3 true
      [no_connection; no_connection; no_connection; no_connection;
       commit_rejected; all_ok] three_messages [] = Some (0, 0) /\
    consecutive_failures s = 5 /\
    remaining s = 3 /\
    server s = three_messages /\
    length (archive s) = 3%nat /\
    trace s = before ++ [Dele 1 true; Dele 2 true; Dele 3 true;
                         Quit false []; Sleep 150;
                         Downloading 1 3 0;
                         Retr 1 true; Retr 2 true; Retr 3 true;
                         Quit true []] /\
    dele_positions before = [].
Proof.
  eexists _, (_ :: _ :: _ :: _ :: _ :: _ :: _ :: _ :: _ :: _ :: _ :: []).
  split; [vm_compute; reflexivity|].
  repeat split; vm_compute; reflexivity.
Qed.

(** C6, as the code has it.  In combined mode, when a batch has been
    downloaded and written and its commit fails, the pass goes on with
    [backed_up], [remaining] and [deleted] at their values of before the
    batch, the failure counter one higher, the mailbox unchanged and the
    ZIP files holding what they held plus the batch's entries; the loop
    then runs its next pass from that state.  A next pass whose session
    opens prints the same progress line and downloads the same positions
    from the same [start_pos] with the same backed-up count.  What it
    does with them depends on the failure counter, which the failed
    commit has raised and the downloads do not lower: when it has reached
    [max_failures] the pass leaves the loop after the downloads, with no
    write to the ZIP files, no DELE and no commit, so that after a fifth
    consecutive failure the batch is not retried; below [max_failures]
    the batch is written to the ZIP files a second time and, when not
    empty, marked and committed again. *)
Theorem failed_commit_rolls_back_and_rereads
    (start_pos : Z) (env : session_env) (s : state)
    (batch : list (Z * archive_entry)) (cf : Z) (reads : list event) :
  let batch_end := start_pos + batch_count_of true start_pos s - 1 in
  connect_ok env = true -> stat_ok env = true -> quit_ok env = false ->
  remaining s > 0 ->
  start_pos <= stat (server s) ->
  read_batch env (server s) (backed_up s) (range start_pos (batch_end + 1)) 0
    (consecutive_failures s) = (batch, cf, reads) ->
  cf < max_failures ->
  batch <> [] ->
  exists s',
    iteration true start_pos env s = (Continue, s') /\
    (backed_up s' = backed_up s /\
     remaining s' = remaining s /\
     deleted s' = deleted s /\
     consecutive_failures s' = cf + 1 /\
     server s' = server s) /\
    (archive s' = archive s ++ zip_writes (map snd batch) /\
     forall e, In e (archive s) \/ In e (map snd batch) ->
               In e (archive s')) /\
    (exists tail,
       trace s' = trace s ++ Downloading start_pos batch_end (backed_up s)
                    :: reads ++ map ZipWrite (zip_writes (map snd batch))
                    ++ snd (mark_batch env (server s) (map fst batch))
                    ++ Quit false [] :: tail /\
       tail = [Sleep (30 * (cf + 1))]) /\
    (forall envs,
       run true start_pos (env :: envs) s = run true start_pos envs s') /\
    (forall env2,
       connect_ok env2 = true -> stat_ok env2 = true ->
       exists batch2 cf2 reads2,
         read_batch env2 (server s) (backed_up s)
           (range start_pos (batch_end + 1)) 0 (cf + 1)
         = (batch2, cf2, reads2) /\
         cf + 1 <= cf2 /\
         (max_failures <= cf2 ->
          iteration true start_pos env2 s'
          = (Break tt,
             mk_state (backed_up s) (deleted s) cf2 (remaining s) (server s)
               (archive s')
               (trace s' ++ Downloading start_pos batch_end (backed_up s)
                              :: reads2 ++ [Quit (quit_ok env2) []]))) /\
         (cf2 < max_failures ->
          exists s'' closing,
            iteration true start_pos env2 s' = (Continue, s'') /\
            archive s'' = archive s' ++ zip_writes (map snd batch2) /\
            trace s'' = trace s' ++ Downloading start_pos batch_end
                                      (backed_up s)
                          :: reads2
                          ++ map ZipWrite (zip_writes (map snd batch2))
                          ++ closing /\
            (batch2 <> [] ->
             exists tail,
               closing
               = snd (mark_batch env2 (server s) (map fst batch2))
                 ++ Quit (quit_ok env2)
                      (if quit_ok env2
                       then removed (server s)
                              (fst (mark_batch env2 (server s)
                                      (map fst batch2)))
                       else [])
                 :: tail))).
Proof.
  intros batch_end Hc Hs Hq Hrem Hin Hread Hcf Hne.
  destruct (combined_pass start_pos env s batch cf reads Hc Hs Hin Hread)
    as [_ Hgo].
  destruct (Hgo Hcf) as (s' & closing & Hit & Hsrv & Harch & Htr & Hclose).
  destruct (Hclose Hne) as (tail & -> & Hfields).
  rewrite Hq in Hsrv, Htr.
  destruct (Hfields Hq) as (Hb & Hr & Hd & Hcf' & Htail).
  exists s'. split; [exact Hit|].
  split; [now repeat split|].
  split.
  { split; [exact Harch|].
    intros e0 [Hi|Hi]; rewrite Harch; apply in_or_app; [now left | right].
    apply (Permutation_in e0
             (Permutation_sym (zip_writes_perm (map snd batch)))).
    exact Hi. }
  split; [exists tail; now split|].
  split.
  { intros envs. cbn [run].
    destruct (Z.gtb_spec (remaining s) 0) as [_|Hle]; [|lia].
    now rewrite Hit. }
  intros env2 Hc2 Hs2.
  destruct (read_batch env2 (server s) (backed_up s)
              (range start_pos (batch_end + 1)) 0 (cf + 1))
    as [[batch2 cf2] reads2] eqn:Hread2.
  exists batch2, cf2, reads2. split; [reflexivity|].
  split; [exact (read_batch_counter_grows _ _ _ _ _ _ _ _ _ Hread2)|].
  assert (Hbc : batch_count_of true start_pos s'
                = batch_count_of true start_pos s).
  { unfold batch_count_of, current_start_of. now rewrite Hr, Hsrv. }
  assert (Hread' :
    read_batch env2 (server s') (backed_up s')
      (range start_pos
         (start_pos + batch_count_of true start_pos s' - 1 + 1)) 0
      (consecutive_failures s') = (batch2, cf2, reads2)).
  { rewrite Hbc, Hsrv, Hb, Hcf'. exact Hread2. }
  destruct (combined_pass start_pos env2 s' batch2 cf2 reads2 Hc2 Hs2
              ltac:(rewrite Hsrv; exact Hin) Hread') as [Hstop Hon].
  rewrite Hbc, Hb, Hsrv in Hstop, Hon. fold batch_end in Hstop, Hon.
  split.
  - intros Hmax. rewrite (Hstop Hmax), Hd, Hr. reflexivity.
  - intros Hlt.
    destruct (Hon Hlt) as (s'' & closing & Hit2 & _ & Harch2 & Htr2 & Hcl2).
    exists s'', closing. split; [exact Hit2|]. split; [exact Harch2|].
    split; [exact Htr2|]. intros Hne2.
    destruct (Hcl2 Hne2) as (tail2 & Htail2 & _). now exists tail2.
Qed.

(** The commit of a batch of three rejected: on the first failure the
    next pass writes and commits the batch again; on the fifth it leaves
    the loop after the downloads. *)
Lemma failed_commit_rolls_back_and_rereads_witness :
  (exists s',
     iteration true 1 commit_rejected (initial 1 3 three_messages [])
       = (Continue, s') /\
     backed_up s' = 0 /\ remaining s' = 3 /\ consecutive_failures s' = 1 /\
     server s' = three_messages /\ length (archive s') = 3%nat /\
     run true 1 [commit_rejected; all_ok] (initial 1 3 three_messages [])
       = run true 1 [all_ok] s' /\
     exists s'',
       iteration true 1 all_ok s' = (Continue, s'') /\
       length (archive s'') = 6%nat) /\
  (exists s',
     iteration true 1 commit_rejected (mk_state 0 0 4 3 three_messages [] [])
       = (Continue, s') /\
     backed_up s' = 0 /\ remaining s' = 3 /\ consecutive_failures s' = 5 /\
     server s' = three_messages /\ length (archive s') = 3%nat /\
     exists s'',
       iteration true 1 all_ok s' = (Break tt, s'') /\
       archive s'' = archive s' /\ server s'' = three_messages /\
       backed_up s'' = 0 /\ deleted s'' = 0).
Proof.
  assert (Hread : forall env cf,
    retr_ok env = (fun _ => true) ->
    top_ok env = (fun _ => true) ->
    read_batch env three_messages 0 (range 1 (1 + 3 - 1 + 1)) 0 cf
    = ([(1, mk_entry (2020, 1) (1, Some (2020, 1, 1)) (msg 1));
        (2, mk_entry (2020, 1) (2, Some (2020, 1, 2)) (msg 2));
        (3, mk_entry (2020, 1) (3, Some (2020, 1, 3)) (msg 3))],
       cf,
       [Retr 1 true; Retr 2 true; Retr 3 true])).
  { intros [c0 s0 r0 t0 d0 q0] cf. cbn [retr_ok top_ok].
    intros -> ->. reflexivity. }
  split.
  - destruct (failed_commit_rolls_back_and_rereads 1 commit_rejected
                (initial 1 3 three_messages []) _ _ _
                eq_refl eq_refl eq_refl
                ltac:(simpl; lia) ltac:(vm_compute; discriminate)
                (Hread commit_rejected 0 eq_refl eq_refl)
                ltac:(reflexivity) ltac:(discriminate))
      as (s' & Hit & (Hb & Hr & _ & Hc & Hs) & (Ha & _) & _ & Hrun & Hnext).
    exists s'. split; [exact Hit|].
    split; [exact Hb|]. split; [exact Hr|]. split; [exact Hc|].
    split; [exact Hs|]. split; [rewrite Ha; reflexivity|].
    split; [exact (Hrun [all_ok])|].
    destruct (Hnext all_ok eq_refl eq_refl)
      as (b2 & c2 & r2 & Hrd & _ & _ & Hon).
    change (read_batch all_ok (server (initial 1 3 three_messages []))
              (backed_up (initial 1 3 three_messages []))
              (range 1 (1 + batch_count_of true 1
                              (initial 1 3 three_messages []) - 1 + 1))
              0 (0 + 1))
      with (read_batch all_ok three_messages 0 (range 1 (1 + 3 - 1 + 1)) 0 1)
      in Hrd.
    rewrite (Hread all_ok 1 eq_refl eq_refl) in Hrd.
    injection Hrd as <- <- <-.
    destruct (Hon ltac:(reflexivity)) as (s'' & closing & Hit2 & Ha2 & _).
    exists s''. split; [exact Hit2|]. rewrite Ha2, Ha. reflexivity.
  - destruct (failed_commit_rolls_back_and_rereads 1 commit_rejected
                (mk_state 0 0 4 3 three_messages [] []) _ _ _
                eq_refl eq_refl eq_refl
                ltac:(simpl; lia) ltac:(vm_compute; discriminate)
                (Hread commit_rejected 4 eq_refl eq_refl)
                ltac:(reflexivity) ltac:(discriminate))
      as (s' & Hit & (Hb & Hr & _ & Hc & Hs) & (Ha & _) & _ & _ & Hnext).
    exists s'. split; [exact Hit|].
    split; [exact Hb|]. split; [exact Hr|]. split; [exact Hc|].
    split; [exact Hs|]. split; [rewrite Ha; reflexivity|].
    destruct (Hnext all_ok eq_refl eq_refl)
      as (b2 & c2 & r2 & _ & Hgrow & Hstop & _).
    eexists. split; [exact (Hstop ltac:(unfold max_failures; lia))|].
    cbn [archive server backed_up deleted]. repeat split.
Defined.

End FailedCommit.
